(** * romm-mobile: existence reconciler, storage back-end selection,
      settings loader, remaining-time renderer and download scheduler

    A shallow embedding of the parts of the application that the
    specification makes checkable statements about:

    - [useStorageAccessFramework] (capability probe [isSafAvailable]),
    - [useRomFileSystem] (the existence cache and its operations),
    - the ROM details screen ([updateExistingFilePath], [handleDeleteFile]),
    - the settings screen ([loadConcurrentDownloadsSetting]),
    - the downloads screen ([formatTime]),
    - the download queue scheduler (its source file, the download context,
      is not part of the sources at hand; it is modelled from the
      specification in [Module DownloadQueue]). *)

From Stdlib Require Import ZArith NArith Bool List String Ascii Lia SpecFloat.
From stdpp Require Import base option list gmap.

Import ListNotations.
Local Open Scope Z_scope.

(** ** JavaScript strings

    A JavaScript string is a finite sequence of UTF-16 code units.  The
    functions below only ever compare code units, so a code unit is an [N]. *)

Abbreviation JSString := (list N).

Definition js (s : string) : JSString :=
  List.map N_of_ascii (list_ascii_of_string s).

Module JS.

Definition dot : N := 46%N.
Definition slash : N := 47%N.

(** The character class [[^/.]]: any code unit but a slash or a dot. *)
Definition extChar (c : N) : bool := negb (N.eqb c slash || N.eqb c dot).

(** Does [\.[^/.]+$] match [s] from its first code unit on? *)
Definition matchesExtension (s : JSString) : bool :=
  match s with
  | [] => false
  | c :: rest =>
      N.eqb c dot && negb (Nat.eqb (length rest) 0) && forallb extChar rest
  end.

(** [s.replace(/\.[^/.]+$/, "")]: the leftmost match is replaced by the
    empty string; a match always runs to the end of the input. *)
Fixpoint stripExtension (s : JSString) : JSString :=
  match s with
  | [] => []
  | c :: rest =>
      if matchesExtension s then [] else c :: stripExtension rest
  end.

Fixpoint startsWith (s sub : JSString) {struct sub} : bool :=
  match sub, s with
  | [], _ => true
  | _ :: _, [] => false
  | x :: sub', y :: s' => N.eqb x y && startsWith s' sub'
  end.

(** [s.includes(sub)] *)
Fixpoint includes (s sub : JSString) : bool :=
  startsWith s sub
  || match s with
     | [] => false
     | _ :: s' => includes s' sub
     end.

(** Outcome of an operation that may raise. *)
Inductive JSError : Type :=
| TypeError
| IOError (message : JSString).

Inductive Outcome (A : Type) : Type :=
| Returned (a : A)
| Threw (e : JSError).
Arguments Returned {A} a.
Arguments Threw {A} e.

End JS.

Import JS.

(** ** The storage access framework hook *)

Module Storage.

(** [Platform.OS] and [Platform.isTV] of React Native. *)
Inductive PlatformOS : Type := ios | android | windows | macos | web.

Record Platform : Type := { OS : PlatformOS; isTV : bool }.

Definition isAndroid (os : PlatformOS) : bool :=
  match os with android => true | _ => false end.

Inductive Backend : Type :=
| SAF      (* permission-scoped content URIs *)
| ExpoFS.  (* plain paths through expo-file-system *)

Definition isSafAvailable (p : Platform) : bool :=
  if negb (isAndroid (OS p)) then false
  else if isTV p then false
  else true.

End Storage.

Import Storage.

(** ** The existence reconciler: [useRomFileSystem] *)

Module RomFileSystem.

Record RomFile : Type := {
  id : Z;
  rom_id : Z;
  file_name : JSString;
  file_extension : JSString;
  file_path : JSString;
  file_size_bytes : Z
}.

(** [folderUri] is [None] when the property is missing; the empty string
    is as falsy as a missing one. *)
Record PlatformFolder : Type := {
  platformSlug : JSString;
  platformName : JSString;
  folderUri : option JSString;
  folderName : JSString
}.

(** The two [useState] cells of the hook.  A value of this type is either
    the current content of the cells, which the updaters passed to
    [setFileChecks] and [setChecking] receive as [prev], or the content
    they had when a component was rendered, which is what the callbacks
    created by that render read as [fileChecks] and [checking]. *)
Record HookState : Type := {
  fileChecks : gmap Z bool;
  checking : gmap Z bool
}.

Definition initialState : HookState :=
  {| fileChecks := ∅; checking := ∅ |}.

(** What an operation does to the outside world and to the hook's cells. *)
Inductive Event : Type :=
| ListFiles (b : Backend) (uri : JSString)
| SetFileChecks (k : Z) (v : bool)
| SetChecking (k : Z) (v : bool).

(** A computation of the hook: runs from a state, yields an outcome, the
    state it leaves and the events it caused, oldest first. *)
Definition Hook (A : Type) : Type :=
  HookState -> Outcome A * HookState * list Event.

Definition ret {A} (a : A) : Hook A := fun s => (Returned a, s, []).

Definition throw {A} (e : JSError) : Hook A := fun s => (Threw e, s, []).

Definition bind {A B} (m : Hook A) (k : A -> Hook B) : Hook B :=
  fun s =>
    match m s with
    | (Returned a, s1, t1) =>
        match k a s1 with
        | (o, s2, t2) => (o, s2, t1 ++ t2)
        end
    | (Threw e, s1, t1) => (Threw e, s1, t1)
    end.

(** [try m catch (error) h] *)
Definition tryCatch {A} (m : Hook A) (h : JSError -> Hook A) : Hook A :=
  fun s =>
    match m s with
    | (Returned a, s1, t1) => (Returned a, s1, t1)
    | (Threw e, s1, t1) =>
        match h e s1 with
        | (o, s2, t2) => (o, s2, t1 ++ t2)
        end
    end.

Declare Scope hook_scope.
Delimit Scope hook_scope with hook.
Notation "x <- m ;; k" := (bind m (fun x => k))
  (at level 100, m at next level, right associativity) : hook_scope.
Notation "m ;;; k" := (bind m (fun _ => k))
  (at level 100, right associativity) : hook_scope.

(** [setFileChecks((prev) => ({ ...prev, [k]: v }))] *)
Definition setFileChecks (k : Z) (v : bool) : Hook unit :=
  fun s =>
    (Returned tt,
     {| fileChecks := <[k := v]> (fileChecks s); checking := checking s |},
     [SetFileChecks k v]).

(** [setChecking((prev) => ({ ...prev, [k]: v }))] *)
Definition setChecking (k : Z) (v : bool) : Hook unit :=
  fun s =>
    (Returned tt,
     {| fileChecks := fileChecks s; checking := <[k := v]> (checking s) |},
     [SetChecking k v]).

Definition outcome {A} (r : Outcome A * HookState * list Event) : Outcome A :=
  fst (fst r).
Definition final {A} (r : Outcome A * HookState * list Event) : HookState :=
  snd (fst r).
Definition trace {A} (r : Outcome A * HookState * list Event) : list Event :=
  snd r.

(** Truthiness of [platformFolder.folderUri]. *)
Definition truthyUri (pf : PlatformFolder) : option JSString :=
  match folderUri pf with
  | Some (c :: u) => Some (c :: u)
  | _ => None
  end.

Definition isListing (e : Event) : bool :=
  match e with
  | ListFiles _ _ => true
  | _ => false
  end.

(** The state after [setFileChecks] has stored [v] under [k]. *)
Definition cached (s : HookState) (k : Z) (v : bool) : HookState :=
  {| fileChecks := <[k := v]> (fileChecks s); checking := checking s |}.

Section Hook.

(** The device the application runs on, and the directory listings the
    two back ends answer with: [SAF.listFiles(uri)] and
    [new FileSystem.Directory(uri).list()], entries given by name. *)
Variable platform : Platform.
Variable listDirectory : Backend -> JSString -> Outcome (list JSString).

Definition listFiles (b : Backend) (uri : JSString) : Hook (list JSString) :=
  fun s =>
    (listDirectory b uri, s, [ListFiles b uri]).

Definition checkIfRomExists
    (romFile : option RomFile) (platformFolder : option PlatformFolder)
  : Hook bool :=
  match romFile with
  | None => ret false
  | Some romFile =>
      match platformFolder ≫= truthyUri with
      | None => ret false
      | Some uri =>
          tryCatch
            (let fileNameWithoutExtension :=
               stripExtension (file_name romFile) in
             fileList <-
               (if isSafAvailable platform
                then listFiles SAF uri
                else listFiles ExpoFS uri) ;;
             let romExists :=
               existsb (fun file => includes file fileNameWithoutExtension)
                       fileList in
             if romExists
             then (setFileChecks (rom_id romFile) true ;;; ret true)
             else (setFileChecks (rom_id romFile) false ;;; ret false))%hook
            (fun _ =>
               let exists_ := false in
               (setFileChecks (rom_id romFile) exists_ ;;; ret exists_)%hook)
      end
  end.

(** [fileChecks[romFile.rom_id] || false], on the cells as rendered. *)
Definition isRomDownloaded (render : HookState) (romFile : RomFile) : bool :=
  default false (fileChecks render !! rom_id romFile).

(** [checking[romFile.rom_id] || false], on the cells as rendered. *)
Definition isCheckingRom (render : HookState) (romFile : RomFile) : bool :=
  default false (checking render !! rom_id romFile).

(** The filter of [checkMultipleRoms]:
    [fileChecks[rom_id] === undefined && !checking[rom_id]]. *)
Definition notYetChecked (render : HookState) (romFile : RomFile) : bool :=
  match fileChecks render !! rom_id romFile with
  | None => negb (default false (checking render !! rom_id romFile))
  | Some _ => false
  end.

Definition romsFilesToCheck (render : HookState) (romsFiles : list RomFile)
  : list RomFile :=
  List.filter (notYetChecked render) romsFiles.

(** The checks of the files of an array, each run to its end before the
    next one starts. *)
Fixpoint checkEach (roms : list RomFile) (pf : option PlatformFolder)
  : Hook unit :=
  match roms with
  | [] => ret tt
  | r :: roms' =>
      (checkIfRomExists (Some r) pf ;;; checkEach roms' pf)%hook
  end.

(** The checks of one [Promise.all(romsFilesToCheck.map(async ...))]:
    [map] runs every check up to the [await] of its listing, so all the
    listings are issued, in the order of the array, before the first
    write; the writes follow, in the order of the array as well (the
    listings are taken to settle in the order they were issued).  A check
    reads nothing of the cells, so the outcome and the cells are those of
    the checks run one after the other. *)
Definition checkAll (roms : list RomFile) (pf : option PlatformFolder)
  : Hook unit :=
  fun s =>
    let '(o, s1, t) := checkEach roms pf s in
    (o, s1,
     List.filter isListing t ++ List.filter (fun e => negb (isListing e)) t).

(** [checkMultipleRoms], as created by the render [render]. *)
Definition checkMultipleRoms (render : HookState)
    (romsFiles : list RomFile) (platformFolder : option PlatformFolder)
  : Hook unit :=
  let toCheck := romsFilesToCheck render romsFiles in
  if Nat.eqb (length toCheck) 0 then ret tt
  else
    match platformFolder with
    | None => throw TypeError  (* reads [platformFolder.platformSlug] *)
    | Some pf =>
        match truthyUri pf with
        | None => ret tt
        | Some _ => checkAll toCheck platformFolder
        end
    end.

(** [refreshRomCheck], as created by the render [render]. *)
Definition refreshRomCheck (render : HookState)
    (romFile : option RomFile) (platformFolder : option PlatformFolder)
  : Hook bool :=
  match romFile with
  | None => throw TypeError  (* reads [romFile.file_name] *)
  | Some f =>
      if bool_decide (fileChecks render !! rom_id f = Some true)
      then ret true
      else checkIfRomExists romFile platformFolder
  end.

(** The shapes a run of [checkIfRomExists] can take. *)
Inductive CheckRun (f : option RomFile) (s : HookState)
  : Outcome bool * HookState * list Event -> Prop :=
| check_run_skipped : CheckRun f s (Returned false, s, [])
| check_run_done file uri r :
    f = Some file ->
    CheckRun f s (Returned r, cached s (rom_id file) r,
                  [ListFiles (if isSafAvailable platform then SAF else ExpoFS) uri; SetFileChecks (rom_id file) r]).

Fixpoint resetRomsCheck (romsFiles : list RomFile) : Hook unit :=
  match romsFiles with
  | [] => ret tt
  | romFile :: rest =>
      (setFileChecks (rom_id romFile) false ;;;
       setChecking (rom_id romFile) false ;;;
       resetRomsCheck rest)%hook
  end.

End Hook.

(** The calls a screen can make on the hook; a callback that reads the
    cells comes with the render that created it. *)
Inductive Call : Type :=
| CallCheckIfRomExists (romFile : option RomFile) (pf : option PlatformFolder)
| CallCheckMultipleRoms (render : HookState)
    (romsFiles : list RomFile) (pf : option PlatformFolder)
| CallRefreshRomCheck (render : HookState)
    (romFile : option RomFile) (pf : option PlatformFolder)
| CallResetRomsCheck (romsFiles : list RomFile).

(** The state a call leaves, on a given device and with given listings. *)
Definition perform (platform : Platform)
    (listDirectory : Backend -> JSString -> Outcome (list JSString))
    (c : Call) (s : HookState) : HookState :=
  match c with
  | CallCheckIfRomExists f pf =>
      final (checkIfRomExists platform listDirectory f pf s)
  | CallCheckMultipleRoms render l pf =>
      final (checkMultipleRoms platform listDirectory render l pf s)
  | CallRefreshRomCheck render f pf =>
      final (refreshRomCheck platform listDirectory render f pf s)
  | CallResetRomsCheck l => final (resetRomsCheck l s)
  end.

(** The contents the cells can have: they start as two empty records and
    change only through the operations of the hook, whatever the
    directories hold at the time of a call and whichever render the
    callback comes from. *)
Inductive ReachableState : HookState -> Prop :=
| reachable_initial : ReachableState initialState
| reachable_perform platform listDirectory c s :
    ReachableState s -> ReachableState (perform platform listDirectory c s).

(** Events that write the in-flight flags. *)
Definition writesChecking (e : Event) : bool :=
  match e with
  | SetChecking _ _ => true
  | _ => false
  end.

(** Events that write the cache entry [k]. *)
Definition writesFileCheck (k : Z) (e : Event) : bool :=
  match e with
  | SetFileChecks k' _ => Z.eqb k k'
  | _ => false
  end.

End RomFileSystem.

Import RomFileSystem.

(** ** The ROM details screen: listing and deleting the selected file *)

Module RomDetails.

(** Calls into the storage layer, in the order they are issued:
    [SAF.listFiles(uri)] and [new FileSystem.Directory(uri).list()] for
    the two back ends, [FileSystem.readDirectoryAsync(uri)], and
    [SAF.unlink(path)] and [FileSystem.deleteAsync(path)] for the two back
    ends. *)
Inductive StorageCall : Type :=
| CallListFiles (b : Backend) (uri : JSString)
| CallReadDirectoryAsync (uri : JSString)
| CallUnlink (b : Backend) (path : JSString).

Section Screen.

(** The device, the listings the two back ends answer with, as in the
    hook, and what [FileSystem.readDirectoryAsync] answers with. *)
Variable platform : Platform.
Variable listDirectory : Backend -> JSString -> Outcome (list JSString).
Variable readDirectoryAsync : JSString -> Outcome (list JSString).

(** The branch of [updateExistingFilePath]: [if (isSafAvailable())]. *)
Definition updateExistingFilePath_backend : Backend :=
  if isSafAvailable platform then SAF else ExpoFS.

(** [updateExistingFilePath], from the folder on: the path it records
    ([None] for [setExistingFilePath(null)]) and the calls it makes. *)
Definition updateExistingFilePath (selectedFile : RomFile) (uri : JSString)
  : option JSString * list StorageCall :=
  let b := updateExistingFilePath_backend in
  match listDirectory b uri with
  | Threw _ => (None, [CallListFiles b uri])
  | Returned files =>
      let fileNameWithoutExtension := stripExtension (file_name selectedFile) in
      let romExists :=
        existsb (fun file =>
                   bool_decide (stripExtension file = fileNameWithoutExtension))
                files in
      (if romExists
       then Some (uri ++ js "/" ++ fileNameWithoutExtension)
       else None,
       [CallListFiles b uri])
  end.

(** The branch of [handleDeleteFile], taken twice:
    [if (RNPlatform.OS === "android")]. *)
Definition handleDeleteFile_backend : Backend :=
  if isAndroid (OS platform) then SAF else ExpoFS.

(** The listing of [handleDeleteFile]: [SAF.listFiles] on Android,
    [FileSystem.readDirectoryAsync] elsewhere; the call and its answer. *)
Definition handleDeleteFile_listing (uri : JSString)
  : StorageCall * Outcome (list JSString) :=
  if isAndroid (OS platform)
  then (CallListFiles SAF uri, listDirectory SAF uri)
  else (CallReadDirectoryAsync uri, readDirectoryAsync uri).

(** The confirmed deletion of [handleDeleteFile], from the folder on:
    the storage calls it makes.  [if (romFile)] passes for a name that is
    not empty. *)
Definition handleDeleteFile (selectedFile : RomFile) (uri : JSString)
  : list StorageCall :=
  let fileNameWithoutExtension := stripExtension (file_name selectedFile) in
  let '(listing, answer) := handleDeleteFile_listing uri in
  match answer with
  | Threw _ => [listing]
  | Returned fileList =>
      match List.find
              (fun file =>
                 bool_decide (stripExtension file = fileNameWithoutExtension))
              fileList with
      | Some (c :: name) =>
          [listing;
           CallUnlink handleDeleteFile_backend
             (uri ++ js "/" ++ (c :: name))]
      | _ => [listing]
      end
  end.

Definition backendOfCall (c : StorageCall) : Backend :=
  match c with
  | CallListFiles b _ => b
  | CallReadDirectoryAsync _ => ExpoFS
  | CallUnlink b _ => b
  end.

End Screen.

End RomDetails.

(** ** The settings screen: [loadConcurrentDownloadsSetting] *)

Module Settings.

(** [StrWhiteSpaceChar]: white space and line terminators. *)
Definition isStrWhiteSpaceChar (c : N) : bool :=
  existsb (N.eqb c)
    [0x9; 0xA; 0xB; 0xC; 0xD; 0x20; 0xA0; 0x1680;
     0x2000; 0x2001; 0x2002; 0x2003; 0x2004; 0x2005; 0x2006; 0x2007;
     0x2008; 0x2009; 0x200A; 0x2028; 0x2029; 0x202F; 0x205F; 0x3000;
     0xFEFF]%N.

Fixpoint trimStart (s : JSString) : JSString :=
  match s with
  | [] => []
  | c :: rest => if isStrWhiteSpaceChar c then trimStart rest else s
  end.

(** The value of a decimal digit, if the code unit is one. *)
Definition digitValue (c : N) : option Z :=
  if (48 <=? c)%N && (c <=? 57)%N then Some (Z.of_N c - 48) else None.

(** The values of the longest prefix of decimal digits. *)
Fixpoint leadingDigits (s : JSString) : list Z :=
  match s with
  | [] => []
  | c :: rest =>
      match digitValue c with
      | Some d => d :: leadingDigits rest
      | None => []
      end
  end.

Definition mathInt (ds : list Z) : Z :=
  fold_left (fun acc d => acc * 10 + d) ds 0.

(** [parseInt(value, 10)]; [None] is [NaN].  The number is kept as the
    integer the digits denote: the caller only compares it with 1 and 5,
    which rounding to a double cannot change, and keeps it only when it
    lies between them. *)
Definition parseInt10 (value : JSString) : option Z :=
  let inputString := trimStart value in
  let '(sign, digits) :=
    match inputString with
    | 45%N :: rest => (-1, rest)
    | 43%N :: rest => (1, rest)
    | _ => (1, inputString)
    end in
  match leadingDigits digits with
  | [] => None
  | ds => Some (sign * mathInt ds)
  end.

(** [loadConcurrentDownloadsSetting]: the value handed to
    [setConcurrentDownloads], given what
    [AsyncStorage.getItem('concurrentDownloads')] answered. *)
Definition loadConcurrentDownloadsSetting
    (stored : Outcome (option JSString)) : Z :=
  match stored with
  | Returned (Some value) =>
      match parseInt10 value with
      | Some numValue =>
          if (1 <=? numValue) && (numValue <=? 5) then numValue else 2
      | None => 2
      end
  | Returned None => 2
  | Threw _ => 2
  end.

End Settings.

(** ** The downloads screen: [formatTime] *)

Module Downloads.

(** A JavaScript Number is an IEEE 754 binary64 value: a [spec_float] in
    canonical form for 53 bits of precision ([valid_binary prec emax]).
    The literals below are canonical. *)
Abbreviation Number := spec_float.

Definition prec : Z := 53.
Definition emax : Z := 1024.

(** The Number of an integer literal. *)
Definition ofZ (z : Z) : Number := binary_normalize prec emax z 0 false.

Definition zero : Number := S754_zero false.

(** [isFinite(x)] *)
Definition isFinite (x : Number) : bool :=
  match x with
  | S754_zero _ | S754_finite _ _ _ => true
  | S754_infinity _ | S754_nan => false
  end.

(** [x / y] *)
Definition div (x y : Number) : Number := SFdiv prec emax x y.

(** [Math.floor(x)]: the greatest integer not above [x]; zeros, infinities
    and NaN are returned as they are. *)
Definition floor (x : Number) : Number :=
  match x with
  | S754_finite s m e =>
      if 0 <=? e then x
      else binary_normalize prec emax
             (Z.shiftr (cond_Zopp s (Z.pos m)) (- e)) 0 false
  | _ => x
  end.

(** [n % d]: the exact remainder of the truncating division, with the sign
    of the dividend. *)
Definition remainder (n d : Number) : Number :=
  match n, d with
  | S754_nan, _ => S754_nan
  | _, S754_nan => S754_nan
  | S754_infinity _, _ => S754_nan
  | _, S754_infinity _ => n
  | _, S754_zero _ => S754_nan
  | S754_zero _, _ => n
  | S754_finite sn mn en, S754_finite _ md ed =>
      let e := Z.min en ed in
      let r := (Z.pos mn * 2 ^ (en - e)) mod (Z.pos md * 2 ^ (ed - e)) in
      if r =? 0 then S754_zero sn
      else binary_normalize prec emax (cond_Zopp sn r) e false
  end.

(** [x > y] *)
Definition gt (x y : Number) : bool := SFltb y x.

(** [x === y] on Numbers *)
Definition strictEq (x y : Number) : bool := SFeqb x y.

(** The integer an integral Number stands for. *)
Definition integerValue (x : Number) : option Z :=
  match x with
  | S754_zero _ => Some 0
  | S754_finite s m e =>
      if 0 <=? e then Some (cond_Zopp s (Z.pos m * 2 ^ e))
      else if Z.pos m mod 2 ^ (- e) =? 0
           then Some (cond_Zopp s (Z.pos m / 2 ^ (- e)))
           else None
  | _ => None
  end.

Fixpoint decimalDigits (fuel : nat) (n : Z) (acc : JSString) : JSString :=
  match fuel with
  | O => acc
  | S fuel' =>
      let acc' := (Z.to_N (48 + n mod 10)) :: acc in
      if n <? 10 then acc' else decimalDigits fuel' (n / 10) acc'
  end.

Definition decimalString (z : Z) : JSString :=
  if z <? 0
  then 45%N :: decimalDigits (Z.to_nat (Z.log2 (- z)) + 1) (- z) []
  else decimalDigits (Z.to_nat (Z.log2 z) + 1) z [].

(** [Number::toString] on the integral Numbers below 10^21 in magnitude,
    the only ones [formatTime] is run on below; any other Number is left
    unrendered here. *)
Definition integralToString (x : Number) : JSString :=
  match integerValue x with
  | Some z => decimalString z
  | None => []
  end.

Section FormatTime.

(** The host's [Number::toString], as used by a template literal. *)
Variable numberToString : Number -> JSString.

Definition indeterminate (seconds : Number) : bool :=
  strictEq seconds zero || negb (isFinite seconds) || gt seconds (ofZ 86400).

Definition hoursOf (seconds : Number) : Number :=
  floor (div seconds (ofZ 3600)).

Definition minutesOf (seconds : Number) : Number :=
  floor (div (remainder seconds (ofZ 3600)) (ofZ 60)).

Definition secsOf (seconds : Number) : Number :=
  floor (remainder seconds (ofZ 60)).

Definition formatTime (seconds : Number) : JSString :=
  if indeterminate seconds then js "--"
  else
    let hours := hoursOf seconds in
    let minutes := minutesOf seconds in
    let secs := secsOf seconds in
    if gt hours zero
    then numberToString hours ++ js "h " ++ numberToString minutes ++ js "m"
    else if gt minutes zero
    then numberToString minutes ++ js "m " ++ numberToString secs ++ js "s"
    else numberToString secs ++ js "s".

End FormatTime.

End Downloads.

(** ** The download queue manager and its scheduler

    The source of the download context is not among the files at hand, so
    this module follows the specification (sections 4.1 to 4.3, 5 and 6). *)

Module DownloadQueue.

(** Modelled from the spec: the status enumeration of the state machine
    (section 4.3); the download context that declares it is missing. *)
Inductive Status : Type :=
| PENDING | DOWNLOADING | EXTRACTING | MOVING
| PAUSED | COMPLETED | FAILED | CANCELLED.

(** Modelled from the spec: the ACTIVE statuses,
    DOWNLOADING, EXTRACTING and MOVING (section 4.1). *)
Definition isActive (st : Status) : bool :=
  match st with
  | DOWNLOADING | EXTRACTING | MOVING => true
  | _ => false
  end.

(** Modelled from the spec: the status PENDING, in which the enqueue of the
    missing download context creates an item. *)
Definition isPending (st : Status) : bool :=
  match st with PENDING => true | _ => false end.

(** Modelled from the spec: a download item (section 3), with the fields
    the queue manager itself reads or resets. *)
Record DownloadItem : Type := {
  itemId : nat;
  fileId : Z;
  status : Status;
  progress : Z;
  downloadedBytes : Z;
  totalBytes : Z;
  error : option JSString
}.

(** Modelled from the spec: a change of status of the missing download
    context, all other fields kept. *)
Definition withStatus (st : Status) (it : DownloadItem) : DownloadItem :=
  {| itemId := itemId it; fileId := fileId it; status := st;
     progress := progress it; downloadedBytes := downloadedBytes it;
     totalBytes := totalBytes it; error := error it |}.

(** Modelled from the spec: the queue manager's collection, oldest item
    first, and the configuration value it reads at each scheduler tick. *)
Record Queue : Type := {
  items : list DownloadItem;
  nextId : nat;
  maxConcurrentDownloads : Z
}.

(** Modelled from the spec: the missing download context republishes its
    collection after a mutation. *)
Definition withItems (q : Queue) (l : list DownloadItem) : Queue :=
  {| items := l; nextId := nextId q;
     maxConcurrentDownloads := maxConcurrentDownloads q |}.

(** Modelled from the spec: the missing download context starts with no
    item (the collection is rebuilt per session). *)
Definition initialQueue (maxConcurrent : Z) : Queue :=
  {| items := []; nextId := O; maxConcurrentDownloads := maxConcurrent |}.

(** Modelled from the spec: "counts items in any ACTIVE state", as the
    scheduler of the missing download context does. *)
Definition activeCount (l : list DownloadItem) : nat :=
  length (List.filter (fun it => isActive (status it)) l).

(** Modelled from the spec: the number of PENDING items of the missing
    download context. *)
Definition pendingCount (l : list DownloadItem) : nat :=
  length (List.filter (fun it => isPending (status it)) l).

(** Modelled from the spec: "promote the oldest PENDING item to
    DOWNLOADING"; [None] when no item is PENDING. *)
Fixpoint promoteOldestPending (l : list DownloadItem)
  : option (list DownloadItem) :=
  match l with
  | [] => None
  | it :: rest =>
      if isPending (status it)
      then Some (withStatus DOWNLOADING it :: rest)
      else match promoteOldestPending rest with
           | Some rest' => Some (it :: rest')
           | None => None
           end
  end.

(** Modelled from the spec: the loop of the scheduler tick, "while
    active-count < maxConcurrent and a PENDING item exists". *)
Fixpoint tickLoop (fuel : nat) (maxConcurrent : Z) (l : list DownloadItem)
  : list DownloadItem :=
  match fuel with
  | O => l
  | S fuel' =>
      if Z.of_nat (activeCount l) <? maxConcurrent
      then match promoteOldestPending l with
           | Some l' => tickLoop fuel' maxConcurrent l'
           | None => l
           end
      else l
  end.

(** Modelled from the spec: the scheduler tick.  Every round of the loop
    uses up one PENDING item, so as many rounds as there are items do. *)
Definition schedulerTick (q : Queue) : Queue :=
  withItems q (tickLoop (length (items q)) (maxConcurrentDownloads q) (items q)).

(** Modelled from the spec: the two validation errors of the commands of
    the missing download context (section 7). *)
Inductive QueueError : Type :=
| AlreadyQueuedError
| InvalidTransitionError.

(** Modelled from the spec: a transition of the item [i], valid only from
    the statuses [from]; anything else is an invalid transition and
    changes nothing. *)
Fixpoint transition (i : nat) (from : Status -> bool)
    (f : DownloadItem -> DownloadItem) (l : list DownloadItem)
  : option (list DownloadItem) :=
  match l with
  | [] => None
  | it :: rest =>
      if Nat.eqb (itemId it) i
      then if from (status it) then Some (f it :: rest) else None
      else match transition i from f rest with
           | Some rest' => Some (it :: rest')
           | None => None
           end
  end.

(** Modelled from the spec: [retryDownload] of the missing download
    context "resets progress/error/bytes fields, transitions to PENDING". *)
Definition resetForRetry (it : DownloadItem) : DownloadItem :=
  {| itemId := itemId it; fileId := fileId it; status := PENDING;
     progress := 0; downloadedBytes := 0; totalBytes := 0; error := None |}.

(** Modelled from the spec: a failed step of the missing transfer worker
    records its message and moves the item to FAILED. *)
Definition failWith (msg : JSString) (it : DownloadItem) : DownloadItem :=
  {| itemId := itemId it; fileId := fileId it; status := FAILED;
     progress := progress it; downloadedBytes := downloadedBytes it;
     totalBytes := totalBytes it; error := Some msg |}.

(** Modelled from the spec: the commands of the user interface
    (section 4.1), the reports of a transfer worker (sections 4.2, 4.3)
    and a change of the configured cap (sections 5 and 6). *)
Inductive Event : Type :=
| Enqueue (file : Z)
| Pause (i : nat)
| Resume (i : nat)
| Cancel (i : nat)
| RetryDownload (i : nat)
| RemoveFromQueue (i : nat)
| ClearCompleted
| ClearFailed
| TransferSucceeded (i : nat) (extract : bool)
| ExtractionSucceeded (i : nat)
| PlacementSucceeded (i : nat)
| StepFailed (i : nat) (message : JSString)
| SetMaxConcurrentDownloads (n : Z).

(** Modelled from the spec: membership in the set of statuses a command of
    the missing download context is valid from. *)
Definition statusIn (sts : list Status) (st : Status) : bool :=
  existsb (fun s => match s, st with
                    | PENDING, PENDING | DOWNLOADING, DOWNLOADING
                    | EXTRACTING, EXTRACTING | MOVING, MOVING
                    | PAUSED, PAUSED | COMPLETED, COMPLETED
                    | FAILED, FAILED | CANCELLED, CANCELLED => true
                    | _, _ => false
                    end) sts.

(** Modelled from the spec: the guard of enqueue in the missing download
    context, "an item for the same file id is already PENDING or ACTIVE". *)
Definition alreadyQueued (file : Z) (l : list DownloadItem) : bool :=
  existsb (fun it => Z.eqb (fileId it) file
                     && (isPending (status it) || isActive (status it))) l.

(** Modelled from the spec: a command of the missing download context
    whose transition is invalid is a no-op that reports the error. *)
Definition attempt (q : Queue) (r : option (list DownloadItem))
  : Queue * option QueueError :=
  match r with
  | Some l => (withItems q l, None)
  | None => (q, Some InvalidTransitionError)
  end.

(** Modelled from the spec: what an event does to the collection, before
    the scheduler looks at it again. *)
Definition apply (ev : Event) (q : Queue) : Queue * option QueueError :=
  match ev with
  | Enqueue file =>
      if alreadyQueued file (items q) then (q, Some AlreadyQueuedError)
      else
        ({| items := items q ++
              [{| itemId := nextId q; fileId := file; status := PENDING;
                  progress := 0; downloadedBytes := 0; totalBytes := 0;
                  error := None |}];
            nextId := S (nextId q);
            maxConcurrentDownloads := maxConcurrentDownloads q |}, None)
  | Pause i =>
      attempt q (transition i (statusIn [DOWNLOADING])
                   (fun it =>
                      {| itemId := itemId it; fileId := fileId it;
                         status := PAUSED; progress := 0;
                         downloadedBytes := 0; totalBytes := totalBytes it;
                         error := error it |})
                   (items q))
  | Resume i =>
      attempt q (transition i (statusIn [PAUSED]) (withStatus PENDING) (items q))
  | Cancel i =>
      attempt q (transition i
                   (statusIn [PENDING; DOWNLOADING; PAUSED; EXTRACTING; MOVING])
                   (withStatus CANCELLED) (items q))
  | RetryDownload i =>
      attempt q (transition i (statusIn [FAILED; CANCELLED]) resetForRetry
                   (items q))
  | RemoveFromQueue i =>
      (withItems q (List.filter (fun it => negb (Nat.eqb (itemId it) i)) (items q)),
       None)
  | ClearCompleted =>
      (withItems q
         (List.filter (fun it => negb (statusIn [COMPLETED] (status it))) (items q)),
       None)
  | ClearFailed =>
      (withItems q
         (List.filter (fun it => negb (statusIn [FAILED; CANCELLED] (status it)))
            (items q)),
       None)
  | TransferSucceeded i extract =>
      attempt q (transition i (statusIn [DOWNLOADING])
                   (withStatus (if extract then EXTRACTING else MOVING))
                   (items q))
  | ExtractionSucceeded i =>
      attempt q (transition i (statusIn [EXTRACTING]) (withStatus MOVING) (items q))
  | PlacementSucceeded i =>
      attempt q (transition i (statusIn [MOVING]) (withStatus COMPLETED) (items q))
  | StepFailed i message =>
      attempt q (transition i (statusIn [DOWNLOADING; EXTRACTING; MOVING])
                   (failWith message) (items q))
  | SetMaxConcurrentDownloads n =>
      if (1 <=? n) && (n <=? 5)
      then ({| items := items q; nextId := nextId q;
               maxConcurrentDownloads := n |}, None)
      else (q, None)
  end.

(** Modelled from the spec: the scheduler tick runs after every enqueue
    and every state transition; a change of the cap only takes effect at
    the next tick and triggers none. *)
Definition exec (ev : Event) (q : Queue) : Queue :=
  match ev with
  | SetMaxConcurrentDownloads _ => fst (apply ev q)
  | _ => schedulerTick (fst (apply ev q))
  end.

(** Modelled from the spec: a sequence of events of the missing download
    context, each atomic with respect to the event loop (section 5). *)
Definition run (evs : list Event) (q : Queue) : Queue :=
  fold_left (fun q ev => exec ev q) evs q.

(** Modelled from the spec: the states the queue can be in, starting empty
    with a configured cap between 1 and 5. *)
Inductive Reachable : Queue -> Prop :=
| reach_start (maxConcurrent : Z) :
    1 <= maxConcurrent <= 5 -> Reachable (initialQueue maxConcurrent)
| reach_exec (ev : Event) (q : Queue) :
    Reachable q -> Reachable (exec ev q).

(** Modelled from the spec: an event that lowers the configured cap of the
    missing download context. *)
Definition lowersCap (ev : Event) (q : Queue) : bool :=
  match ev with
  | SetMaxConcurrentDownloads n =>
      (1 <=? n) && (n <=? 5) && (n <? maxConcurrentDownloads q)
  | _ => false
  end.

(** Modelled from the spec: the states the missing download context
    reaches without the cap ever being lowered. *)
Inductive ReachableSteadily : Queue -> Prop :=
| steadily_initial (maxConcurrent : Z) :
    1 <= maxConcurrent <= 5 -> ReachableSteadily (initialQueue maxConcurrent)
| steadily_exec (ev : Event) (q : Queue) :
    ReachableSteadily q -> lowersCap ev q = false ->
    ReachableSteadily (exec ev q).

(** Modelled from the spec: "count(status in ACTIVE) <=
    maxConcurrentDownloads" for the missing download context. *)
Definition underCap (q : Queue) : Prop :=
  Z.of_nat (activeCount (items q)) <= maxConcurrentDownloads q.

End DownloadQueue.

(** ** Sample devices, files and folders *)

Module Sample.

Definition phone : Platform := {| OS := android; isTV := false |}.
Definition androidTV : Platform := {| OS := android; isTV := true |}.
Definition iPhone : Platform := {| OS := ios; isTV := false |}.

(** Two files of one ROM. *)
Definition discOne : RomFile :=
  {| id := 1; rom_id := 7; file_name := js "game (disc 1).zip";
     file_extension := js "zip"; file_path := js "psx/game";
     file_size_bytes := 1024 |}.

Definition discTwo : RomFile :=
  {| id := 2; rom_id := 7; file_name := js "game (disc 2).zip";
     file_extension := js "zip"; file_path := js "psx/game";
     file_size_bytes := 2048 |}.

(** A file whose base name has a dot in it. *)
Definition patched : RomFile :=
  {| id := 3; rom_id := 8; file_name := js "rom.v1.zip";
     file_extension := js "zip"; file_path := js "psx";
     file_size_bytes := 512 |}.

Definition psxFolder : PlatformFolder :=
  {| platformSlug := js "psx"; platformName := js "PlayStation";
     folderUri := Some (js "content://roms/psx"); folderName := js "psx" |}.

(** A folder that holds the first disc only. *)
Definition discOneOnly (b : Backend) (uri : JSString)
  : Outcome (list JSString) :=
  Returned [js "game (disc 1).bin"].

(** A folder that holds the extracted directory [rom.v1]. *)
Definition extractedPatched (b : Backend) (uri : JSString)
  : Outcome (list JSString) :=
  Returned [js "rom.v1"].

(** A folder whose listing is refused. *)
Definition denied (b : Backend) (uri : JSString) : Outcome (list JSString) :=
  Threw (IOError (js "permission denied")).

Definition discOnePresent : HookState :=
  {| fileChecks := {[ 7 := true ]}; checking := ∅ |}.

(** What [FileSystem.readDirectoryAsync] answers for the folder that holds
    the first disc only. *)
Definition discOneNames (uri : JSString) : Outcome (list JSString) :=
  Returned [js "game (disc 1).bin"].

End Sample.

(** Projections of a run whose three components are known. *)
Ltac run_simpl := unfold final, trace, outcome in *; simpl in *.

From Stdlib Require Import Sorted.

(** ** ROM records of the API and the library screens *)

Module Api.

(** A ROM as the server returns it, with the fields the screens read. *)
Record Rom : Type := {
  id : Z;
  platform_name : JSString;
  platform_slug : JSString;
  fs_name : JSString;
  files : list RomFile
}.

End Api.

Module Library.

(** [rom.files[0]] *)
Definition firstFile (rom : Api.Rom) : option RomFile := head (Api.files rom).

(** [getDownloadedVersionsCount] of a ROM card, on the cells as rendered:
    [rom.files.filter((file) => isRomDownloaded(file)).length]. *)
Definition getDownloadedVersionsCount (render : HookState) (rom : Api.Rom)
  : nat :=
  if Nat.eqb (length (Api.files rom)) 0 then O
  else length (List.filter (isRomDownloaded render) (Api.files rom)).

(** [isAnyVersionChecking] of a ROM card:
    [rom.files.some((file) => isCheckingRom(file))]. *)
Definition isAnyVersionChecking (render : HookState) (rom : Api.Rom) : bool :=
  if Nat.eqb (length (Api.files rom)) 0 then false
  else existsb (isCheckingRom render) (Api.files rom).

(** [resetRomsCheck] on an array that may hold [undefined] (the first file
    of a ROM without files).  [forEach] hands two updaters to React for
    every element and completes: [romFile.rom_id] is read inside the
    updaters, when React runs them, so the call itself never raises.  The
    updaters of an [undefined] element raise inside React, at the next
    render; they store nothing, and the cells here are those the other
    updaters give. *)
Fixpoint resetRomsCheckAny (romsFiles : list (option RomFile)) : Hook unit :=
  match romsFiles with
  | [] => ret tt
  | None :: rest => resetRomsCheckAny rest
  | Some romFile :: rest =>
      (setFileChecks (rom_id romFile) false ;;;
       setChecking (rom_id romFile) false ;;;
       resetRomsCheckAny rest)%hook
  end.

(** The first of two outcomes that is a failure, as [Promise.all] reports
    it. *)
Definition firstFailure (o1 o2 : Outcome unit) : Outcome unit :=
  match o1 with
  | Threw e => Threw e
  | Returned _ => o2
  end.

Section HomeScreen.

Variable platform : Platform.
Variable listDirectory : Backend -> JSString -> Outcome (list JSString).

(** What [searchPlatformFolder] answers for the platform of a ROM. *)
Variable searchPlatformFolder : Api.Rom -> Outcome (option PlatformFolder).

(** The second half of [loadRecentRoms]: for every ROM, in the order of the
    array, look the folder up and, when there is one, start
    [refreshRomCheck] on the first file.  The refresh is not awaited, so
    what it raises is dropped; a failing folder lookup fails the whole
    [Promise.all] without stopping the other ROMs. *)
Fixpoint refreshRecent (render : HookState) (roms : list Api.Rom)
  : Hook unit :=
  match roms with
  | [] => ret tt
  | rom :: rest =>
      fun s =>
        let '(o1, s1, t1) :=
          match searchPlatformFolder rom with
          | Threw e => (Threw e, s, [])
          | Returned None => (Returned tt, s, [])
          | Returned (Some platformFolder) =>
              let r := refreshRomCheck platform listDirectory render
                         (firstFile rom) (Some platformFolder) s in
              (Returned tt, final r, trace r)
          end in
        let '(o2, s2, t2) := refreshRecent render rest s1 in
        (firstFailure o1 o2, s2, t1 ++ t2)
  end.

(** [loadRecentRoms(needResetRom)], after the fetch: [recentlyAddedRoms]
    and the callbacks of the hook are those of the render that created the
    function. *)
Definition loadRecentRoms (render : HookState) (needResetRom : bool)
    (recentlyAddedRoms : list Api.Rom) : Hook unit :=
  if Nat.ltb 0 (length recentlyAddedRoms)
  then
    ((if needResetRom
      then resetRomsCheckAny (List.map firstFile recentlyAddedRoms)
      else ret tt) ;;;
     refreshRecent render recentlyAddedRoms)%hook
  else ret tt.

End HomeScreen.

End Library.

(** ** More sample data *)

Module Cases.

(** A ROM with the two discs as its files. *)
Definition twoDiscs : Api.Rom :=
  {| Api.id := 7; Api.platform_name := js "PlayStation";
     Api.platform_slug := js "psx"; Api.fs_name := js "game";
     Api.files := [Sample.discOne; Sample.discTwo] |}.

Definition patchedRom : Api.Rom :=
  {| Api.id := 8; Api.platform_name := js "PlayStation";
     Api.platform_slug := js "psx"; Api.fs_name := js "rom.v1.zip";
     Api.files := [Sample.patched] |}.

(** Every platform has the sample folder. *)
Definition psxFolderFor (rom : Api.Rom) : Outcome (option PlatformFolder) :=
  Returned (Some Sample.psxFolder).

(** A folder that holds a disc image and its cue sheet. *)
Definition binAndCue (b : Backend) (uri : JSString)
  : Outcome (list JSString) :=
  Returned [js "game (disc 1).bin"; js "game (disc 1).cue"].

End Cases.

(** ** The concurrent downloads setting, saved and loaded *)

Module SettingsStore.

(** [Number.isSafeInteger(value)]: an integer below 2^53 in magnitude. *)
Definition isSafeInteger (value : Z) : bool :=
  Z.abs value <=? 2 ^ 53 - 1.

(** [value.toString()] of a safe integer: its decimal digits, in full.
    (Integral Numbers beyond are written with rounded digits and, from
    10^21 on, in exponent form; they are outside this definition.) *)
Definition integerToString (value : Z) : JSString :=
  Downloads.decimalString value.

(** [saveConcurrentDownloadsSetting(value)]: what is stored under
    ['concurrentDownloads'] and what the screen shows afterwards, given
    what was stored and shown before and whether [AsyncStorage.setItem]
    succeeds. *)
Definition saveConcurrentDownloadsSetting (value : Z) (setItemSucceeds : bool)
    (stored : option JSString) (concurrentDownloads : Z)
  : option JSString * Z :=
  if setItemSucceeds
  then (Some (integerToString value), value)
  else (stored, concurrentDownloads).

(** The options of the picker: [[1, 2, 3, 4, 5]]. *)
Definition pickerOptions : list Z := [1; 2; 3; 4; 5].

End SettingsStore.

(** ** The grids of ROM cards *)

Module Grid.

(** An item of the grid: a ROM, or the filler [{ id: `empty-${i}`,
    isEmpty: true }]. *)
Inductive GridItem : Type :=
| RomItem (rom : Api.Rom)
| EmptyItem (i : Z).

(** The fillers pushed by [for (let i = 0; i < emptyItems; i++)]. *)
Definition emptyItems (n : Z) : list GridItem :=
  List.map (fun i => EmptyItem (Z.of_nat i)) (seq 0 (Z.to_nat n)).

(** [prepareGridData(data)] for an integral number of [columns].  With
    zero columns the remainder is [NaN], which is not [=== 0] and bounds no
    loop. *)
Definition prepareGridData (columns : Z) (data : list Api.Rom)
  : list GridItem :=
  let totalItems := Z.of_nat (length data) in
  if columns =? 0 then List.map RomItem data
  else
    let remainder := Z.rem totalItems columns in
    if remainder =? 0 then List.map RomItem data
    else List.map RomItem data ++ emptyItems (columns - remainder).

End Grid.

(** ** The ROM details screen: the selected file and the processed
       downloads *)

Module Details.

(** [getSelectedFile()]: [rom.files[selectedFileIndex] || rom.files[0]],
    and [undefined] without a ROM or without files. *)
Definition getSelectedFile (rom : option Api.Rom) (selectedFileIndex : Z)
  : option RomFile :=
  match rom with
  | None => None
  | Some rom =>
      if Nat.eqb (length (Api.files rom)) 0 then None
      else
        match (if 0 <=? selectedFileIndex
               then Api.files rom !! Z.to_nat selectedFileIndex
               else None) with
        | Some romFile => Some romFile
        | None => head (Api.files rom)
        end
  end.

(** What the screen reads of a completed download item. *)
Record CompletedDownload : Type := {
  downloadId : JSString;
  romFile : RomFile
}.

(** The effect that listens for completed downloads, up to the refresh it
    starts: the downloads it takes as new, and the set of processed ids it
    leaves in [processedDownloadsRef]. *)
Definition processCompleted (rom : option Api.Rom) (selectedFileIndex : Z)
    (completedDownloads : list CompletedDownload)
    (processed : gset JSString)
  : list CompletedDownload * gset JSString :=
  match rom with
  | None => ([], processed)
  | Some _ =>
      if Nat.ltb 0 (length completedDownloads)
      then
        match getSelectedFile rom selectedFileIndex with
        | None => ([], processed)
        | Some currentRomFile =>
            let newCompletedDownloads :=
              List.filter
                (fun download =>
                   Z.eqb (rom_id (romFile download)) (rom_id currentRomFile)
                   && negb (bool_decide (downloadId download ∈ processed)))
                completedDownloads in
            (newCompletedDownloads,
             fold_left (fun set download => {[ downloadId download ]} ∪ set)
                       newCompletedDownloads processed)
        end
      else ([], processed)
  end.

(** The set a mounted screen starts with: [useRef(new Set())]. *)
Definition mounted : gset JSString := ∅.

(** The effect on the route parameter [id]:
    [if (id) { processedDownloadsRef.current.clear(); ... }], run when the
    screen mounts and whenever [id] changes. *)
Definition onRomChange (id : option JSString) (processed : gset JSString)
  : gset JSString :=
  match id with
  | Some (_ :: _) => ∅
  | _ => processed
  end.

End Details.

(** ** The downloads screen: the order of the list *)

Module DownloadList.

(** The table [statusPriority] of the comparator. *)
Definition statusPriority (st : DownloadQueue.Status) : Z :=
  match st with
  | DownloadQueue.DOWNLOADING => 1
  | DownloadQueue.EXTRACTING => 2
  | DownloadQueue.MOVING => 3
  | DownloadQueue.PENDING => 4
  | DownloadQueue.PAUSED => 5
  | DownloadQueue.FAILED => 6
  | DownloadQueue.CANCELLED => 6
  | DownloadQueue.COMPLETED => 7
  end.

Section Order.

(** A download item, of which the comparator reads the status and the
    start time ([startTime?.getTime()], in milliseconds, when there is
    one). *)
Variable Item : Type.
Variable status : Item -> DownloadQueue.Status.
Variable startTime : Item -> option Z.

(** [x || 6] on a priority, [x || 0] on a time. *)
Definition orElse (x fallback : Z) : Z := if x =? 0 then fallback else x.

(** The comparator handed to [downloads.sort]. *)
Definition compareDownloads (a b : Item) : Z :=
  let priorityA := orElse (statusPriority (status a)) 6 in
  let priorityB := orElse (statusPriority (status b)) 6 in
  if priorityA =? priorityB
  then
    let timeA := orElse (default 0 (startTime a)) 0 in
    let timeB := orElse (default 0 (startTime b)) 0 in
    timeB - timeA
  else priorityA - priorityB.

(** [Array.prototype.sort] with a comparator: a stable sort. *)
Fixpoint insertSorted (a : Item) (l : list Item) : list Item :=
  match l with
  | [] => [a]
  | b :: rest =>
      if compareDownloads a b <=? 0 then a :: l
      else b :: insertSorted a rest
  end.

Definition sortDownloads (l : list Item) : list Item :=
  fold_right insertSorted [] l.

End Order.

End DownloadList.

(** ** The base URL of the API client *)

Module ApiUrl.

(** [url.replace(/\/$/, '')]: a slash at the very end is removed. *)
Fixpoint dropTrailingSlash (url : JSString) : JSString :=
  match url with
  | [] => []
  | c :: rest =>
      if N.eqb c slash && Nat.eqb (length rest) 0 then []
      else c :: dropTrailingSlash rest
  end.

(** [updateBaseUrl(newUrl)]: the new [baseUrl]. *)
Definition updateBaseUrl (newUrl : JSString) : JSString :=
  dropTrailingSlash newUrl.

(** The URL that [request(endpoint)] fetches. *)
Definition requestUrl (baseUrl endpoint : JSString) : JSString :=
  baseUrl ++ endpoint.

End ApiUrl.

(** ** The API client: credentials, session and requests *)

Module ApiClient.

Record LoginCredentials : Type := {
  username : JSString;
  password : JSString
}.

(** The fields of the client, and the secure store of the device. *)
Record Client : Type := {
  baseUrl : JSString;
  credentials : option LoginCredentials;
  credentialsLoaded : bool;
  isSessionValid : bool;
  secureStore : gmap JSString JSString
}.

Definition withCredentials (c : Client) (cr : option LoginCredentials)
  : Client :=
  {| baseUrl := baseUrl c; credentials := cr;
     credentialsLoaded := credentialsLoaded c;
     isSessionValid := isSessionValid c; secureStore := secureStore c |}.

Definition withSessionValid (c : Client) (v : bool) : Client :=
  {| baseUrl := baseUrl c; credentials := credentials c;
     credentialsLoaded := credentialsLoaded c;
     isSessionValid := v; secureStore := secureStore c |}.

Definition withStore (c : Client) (st : gmap JSString JSString) : Client :=
  {| baseUrl := baseUrl c; credentials := credentials c;
     credentialsLoaded := credentialsLoaded c;
     isSessionValid := isSessionValid c; secureStore := st |}.

(** Which of the two calls on the secure store, the one for ['username']
    and the one for ['password'], succeed. *)
Record StoreCalls : Type := { usernameCall : bool; passwordCall : bool }.

(** Both calls succeed. *)
Definition bothSucceed : StoreCalls :=
  {| usernameCall := true; passwordCall := true |}.

Definition truthy (s : JSString) : bool := negb (Nat.eqb (length s) 0).

(** [loadCredentialsFromStorage()]: both items are read; credentials are
    set when both are non-empty strings; whatever happens the client is
    marked as loaded. *)
Definition loadCredentialsFromStorage (calls : StoreCalls) (c : Client)
  : Client :=
  let loaded :=
    if usernameCall calls && passwordCall calls
    then
      match secureStore c !! js "username", secureStore c !! js "password" with
      | Some u, Some p =>
          if truthy u && truthy p
          then withCredentials c (Some {| username := u; password := p |})
          else c
      | _, _ => c
      end
    else c in
  {| baseUrl := baseUrl loaded; credentials := credentials loaded;
     credentialsLoaded := true; isSessionValid := isSessionValid loaded;
     secureStore := secureStore loaded |}.

(** [saveCredentialsToStorage(credentials)]: the items whose write succeeds
    are stored; the credentials are kept in memory when both succeed. *)
Definition saveCredentialsToStorage (calls : StoreCalls)
    (cr : LoginCredentials) (c : Client) : Client :=
  let st1 := if usernameCall calls
             then <[js "username" := username cr]> (secureStore c)
             else secureStore c in
  let st2 := if passwordCall calls
             then <[js "password" := password cr]> st1
             else st1 in
  let c' := withStore c st2 in
  if usernameCall calls && passwordCall calls
  then withCredentials c' (Some cr)
  else c'.

(** [removeCredentialsFromStorage()]: the items whose deletion succeeds
    are removed; the credentials in memory are dropped when both
    succeed. *)
Definition removeCredentialsFromStorage (calls : StoreCalls) (c : Client)
  : Client :=
  let st1 := if usernameCall calls
             then delete (js "username") (secureStore c)
             else secureStore c in
  let st2 := if passwordCall calls
             then delete (js "password") st1
             else st1 in
  let c' := withStore c st2 in
  if usernameCall calls && passwordCall calls
  then withCredentials c' None
  else c'.

Definition DEFAULT_API_URL : JSString := js "http://romm:8080".

(** The client as its constructor leaves it, before the secure store has
    answered. *)
Definition constructed (store : gmap JSString JSString) : Client :=
  {| baseUrl := DEFAULT_API_URL; credentials := None;
     credentialsLoaded := false; isSessionValid := false;
     secureStore := store |}.

(** The callback of the constructor, run when the read of ['server_url']
    has succeeded: the base URL is the stored one without a trailing
    slash, or the default; then the credentials are loaded. *)
Definition onServerUrlRead (calls : StoreCalls) (c : Client) : Client :=
  let url :=
    match secureStore c !! js "server_url" with
    | Some url => if truthy url then ApiUrl.dropTrailingSlash url
                  else DEFAULT_API_URL
    | None => DEFAULT_API_URL
    end in
  loadCredentialsFromStorage calls
    {| baseUrl := url; credentials := credentials c;
       credentialsLoaded := credentialsLoaded c;
       isSessionValid := isSessionValid c; secureStore := secureStore c |}.

(** The client once the read of ['server_url'] has settled.  The promise
    of the constructor has a [then] and no rejection handler: after a
    read that failed the callback never runs and the client stays as the
    constructor left it. *)
Definition started (serverUrlRead : bool) (calls : StoreCalls)
    (store : gmap JSString JSString) : Client :=
  if serverUrlRead
  then onServerUrlRead calls (constructed store)
  else constructed store.

(** What [fetch] comes back with: a failure, or a response with its status
    and the outcome of parsing its body as JSON ([None] for a body that is
    not JSON, [falsy] for a value such as [null]). *)
Inductive JsonBody : Type :=
| falsy
| value (payload : JSString).

Inductive FetchResult : Type :=
| FetchFailed (e : JSError)
| Response (status : Z) (body : option JsonBody).

(** [response.ok] *)
Definition ok (status : Z) : bool := (200 <=? status) && (status <=? 299).

Definition unauthorized : JSError :=
  IOError (js "Unauthorized - please login again").

(** [`HTTP error! status: ${response.status}`] *)
Definition httpError (status : Z) : JSError :=
  IOError (js "HTTP error! status: " ++ Downloads.decimalString status).

Definition syntaxError : JSError := IOError (js "JSON Parse error").

(** [request(endpoint)], given what [fetch] comes back with and which
    deletions would succeed: the outcome and the client afterwards.  The
    text of a failed response, read for the log only, is taken to be
    readable. *)
Definition request (fetched : FetchResult) (deletions : StoreCalls)
    (c : Client) : Outcome JsonBody * Client :=
  match fetched with
  | FetchFailed e => (Threw e, c)
  | Response status body =>
      if negb (ok status)
      then
        if Z.rem status 400 <? 100
        then (Threw unauthorized, removeCredentialsFromStorage deletions c)
        else (Threw (httpError status), c)
      else
        match body with
        | None => (Threw syntaxError, c)
        | Some data => (Returned data, c)
        end
  end.

(** [isAuthenticated()] *)
Definition isAuthenticated (c : Client) : bool :=
  match credentials c with
  | Some _ => true
  | None => isSessionValid c
  end.

(** [logout()] *)
Definition logout (deletions : StoreCalls) (c : Client) : Client :=
  removeCredentialsFromStorage deletions c.

(** [clearAuth()] *)
Definition clearAuth (deletions : StoreCalls) (c : Client) : Client :=
  withSessionValid (removeCredentialsFromStorage deletions c) false.

(** [checkSession()]: the answer and the client afterwards. *)
Definition checkSession (fetched : FetchResult) (deletions : StoreCalls)
    (c : Client) : bool * Client :=
  match request fetched deletions c with
  | (Returned (value _), c') => (true, withSessionValid c' true)
  | (Returned falsy, c') => (false, withSessionValid c' false)
  | (Threw _, c') => (false, withSessionValid c' false)
  end.

End ApiClient.

(** ** The storage access framework hook, further *)

Module StorageAccess.

(** The two ways the hook reads a directory:
    [FileSystem.readDirectoryAsync(uri)] where the capability probe
    answers [true], [new FileSystem.Directory(uri).list()] elsewhere. *)
Inductive DirectoryApi : Type := ReadDirectoryAsync | DirectoryList.

(** An error as JavaScript raises it: the [type] property, when it has
    one, and the message. *)
Record Raised : Type := {
  errorType : option JSString;
  errorMessage : JSString
}.

Inductive Attempt (A : Type) : Type :=
| Done (a : A)
| Raise (e : Raised).
Arguments Done {A} a.
Arguments Raise {A} e.

Section Hook.

Variable platform : Platform.
Variable readDirectory : DirectoryApi -> JSString -> Outcome (list JSString).

Definition directoryApi : DirectoryApi :=
  if isSafAvailable platform then ReadDirectoryAsync else DirectoryList.

(** [readDirectoryContents(folderUri)] *)
Definition readDirectoryContents (folderUri : JSString) : list JSString :=
  match readDirectory directoryApi folderUri with
  | Returned names => names
  | Threw _ => []
  end.

(** [checkDirectoryPermissions(folderUri)] *)
Definition checkDirectoryPermissions (folderUri : JSString) : bool :=
  match readDirectory directoryApi folderUri with
  | Returned _ => true
  | Threw _ => false
  end.

(** Truthiness of [error.type]. *)
Definition hasType (e : Raised) : bool :=
  match errorType e with
  | Some (_ :: _) => true
  | _ => false
  end.

(** [requestDirectoryPermissions()], given the URI of the fallback
    directory [new FileSystem.Directory(Paths.cache, "roms")] (or what
    building it raises), what [openDocumentTree(true)] comes back with
    ([None] for no result, the [uri] property otherwise) and the two
    translated messages. *)
Definition requestDirectoryPermissions
    (fallback : Attempt JSString)
    (openDocumentTree : Attempt (option (option JSString)))
    (permissionsNotGrantedMessage errorText : JSString)
  : Attempt JSString :=
  let attempt :=
    if negb (isSafAvailable platform)
    then fallback
    else
      match openDocumentTree with
      | Raise e => Raise e
      | Done (Some (Some (c :: uri))) => Done (c :: uri)
      | Done _ =>
          Raise {| errorType := Some (js "permissions_denied");
                   errorMessage := permissionsNotGrantedMessage |}
      end in
  match attempt with
  | Done uri => Done uri
  | Raise e =>
      if hasType e then Raise e
      else Raise {| errorType := Some (js "request_failed");
                    errorMessage := errorText |}
  end.

End Hook.

End StorageAccess.

(** ** The platform folders hook: folders kept in [AsyncStorage] *)

Module PlatformFolders.

(** A platform as the API gives it; the screens mostly build one from a
    ROM, with [name] and [slug] only, so [fs_slug] may be missing. *)
Record ApiPlatform : Type := {
  slug : JSString;
  name : JSString;
  fs_slug : option JSString
}.

(** A platform folder as it is stored.  A slug that is [undefined] is left
    out by [JSON.stringify] and is [undefined] again after [JSON.parse]. *)
Record Folder : Type := {
  platformSlug : option JSString;
  platformName : JSString;
  folderUri : JSString;
  folderName : JSString
}.

(** An item of [AsyncStorage]: a raw string, or the JSON text of a folder
    or of an array of folders, kept as the value it is the text of. *)
Inductive Stored : Type :=
| Text (s : JSString)
| FolderJson (f : Folder)
| FoldersJson (l : list Folder).

(** The storage of the device, and for each call still to come whether it
    fails, the next call first; calls beyond the list succeed. *)
Record Device : Type := {
  items : gmap JSString Stored;
  faults : list bool
}.

Definition Async (A : Type) : Type := Device -> Outcome A * Device.

Definition pure {A} (a : A) : Async A := fun d => (Returned a, d).

Definition raise {A} (e : JSError) : Async A := fun d => (Threw e, d).

Definition andThen {A B} (m : Async A) (k : A -> Async B) : Async B :=
  fun d =>
    match m d with
    | (Returned a, d1) => k a d1
    | (Threw e, d1) => (Threw e, d1)
    end.

(** [try m catch (error) h] *)
Definition catch {A} (m : Async A) (h : JSError -> Async A) : Async A :=
  fun d =>
    match m d with
    | (Returned a, d1) => (Returned a, d1)
    | (Threw e, d1) => h e d1
    end.

Declare Scope async_scope.
Delimit Scope async_scope with async.
Notation "x <- m ;; k" := (andThen m (fun x => k))
  (at level 100, m at next level, right associativity) : async_scope.
Notation "m ;;; k" := (andThen m (fun _ => k))
  (at level 100, right associativity) : async_scope.

Definition storageError : JSError := IOError (js "AsyncStorage failure").
Definition parseError : JSError := IOError (js "JSON Parse error").

(** Whether the next call fails, and the device with that call used up. *)
Definition nextCall (d : Device) : bool * Device :=
  match faults d with
  | [] => (false, d)
  | b :: rest => (b, {| items := items d; faults := rest |})
  end.

(** [AsyncStorage.getItem(key)] *)
Definition getItem (key : JSString) : Async (option Stored) :=
  fun d =>
    let '(fails, d1) := nextCall d in
    if fails then (Threw storageError, d1)
    else (Returned (items d1 !! key), d1).

(** [AsyncStorage.setItem(key, value)] *)
Definition setItem (key : JSString) (v : Stored) : Async unit :=
  fun d =>
    let '(fails, d1) := nextCall d in
    if fails then (Threw storageError, d1)
    else (Returned tt, {| items := <[key := v]> (items d1);
                          faults := faults d1 |}).

(** [AsyncStorage.removeItem(key)] *)
Definition removeItem (key : JSString) : Async unit :=
  fun d =>
    let '(fails, d1) := nextCall d in
    if fails then (Threw storageError, d1)
    else (Returned tt, {| items := delete key (items d1);
                          faults := faults d1 |}).

Definition STORAGE_KEY : JSString := js "platformFolders".
Definition STORAGE_KEY_BASE : JSString := js "platformFoldersBase".

(** A slug inside a template literal. *)
Definition slugText (platformSlug : option JSString) : JSString :=
  default (js "undefined") platformSlug.

(** [`${STORAGE_KEY}_${platformSlug}`] *)
Definition folderKey (platformSlug : option JSString) : JSString :=
  STORAGE_KEY ++ js "_" ++ slugText platformSlug.

(** Truthiness of an item that was read. *)
Definition present (v : option Stored) : option Stored :=
  match v with
  | None => None
  | Some (Text []) => None
  | Some v => Some v
  end.

(** [JSON.parse(text)] where a folder is expected.  The application stores
    nothing but the text of a folder under a folder key; a text of another
    kind is taken not to parse. *)
Definition parseFolder (v : Stored) : Async Folder :=
  match v with
  | FolderJson f => pure f
  | _ => raise parseError
  end.

(** [JSON.parse(text)] where the array of folders is expected; as above
    for a text of another kind. *)
Definition parseFolders (v : Stored) : Async (list Folder) :=
  match v with
  | FoldersJson l => pure l
  | _ => raise parseError
  end.

(** [allFolders ? JSON.parse(allFolders) : []] *)
Definition readFolders : Async (list Folder) :=
  (allFolders <- getItem STORAGE_KEY ;;
   match present allFolders with
   | Some v => parseFolders v
   | None => pure []
   end)%async.

(** [folder.platformSlug === platformSlug] *)
Definition sameSlug (platformSlug : option JSString) (folder : Folder) : bool :=
  bool_decide (platformSlug = PlatformFolders.platformSlug folder).

(** [folders[existingIndex] = newFolder] at the first folder of the slug,
    [folders.push(newFolder)] when there is none. *)
Fixpoint upsert (newFolder : Folder) (folders : list Folder) : list Folder :=
  match folders with
  | [] => [newFolder]
  | folder :: rest =>
      if sameSlug (PlatformFolders.platformSlug newFolder) folder
      then newFolder :: rest
      else folder :: upsert newFolder rest
  end.

Section Hook.

Variable platform : Platform.

(** [extractFolderNameFromUri(uri)] *)
Variable extractFolderNameFromUri : JSString -> option JSString.

(** The entries [SAF.listFiles] and [Directory.list()] answer with. *)
Record Entry : Type := {
  entryName : JSString;
  entryUri : JSString;
  isDirectory : bool
}.

Variable listEntries : Backend -> JSString -> Outcome (list Entry).

(** [FileSystem.readDirectoryAsync] and [Directory.list()], as the storage
    access hook calls them, and [FileSystem.getInfoAsync(uri)]: whether
    the path exists and whether it is a directory. *)
Variable readDirectory :
  StorageAccess.DirectoryApi -> JSString -> Outcome (list JSString).
Variable getInfo : JSString -> Outcome (bool * bool).

(** [folderName || fallback] *)
Definition nameOr (uri fallback : JSString) : JSString :=
  match extractFolderNameFromUri uri with
  | Some (c :: n) => c :: n
  | _ => fallback
  end.

(** The writes of [savePlatformFolder] and [createPlatformFolder]: the
    folder under its own key, then the array with the folder put in. *)
Definition storeFolder (newFolder : Folder) : Async Folder :=
  (setItem (folderKey (platformSlug newFolder)) (FolderJson newFolder) ;;;
   folders <- readFolders ;;
   setItem STORAGE_KEY (FoldersJson (upsert newFolder folders)) ;;;
   pure newFolder)%async.

(** [savePlatformFolder(platformSlug, platformName, folderUri)] *)
Definition savePlatformFolder (platformSlug : option JSString)
    (platformName folderUri : JSString) : Async (option Folder) :=
  catch
    (let newFolder :=
       {| platformSlug := platformSlug; platformName := platformName;
          folderUri := folderUri;
          folderName := nameOr folderUri platformName |} in
     saved <- storeFolder newFolder ;; pure (Some saved))%async
    (fun _ => pure None).

(** [removePlatformFolder(platformSlug)] *)
Definition removePlatformFolder (platformSlug : option JSString)
  : Async unit :=
  (removeItem (folderKey platformSlug) ;;;
   folders <- readFolders ;;
   let updatedFolders :=
     List.filter (fun folder => negb (sameSlug platformSlug folder)) folders in
   setItem STORAGE_KEY (FoldersJson updatedFolders))%async.

Fixpoint removeEach (folders : list Folder) : Async unit :=
  match folders with
  | [] => pure tt
  | folder :: rest =>
      (removeItem (folderKey (PlatformFolders.platformSlug folder)) ;;;
       removeEach rest)%async
  end.

(** [removeAllPlatformFolders()], up to the update of the state. *)
Definition removeAllPlatformFolders : Async unit :=
  (folders <- readFolders ;;
   removeEach folders ;;;
   removeItem STORAGE_KEY)%async.

(** [getPlatformFolder(platformSlug)] *)
Definition getPlatformFolder (platformSlug : option JSString)
  : Async (option Folder) :=
  (folder <- getItem (folderKey platformSlug) ;;
   match present folder with
   | Some v => f <- parseFolder v ;; pure (Some f)
   | None => pure None
   end)%async.

(** [hasPlatformFolder(platformSlug)] *)
Definition hasPlatformFolder (platformSlug : option JSString) : Async bool :=
  (folder <- getPlatformFolder platformSlug ;;
   pure (match folder with Some _ => true | None => false end))%async.

(** [setBaseFolder(folderUri)] *)
Definition setBaseFolder (folderUri : JSString) : Async unit :=
  setItem STORAGE_KEY_BASE (Text folderUri).

(** The string read under the base key, when it is truthy (under that key
    the application stores raw strings only). *)
Definition truthyText (v : option Stored) : option JSString :=
  match v with
  | Some (Text (c :: s)) => Some (c :: s)
  | _ => None
  end.

(** [getBaseFolder()]: [null] when the read fails. *)
Definition getBaseFolder : Async (option Stored) :=
  catch (getItem STORAGE_KEY_BASE) (fun _ => pure None).

(** [hasBaseFolder()] *)
Definition hasBaseFolder : Async bool :=
  (baseFolder <- getBaseFolder ;;
   pure (match present baseFolder with Some _ => true | None => false end))%async.

(** [removeBaseFolder()] *)
Definition removeBaseFolder : Async unit := removeItem STORAGE_KEY_BASE.

(** [fileInfo.exists && fileInfo.isDirectory], [false] when the call
    raises. *)
Definition isExistingDirectory (uri : JSString) : bool :=
  match getInfo uri with
  | Returned (exists_, isDir) => exists_ && isDir
  | Threw _ => false
  end.

(** [canAccessBaseFolder()] *)
Definition canAccessBaseFolder : Async bool :=
  (baseFolder <- getBaseFolder ;;
   match truthyText baseFolder with
   | None => pure false
   | Some uri =>
       if negb (isSafAvailable platform)
       then pure (isExistingDirectory uri)
       else
         (* [await checkDirectoryPermissions(baseFolder); return true] *)
         let _ := StorageAccess.checkDirectoryPermissions
                    platform readDirectory uri in
         pure true
   end)%async.

(** [checkPlatformFolderAccess(platformSlug)] *)
Definition checkPlatformFolderAccess (platformSlug : option JSString)
  : Async bool :=
  (folder <- getPlatformFolder platformSlug ;;
   match folder with
   | None => pure false
   | Some folder =>
       if isSafAvailable platform
       then pure (StorageAccess.checkDirectoryPermissions
                    platform readDirectory (folderUri folder))
       else pure (isExistingDirectory (folderUri folder))
   end)%async.

(** The loops of [searchPlatformFolder] over the entries of the base
    folder: the first entry named like the slug (and, outside the scoped
    back end, that is a directory). *)
Definition findEntry (wantDirectory : bool) (platformSlug : JSString)
    (entries : list Entry) : option Entry :=
  List.find
    (fun file =>
       bool_decide (entryName file = platformSlug)
       && (negb wantDirectory || isDirectory file))
    entries.

(** [searchPlatformFolder(platform)] *)
Definition searchPlatformFolder (p : ApiPlatform) : Async (option Folder) :=
  (folder <- getPlatformFolder (Some (slug p)) ;;
   match folder with
   | Some folder => pure (Some folder)
   | None =>
       baseFolder <- getItem STORAGE_KEY_BASE ;;
       match truthyText baseFolder with
       | None => pure None
       | Some base =>
           if isSafAvailable platform
           then
             match listEntries SAF base with
             | Threw e => raise e
             | Returned files =>
                 match findEntry false (slug p) files with
                 | Some file =>
                     savePlatformFolder (fs_slug p) (name p) (entryUri file)
                 | None => pure None
                 end
             end
           else
             match listEntries ExpoFS base with
             | Threw _ => pure None
             | Returned files =>
                 match findEntry true (slug p) files with
                 | Some file =>
                     savePlatformFolder (fs_slug p) (name p) (entryUri file)
                 | None => pure None
                 end
             end
       end
   end)%async.

End Hook.

(** The folder keys hold folders, the array key holds an array of folders
    and the base key holds a raw string. *)
Definition wellShaped (store : gmap JSString Stored) : Prop :=
  (forall s f, store !! folderKey s = Some f -> exists folder, f = FolderJson folder) /\
  (forall v, store !! STORAGE_KEY = Some v -> exists l, v = FoldersJson l) /\
  (forall v, store !! STORAGE_KEY_BASE = Some v -> exists t, v = Text t).

(** The array of folders in a storage. *)
Definition indexOf (store : gmap JSString Stored) : list Folder :=
  match store !! STORAGE_KEY with
  | Some (FoldersJson l) => l
  | _ => []
  end.

(** The folder stored for a slug. *)
Definition folderAt (store : gmap JSString Stored)
    (platformSlug : option JSString) : option Folder :=
  match store !! folderKey platformSlug with
  | Some (FolderJson f) => Some f
  | _ => None
  end.

(** A computation that keeps the storage well shaped, whichever calls
    fail. *)
Definition keepsShape {A} (m : Async A) : Prop :=
  forall d, wellShaped (items d) -> wellShaped (items (snd (m d))).

(** Every call of the computation succeeds. *)
Definition noFaults (d : Device) : Prop := faults d = [].

End PlatformFolders.

(** ** Sample devices and platforms *)

Module Stores.

Import PlatformFolders.

(** A device with nothing stored, all whose calls succeed. *)
Definition fresh : Device := {| items := ∅; faults := [] |}.

(** The same with a base folder set. *)
Definition withBase : Device :=
  {| items := <[STORAGE_KEY_BASE := Text (js "file:///roms")]> ∅;
     faults := [] |}.

(** A device whose second call fails. *)
Definition flaky : Device := {| items := ∅; faults := [false; true] |}.

(** No folder name can be read off a URI. *)
Definition noName (uri : JSString) : option JSString := None.

(** A platform as the screens build it from a ROM: no [fs_slug]. *)
Definition psx : ApiPlatform :=
  {| slug := js "psx"; name := js "PlayStation"; fs_slug := None |}.

Definition psxFolder : Folder :=
  {| platformSlug := Some (js "psx"); platformName := js "PlayStation";
     folderUri := js "file:///roms/psx"; folderName := js "PlayStation" |}.

Definition snesFolder : Folder :=
  {| platformSlug := Some (js "snes"); platformName := js "Super Nintendo";
     folderUri := js "file:///roms/snes"; folderName := js "snes" |}.

Definition gbaFolder : Folder :=
  {| platformSlug := Some (js "gba"); platformName := js "Game Boy Advance";
     folderUri := js "file:///roms/gba"; folderName := js "gba" |}.

(** A device with a base folder, two saved folders, both in the array, and
    a third folder under its key only, as a save whose second write failed
    leaves it. *)
Definition withFolders : Device :=
  {| items :=
       <[STORAGE_KEY := FoldersJson [psxFolder; snesFolder]]>
         (<[folderKey (Some (js "gba")) := FolderJson gbaFolder]>
            (<[folderKey (Some (js "snes")) := FolderJson snesFolder]>
               (<[folderKey (Some (js "psx")) := FolderJson psxFolder]>
                  (<[STORAGE_KEY_BASE := Text (js "file:///roms")]> ∅))));
     faults := [] |}.

(** The base folder holds one directory, named like the platform. *)
Definition baseListing (b : Backend) (uri : JSString) : Outcome (list Entry) :=
  Returned [{| entryName := js "psx"; entryUri := js "file:///roms/psx";
               isDirectory := true |}].

(** A directory that cannot be read. *)
Definition unreadable (api : StorageAccess.DirectoryApi) (uri : JSString)
  : Outcome (list JSString) :=
  Threw (IOError (js "permission denied")).

Definition noInfo (uri : JSString) : Outcome (bool * bool) :=
  Threw (IOError (js "no such file")).

End Stores.

(** * Properties *)

(** ** Strings *)

Section StringFacts.

Lemma startsWith_prefix (s sub : JSString) :
  startsWith s sub = true <-> exists post, s = sub ++ post.
Proof.
  revert s. induction sub as [|x sub IH]; intros s; simpl.
  - split; [intros _; exists s; reflexivity | reflexivity].
  - destruct s as [|y s]; simpl.
    + split; [discriminate | intros [post H]; discriminate].
    + rewrite andb_true_iff, N.eqb_eq, IH. split.
      * intros [-> [post ->]]. exists post. reflexivity.
      * intros [post H]. injection H as -> ->. split; [reflexivity | eauto].
Qed.

(** [includes] is the substring test. *)
Lemma includes_substring (s sub : JSString) :
  includes s sub = true <-> exists pre post, s = pre ++ sub ++ post.
Proof.
  induction s as [|c s IH]; simpl.
  - rewrite orb_false_r, startsWith_prefix. split.
    + intros [post H]. exists [], post. exact H.
    + intros [pre [post H]]. destruct pre; [|discriminate].
      exists post. exact H.
  - rewrite orb_true_iff, IH, startsWith_prefix. split.
    + intros [[post H] | [pre [post H]]].
      * exists [], post. exact H.
      * exists (c :: pre), post. rewrite H. reflexivity.
    + intros [pre [post H]]. destruct pre as [|p pre]; simpl in H.
      * left. exists post. exact H.
      * right. injection H as -> ->. eauto.
Qed.

(** Removing the extension leaves a prefix of the name. *)
Lemma stripExtension_prefix (s : JSString) :
  exists ext, s = stripExtension s ++ ext.
Proof.
  induction s as [|c s [ext IH]].
  - exists []. reflexivity.
  - cbn [stripExtension]. destruct (matchesExtension (c :: s)).
    + exists (c :: s). reflexivity.
    + exists ext. simpl. rewrite <- IH. reflexivity.
Qed.

(** Whatever contains a name without its extension is contained in the
    whole name too. *)
Lemma includes_stripped (entry sub : JSString) :
  includes (stripExtension entry) sub = true -> includes entry sub = true.
Proof.
  rewrite !includes_substring. intros [pre [post H]].
  destruct (stripExtension_prefix entry) as [ext Hext].
  exists pre, (post ++ ext). rewrite Hext, H.
  rewrite <- !app_assoc. reflexivity.
Qed.

End StringFacts.

(** ** The existence reconciler *)

Section ReconcilerFacts.

Variable platform : Platform.
Variable listDirectory : Backend -> JSString -> Outcome (list JSString).

Abbreviation check := (checkIfRomExists platform listDirectory).
Abbreviation backend := (if isSafAvailable platform then SAF else ExpoFS).

Lemma check_without_file pf s :
  check None pf s = (Returned false, s, []).
Proof. reflexivity. Qed.

Lemma check_without_folder f pf s :
  pf ≫= truthyUri = None ->
  check (Some f) pf s = (Returned false, s, []).
Proof. intros H. unfold checkIfRomExists. rewrite H. reflexivity. Qed.

Lemma check_listed f pf uri entries s :
  pf ≫= truthyUri = Some uri ->
  listDirectory backend uri = Returned entries ->
  let r := existsb (fun file => includes file (stripExtension (file_name f)))
                   entries in
  check (Some f) pf s =
    (Returned r, cached s (rom_id f) r,
     [ListFiles backend uri; SetFileChecks (rom_id f) r]).
Proof.
  intros Huri Hlist r. unfold checkIfRomExists. rewrite Huri.
  unfold tryCatch, bind, listFiles, setFileChecks, ret, cached.
  destruct (isSafAvailable platform); rewrite Hlist; fold r;
    destruct r; reflexivity.
Qed.

Lemma check_listing_failed f pf uri e s :
  pf ≫= truthyUri = Some uri ->
  listDirectory backend uri = Threw e ->
  check (Some f) pf s =
    (Returned false, cached s (rom_id f) false,
     [ListFiles backend uri; SetFileChecks (rom_id f) false]).
Proof.
  intros Huri Hlist. unfold checkIfRomExists. rewrite Huri.
  unfold tryCatch, bind, listFiles, setFileChecks, ret, cached.
  destruct (isSafAvailable platform); rewrite Hlist; reflexivity.
Qed.

Lemma check_cases f pf s : CheckRun platform f s (check f pf s).
Proof.
  destruct f as [f|]; [|apply check_run_skipped].
  destruct (pf ≫= truthyUri) as [uri|] eqn:Huri.
  - destruct (listDirectory backend uri) as [entries|e] eqn:Hlist.
    + rewrite (check_listed f pf uri entries s Huri Hlist).
      by eapply check_run_done.
    + rewrite (check_listing_failed f pf uri e s Huri Hlist).
      by eapply check_run_done.
  - rewrite check_without_folder by exact Huri. apply check_run_skipped.
Qed.

End ReconcilerFacts.

Section ReconcilerClaims.

Variable platform : Platform.
Variable listDirectory : Backend -> JSString -> Outcome (list JSString).

Abbreviation check := (checkIfRomExists platform listDirectory).
Abbreviation backend := (if isSafAvailable platform then SAF else ExpoFS).

Lemma truthyUri_Some pf uri :
  folderUri pf = Some uri -> uri <> [] -> truthyUri pf = Some uri.
Proof.
  intros H Hne. unfold truthyUri. rewrite H.
  destruct uri; [contradiction | reflexivity].
Qed.

Lemma truthyUri_None pf :
  folderUri pf = None \/ folderUri pf = Some [] -> truthyUri pf = None.
Proof. intros [H|H]; unfold truthyUri; rewrite H; reflexivity. Qed.

(** C9: [checkIfRomExists] always returns a boolean and never raises; it
    returns [false], touching nothing, when the file reference is missing
    or when the folder or its URI is missing; when the listing raises it
    returns [false] and records [false] for the file in the cache. *)
Theorem checkIfRomExists_total romFile platformFolder s :
  (exists b, outcome (check romFile platformFolder s) = Returned b) /\
  (romFile = None ->
   check romFile platformFolder s = (Returned false, s, [])) /\
  (platformFolder = None ->
   check romFile platformFolder s = (Returned false, s, [])) /\
  (forall pf, platformFolder = Some pf ->
     folderUri pf = None \/ folderUri pf = Some [] ->
     check romFile platformFolder s = (Returned false, s, [])) /\
  (forall f pf uri e,
     romFile = Some f -> platformFolder = Some pf ->
     folderUri pf = Some uri -> uri <> [] ->
     listDirectory backend uri = Threw e ->
     outcome (check romFile platformFolder s) = Returned false /\
     fileChecks (final (check romFile platformFolder s)) !! rom_id f
       = Some false).
Proof.
  repeat split.
  - destruct (check_cases platform listDirectory romFile platformFolder s);
      eexists; reflexivity.
  - intros ->. reflexivity.
  - intros ->. destruct romFile; reflexivity.
  - intros pf -> H. destruct romFile as [f|]; [|reflexivity].
    apply check_without_folder. simpl. by apply truthyUri_None.
  - subst. rewrite (check_listing_failed platform listDirectory f (Some pf) uri e s);
      [reflexivity | simpl; by apply truthyUri_Some | assumption].
  - subst. rewrite (check_listing_failed platform listDirectory f (Some pf) uri e s);
      [|simpl; by apply truthyUri_Some | assumption].
    simpl. apply lookup_insert_eq.
Qed.

End ReconcilerClaims.

Lemma checkIfRomExists_total_witness :
  outcome (checkIfRomExists Sample.phone Sample.denied
             (Some Sample.discOne) (Some Sample.psxFolder) initialState)
    = Returned false /\
  fileChecks (final (checkIfRomExists Sample.phone Sample.denied
                       (Some Sample.discOne) (Some Sample.psxFolder)
                       initialState)) !! 7 = Some false.
Proof.
  apply (proj2 (proj2 (proj2 (proj2
           (checkIfRomExists_total Sample.phone Sample.denied
              (Some Sample.discOne) (Some Sample.psxFolder) initialState))))
         Sample.discOne Sample.psxFolder (js "content://roms/psx")
         (IOError (js "permission denied"))).
  - reflexivity.
  - reflexivity.
  - reflexivity.
  - discriminate.
  - reflexivity.
Defined.

Section ReconcilerCache.

Variable platform : Platform.
Variable listDirectory : Backend -> JSString -> Outcome (list JSString).

Abbreviation check := (checkIfRomExists platform listDirectory).
Abbreviation refresh := (refreshRomCheck platform listDirectory).
Abbreviation backend := (if isSafAvailable platform then SAF else ExpoFS).

(** A check writes at most the entry of its own file's [rom_id]. *)
Lemma check_other_key f pf s k :
  (forall file, f = Some file -> rom_id file <> k) ->
  fileChecks (final (check f pf s)) !! k = fileChecks s !! k /\
  existsb (writesFileCheck k) (trace (check f pf s)) = false.
Proof.
  intros Hk. destruct (check_cases platform listDirectory f pf s)
    as [|file uri r Hf]; simpl.
  - split; reflexivity.
  - specialize (Hk file Hf). split.
    + by apply lookup_insert_ne.
    + rewrite orb_false_r. apply Z.eqb_neq. congruence.
Qed.

(** A check never touches the in-flight flags. *)
Lemma check_keeps_checking f pf s :
  checking (final (check f pf s)) = checking s /\
  existsb writesChecking (trace (check f pf s)) = false.
Proof.
  destruct (check_cases platform listDirectory f pf s); split; reflexivity.
Qed.

Lemma refresh_cached render f pf s :
  fileChecks render !! rom_id f = Some true ->
  refresh render (Some f) pf s = (Returned true, s, []).
Proof.
  intros H. unfold refreshRomCheck, ret.
  rewrite bool_decide_eq_true_2 by exact H. reflexivity.
Qed.

Lemma refresh_uncached render f pf s :
  fileChecks render !! rom_id f <> Some true ->
  refresh render (Some f) pf s = check (Some f) pf s.
Proof.
  intros H. unfold refreshRomCheck.
  rewrite bool_decide_eq_false_2 by exact H. reflexivity.
Qed.

Lemma isRomDownloaded_true s f :
  isRomDownloaded s f = true <-> fileChecks s !! rom_id f = Some true.
Proof.
  unfold isRomDownloaded.
  destruct (fileChecks s !! rom_id f) as [[]|]; simpl; split; congruence.
Qed.

(** C2, as the code has it: [refreshRomCheck] reads the cache of the
    render that created it.  When that render's entry of the file reads
    [true] it returns [true] at once: the cells are left as they are and
    nothing is listed or written; when it reads absent or [false] it is
    the full check, result and effects alike.  So a refresh whose render
    has the current entry of a file reported present, whichever file is
    refreshed, leaves that file reported present. *)
Theorem refreshRomCheck_short_circuit render f pf s :
  (fileChecks render !! rom_id f = Some true ->
   refresh render (Some f) pf s = (Returned true, s, [])) /\
  (fileChecks render !! rom_id f = None \/
   fileChecks render !! rom_id f = Some false ->
   refresh render (Some f) pf s = check (Some f) pf s) /\
  (forall g pf',
     fileChecks render !! rom_id f = fileChecks s !! rom_id f ->
     isRomDownloaded s f = true ->
     isRomDownloaded (final (refresh render (Some g) pf' s)) f = true).
Proof.
  split; [apply refresh_cached|]. split.
  - intros [H|H]; apply refresh_uncached; rewrite H; discriminate.
  - intros g pf' Hcur Hf. apply isRomDownloaded_true in Hf.
    apply isRomDownloaded_true.
    destruct (decide (fileChecks render !! rom_id g = Some true)) as [Hg|Hg].
    + rewrite refresh_cached by exact Hg. exact Hf.
    + rewrite refresh_uncached by exact Hg.
      destruct (check_other_key (Some g) pf' s (rom_id f)) as [-> _];
        [|exact Hf].
      intros file [= <-] Heq. apply Hg. rewrite Heq, Hcur. exact Hf.
Qed.

(** C5, as the code has it: when the folder is there and can be listed,
    [checkIfRomExists] returns [true] exactly when the base name of the
    file (its [file_name] without the last extension) occurs inside the
    whole name of some entry, extension included.  An entry whose name
    without extension contains the base name is one such entry. *)
Theorem checkIfRomExists_substring f pf uri entries s :
  folderUri pf = Some uri -> uri <> [] ->
  listDirectory backend uri = Returned entries ->
  exists b,
    outcome (check (Some f) (Some pf) s) = Returned b /\
    (b = true <->
     exists entry pre post,
       In entry entries /\
       entry = pre ++ stripExtension (file_name f) ++ post) /\
    ((exists entry,
        In entry entries /\
        includes (stripExtension entry) (stripExtension (file_name f)) = true)
     -> b = true).
Proof.
  intros Huri Hne Hlist.
  rewrite (check_listed platform listDirectory f (Some pf) uri entries s);
    [|simpl; by apply truthyUri_Some | exact Hlist].
  eexists. split; [reflexivity|]. split.
  - rewrite existsb_exists. split.
    + intros [entry [Hin Hinc]]. apply includes_substring in Hinc.
      destruct Hinc as [pre [post ->]]. eauto.
    + intros [entry [pre [post [Hin ->]]]].
      eexists. split; [exact Hin|]. apply includes_substring. eauto.
  - intros [entry [Hin Hinc]]. apply existsb_exists.
    exists entry. split; [exact Hin|]. by apply includes_stripped.
Qed.

End ReconcilerCache.

Lemma refreshRomCheck_short_circuit_witness :
  refreshRomCheck Sample.phone Sample.denied Sample.discOnePresent
    (Some Sample.discOne) (Some Sample.psxFolder) Sample.discOnePresent
  = (Returned true, Sample.discOnePresent, []).
Proof.
  apply (proj1 (refreshRomCheck_short_circuit Sample.phone Sample.denied
                  Sample.discOnePresent Sample.discOne
                  (Some Sample.psxFolder) Sample.discOnePresent)).
  reflexivity.
Defined.

(** C2, disproved as stated: a first refresh finds the file and stores
    [true].  A second refresh made by the same render, which still reads
    the entry as absent, lists the folder again although the cache says
    [true]; when the listing is refused by then, it stores [false], and the
    file is reported absent without any reset. *)
Lemma refreshRomCheck_stale_render_lists :
  let s1 :=
    final (refreshRomCheck Sample.phone Sample.discOneOnly initialState
             (Some Sample.discOne) (Some Sample.psxFolder) initialState) in
  fileChecks s1 !! rom_id Sample.discOne = Some true /\
  isRomDownloaded s1 Sample.discOne = true /\
  refreshRomCheck Sample.phone Sample.discOneOnly initialState
    (Some Sample.discOne) (Some Sample.psxFolder) s1
  = (Returned true, cached s1 7 true,
     [ListFiles SAF (js "content://roms/psx"); SetFileChecks 7 true]) /\
  refreshRomCheck Sample.phone Sample.denied initialState
    (Some Sample.discOne) (Some Sample.psxFolder) s1
  = (Returned false, cached s1 7 false,
     [ListFiles SAF (js "content://roms/psx"); SetFileChecks 7 false]) /\
  isRomDownloaded
    (final (refreshRomCheck Sample.phone Sample.denied initialState
              (Some Sample.discOne) (Some Sample.psxFolder) s1))
    Sample.discOne = false.
Proof. repeat split. Qed.

Lemma checkIfRomExists_substring_witness :
  exists b,
    outcome (checkIfRomExists Sample.phone Sample.discOneOnly
               (Some Sample.discOne) (Some Sample.psxFolder) initialState)
      = Returned b /\
    (b = true <->
     exists entry pre post,
       In entry [js "game (disc 1).bin"] /\
       entry = pre ++ stripExtension (file_name Sample.discOne) ++ post) /\
    ((exists entry,
        In entry [js "game (disc 1).bin"] /\
        includes (stripExtension entry)
                 (stripExtension (file_name Sample.discOne)) = true)
     -> b = true).
Proof.
  apply (checkIfRomExists_substring Sample.phone Sample.discOneOnly
           Sample.discOne Sample.psxFolder (js "content://roms/psx")
           [js "game (disc 1).bin"] initialState).
  - reflexivity.
  - discriminate.
  - reflexivity.
Defined.

(** C5, disproved as stated: the folder holds the entry [rom.v1] and the
    file is [rom.v1.zip], of base name [rom.v1].  Without its extension
    the entry is [rom], which does not contain the base name, yet the check
    answers [true]. *)
Lemma checkIfRomExists_keeps_entry_extension :
  stripExtension (file_name Sample.patched) = js "rom.v1" /\
  existsb (fun entry =>
             includes (stripExtension entry)
                      (stripExtension (file_name Sample.patched)))
          [js "rom.v1"] = false /\
  checkIfRomExists Sample.phone Sample.extractedPatched
    (Some Sample.patched) (Some Sample.psxFolder) initialState
  = (Returned true, cached initialState 8 true,
     [ListFiles SAF (js "content://roms/psx"); SetFileChecks 8 true]).
Proof. repeat split. Qed.

Section ReconcilerFlags.

Variable platform : Platform.
Variable listDirectory : Backend -> JSString -> Outcome (list JSString).

Abbreviation check := (checkIfRomExists platform listDirectory).
Abbreviation refresh := (refreshRomCheck platform listDirectory).
Abbreviation checkMany := (checkMultipleRoms platform listDirectory).

(** What a run of checks leaves of an entry none of them is keyed on. *)
Lemma checkEach_other_key roms pf s k :
  Forall (fun g => rom_id g <> k) roms ->
  fileChecks (final (checkEach platform listDirectory roms pf s)) !! k
    = fileChecks s !! k /\
  existsb (writesFileCheck k)
          (trace (checkEach platform listDirectory roms pf s)) = false.
Proof.
  intros H. revert s. induction H as [|g roms Hg _ IH]; intros s.
  - split; reflexivity.
  - cbn [checkEach]. unfold bind.
    destruct (check_other_key platform listDirectory (Some g) pf s k)
      as [Hs Ht]; [by intros file [= <-]|].
    destruct (check_cases platform listDirectory (Some g) pf s)
      as [|file uri r _]; run_simpl.
    + destruct (IH s) as [IHs IHt].
      destruct (checkEach platform listDirectory roms pf s) as [[o s2] t2].
      run_simpl. split; [exact IHs | exact IHt].
    + destruct (IH (cached s (rom_id file) r)) as [IHs IHt].
      destruct (checkEach platform listDirectory roms pf
                  (cached s (rom_id file) r)) as [[o s2] t2].
      run_simpl. split; [by rewrite IHs, Hs|].
      rewrite orb_false_r in Ht. by rewrite Ht.
Qed.

Lemma checkEach_keeps_checking roms pf s :
  checking (final (checkEach platform listDirectory roms pf s)) = checking s.
Proof.
  revert s. induction roms as [|g roms IH]; intros s; [reflexivity|].
  cbn [checkEach]. unfold bind.
  destruct (check_cases platform listDirectory (Some g) pf s)
    as [|file uri r _]; simpl.
  - specialize (IH s).
    destruct (checkEach platform listDirectory roms pf s) as [[o s2] t2].
    exact IH.
  - specialize (IH (cached s (rom_id file) r)).
    destruct (checkEach platform listDirectory roms pf
                (cached s (rom_id file) r)) as [[o s2] t2].
    exact IH.
Qed.

Lemma existsb_regroup {A} (P Q : A -> bool) t :
  existsb P (List.filter Q t ++ List.filter (fun e => negb (Q e)) t)
  = existsb P t.
Proof.
  rewrite existsb_app. induction t as [|a t IH]; [reflexivity|].
  simpl. rewrite <- IH.
  destruct (Q a); simpl;
    destruct (P a), (existsb P (List.filter Q t)),
             (existsb P (List.filter (fun e => negb (Q e)) t)); reflexivity.
Qed.

(** The checks of a [Promise.all] leave the cells the checks run in turn
    leave, and cause the same events, the listings first. *)
Lemma checkAll_checkEach roms pf s :
  outcome (checkAll platform listDirectory roms pf s)
  = outcome (checkEach platform listDirectory roms pf s) /\
  final (checkAll platform listDirectory roms pf s)
  = final (checkEach platform listDirectory roms pf s) /\
  trace (checkAll platform listDirectory roms pf s)
  = List.filter isListing (trace (checkEach platform listDirectory roms pf s))
    ++ List.filter (fun e => negb (isListing e))
         (trace (checkEach platform listDirectory roms pf s)).
Proof.
  unfold checkAll.
  destruct (checkEach platform listDirectory roms pf s) as [[o s1] t].
  repeat split.
Qed.

Lemma checkAll_other_key roms pf s k :
  Forall (fun g => rom_id g <> k) roms ->
  fileChecks (final (checkAll platform listDirectory roms pf s)) !! k
    = fileChecks s !! k /\
  existsb (writesFileCheck k)
          (trace (checkAll platform listDirectory roms pf s)) = false.
Proof.
  intros H. destruct (checkAll_checkEach roms pf s) as (_ & -> & ->).
  rewrite existsb_regroup. by apply checkEach_other_key.
Qed.

Lemma checkAll_keeps_checking roms pf s :
  checking (final (checkAll platform listDirectory roms pf s)) = checking s.
Proof.
  destruct (checkAll_checkEach roms pf s) as (_ & -> & _).
  apply checkEach_keeps_checking.
Qed.

(** [checkMultipleRoms] either does nothing or runs the checks of the
    files its filter lets through. *)
Lemma checkMultipleRoms_cases render roms pf s :
  (final (checkMany render roms pf s) = s /\
   trace (checkMany render roms pf s) = []) \/
  checkMany render roms pf s
  = checkAll platform listDirectory (romsFilesToCheck render roms) pf s.
Proof.
  unfold checkMultipleRoms.
  destruct (Nat.eqb (length (romsFilesToCheck render roms)) 0);
    [left; split; reflexivity|].
  destruct pf as [pf|]; [|left; split; reflexivity].
  destruct (truthyUri pf); [|left; split; reflexivity].
  right. reflexivity.
Qed.

Lemma reset_keeps_false l s k :
  fileChecks s !! k = Some false ->
  fileChecks (final (resetRomsCheck l s)) !! k = Some false.
Proof.
  revert s. induction l as [|g l IH]; intros s H; [exact H|].
  cbn [resetRomsCheck]. unfold bind, setFileChecks, setChecking. simpl.
  match goal with
  | |- context [resetRomsCheck l ?s1] =>
      specialize (IH s1); destruct (resetRomsCheck l s1) as [[o s2] t2]
  end.
  run_simpl. apply IH.
  destruct (decide (rom_id g = k)) as [->|Hne];
    [apply lookup_insert_eq | by rewrite lookup_insert_ne].
Qed.

Lemma reset_sets_false l s f :
  In f l -> fileChecks (final (resetRomsCheck l s)) !! rom_id f = Some false.
Proof.
  revert s. induction l as [|g l IH]; intros s Hin; [destruct Hin|].
  cbn [resetRomsCheck]. unfold bind, setFileChecks, setChecking. simpl.
  match goal with
  | |- context [resetRomsCheck l ?s1] =>
      pose proof (reset_keeps_false l s1 (rom_id f)) as Hkeep;
      specialize (IH s1); destruct (resetRomsCheck l s1) as [[o s2] t2]
  end.
  run_simpl. destruct Hin as [->|Hin]; [|by apply IH].
  apply Hkeep. apply lookup_insert_eq.
Qed.

Lemma reset_flags_false l s :
  (forall k, default false (checking s !! k) = false) ->
  forall k, default false (checking (final (resetRomsCheck l s)) !! k) = false.
Proof.
  revert s. induction l as [|g l IH]; intros s H k; [apply H|].
  cbn [resetRomsCheck]. unfold bind, setFileChecks, setChecking. simpl.
  match goal with
  | |- context [resetRomsCheck l ?s1] =>
      specialize (IH s1); destruct (resetRomsCheck l s1) as [[o s2] t2]
  end.
  run_simpl. apply IH. intros k'.
  destruct (decide (rom_id g = k')) as [->|Hne].
  - by rewrite lookup_insert_eq.
  - rewrite lookup_insert_ne by exact Hne. apply H.
Qed.

End ReconcilerFlags.

(** Nothing the hook does ever raises an in-flight flag. *)
Lemma reachable_flags_false s :
  ReachableState s -> forall k, default false (checking s !! k) = false.
Proof.
  induction 1 as [|platform listDirectory c s _ IH]; intros k.
  - reflexivity.
  - destruct c as [f pf|render l pf|render f pf|l]; simpl.
    + destruct (check_keeps_checking platform listDirectory f pf s) as [-> _].
      apply IH.
    + destruct (checkMultipleRoms_cases platform listDirectory render l pf s)
        as [[Hs _]|Hs]; rewrite Hs; [apply IH|].
      rewrite checkAll_keeps_checking. apply IH.
    + destruct f as [f|]; [|apply IH].
      destruct (decide (fileChecks render !! rom_id f = Some true)) as [Hf|Hf].
      * rewrite refresh_cached by exact Hf. apply IH.
      * rewrite refresh_uncached by exact Hf.
        destruct (check_keeps_checking platform listDirectory (Some f) pf s)
          as [-> _].
        apply IH.
    + by apply reset_flags_false.
Qed.

Section ReconcilerReset.

Variable platform : Platform.
Variable listDirectory : Backend -> JSString -> Outcome (list JSString).

Abbreviation check := (checkIfRomExists platform listDirectory).
Abbreviation refresh := (refreshRomCheck platform listDirectory).
Abbreviation checkMany := (checkMultipleRoms platform listDirectory).

Lemma defined_entry_not_checked s roms g :
  In g (romsFilesToCheck s roms) -> fileChecks s !! rom_id g = None.
Proof.
  unfold romsFilesToCheck. rewrite filter_In. intros [_ H].
  unfold notYetChecked in H.
  destruct (fileChecks s !! rom_id g); [discriminate | reflexivity].
Qed.


(** C10, as the code has it: [resetRomsCheck] stores [false] for every
    file it is given, so the entry is defined afterwards.  A
    [checkMultipleRoms] of a later render, which reads the cells as the
    reset left them, leaves every such file out: on reset files alone it does nothing at all, and in general it
    neither checks a reset file nor writes its entry, so that
    [isRomDownloaded] still answers [false]; a [refreshRomCheck] of the
    file does run the full check. *)
Theorem resetRomsCheck_blocks_checkMultipleRoms romsFiles s f :
  In f romsFiles ->
  let s1 := final (resetRomsCheck romsFiles s) in
  fileChecks s1 !! rom_id f = Some false /\
  isRomDownloaded s1 f = false /\
  (forall roms, ~ In f (romsFilesToCheck s1 roms)) /\
  (forall roms pf,
     (forall g, In g roms -> In g romsFiles) ->
     checkMany s1 roms pf s1 = (Returned tt, s1, [])) /\
  (forall roms pf,
     existsb (writesFileCheck (rom_id f)) (trace (checkMany s1 roms pf s1))
       = false /\
     fileChecks (final (checkMany s1 roms pf s1)) !! rom_id f = Some false /\
     isRomDownloaded (final (checkMany s1 roms pf s1)) f = false) /\
  (forall pf, refresh s1 (Some f) pf s1 = check (Some f) pf s1).
Proof.
  intros Hin s1.
  assert (Hf : fileChecks s1 !! rom_id f = Some false)
    by (by apply reset_sets_false).
  split; [exact Hf|]. split; [unfold isRomDownloaded; by rewrite Hf|].
  split.
  { intros roms H. apply defined_entry_not_checked in H. congruence. }
  split.
  { intros roms pf Hsub. unfold checkMultipleRoms.
    replace (romsFilesToCheck s1 roms) with (@nil RomFile); [reflexivity|].
    symmetry. unfold romsFilesToCheck.
    induction roms as [|g roms IH]; [reflexivity|]. cbn [List.filter].
    unfold notYetChecked at 1.
    unfold s1 at 1. rewrite (reset_sets_false romsFiles s g)
      by (apply Hsub; by left).
    apply IH. intros g' Hg'. apply Hsub. by right. }
  split.
  { intros roms pf.
    assert (Hgoal :
      existsb (writesFileCheck (rom_id f)) (trace (checkMany s1 roms pf s1))
        = false /\
      fileChecks (final (checkMany s1 roms pf s1)) !! rom_id f = Some false).
    { destruct (checkMultipleRoms_cases platform listDirectory s1 roms pf s1)
        as [[Hs Ht]|Hs].
      - rewrite Hs, Ht. split; [reflexivity | exact Hf].
      - rewrite Hs.
        destruct (checkAll_other_key platform listDirectory
                    (romsFilesToCheck s1 roms) pf s1 (rom_id f)) as [Hk Ht].
        + apply Forall_forall. intros g Hg Heq.
          apply list_elem_of_In in Hg.
          apply defined_entry_not_checked in Hg. congruence.
        + split; [exact Ht | by rewrite Hk]. }
    destruct Hgoal as [Ht Hk]. split; [exact Ht|]. split; [exact Hk|].
    unfold isRomDownloaded. by rewrite Hk. }
  intros pf. apply refresh_uncached. rewrite Hf. discriminate.
Qed.

End ReconcilerReset.


Lemma resetRomsCheck_blocks_checkMultipleRoms_witness :
  let s1 := final (resetRomsCheck [Sample.discOne; Sample.patched]
                     Sample.discOnePresent) in
  fileChecks s1 !! 7 = Some false /\
  isRomDownloaded s1 Sample.discOne = false /\
  checkMultipleRoms Sample.phone Sample.discOneOnly s1
    [Sample.discOne; Sample.patched] (Some Sample.psxFolder) s1
  = (Returned tt, s1, []).
Proof.
  pose proof (resetRomsCheck_blocks_checkMultipleRoms
                Sample.phone Sample.discOneOnly
                [Sample.discOne; Sample.patched] Sample.discOnePresent
                Sample.discOne (or_introl eq_refl)) as H.
  simpl in H. destruct H as [H1 [H2 [_ [H4 _]]]].
  split; [exact H1|]. split; [exact H2|].
  apply H4. intros g Hg. exact Hg.
Defined.

(** C10, disproved as stated: the file is reset, so its entry is defined.
    A [checkMultipleRoms] created by the render from before the reset
    still reads the entry as [undefined]: called after the reset it lets
    the file through, lists the folder and overwrites the entry, and
    [isRomDownloaded] answers [true] with no [checkIfRomExists] or
    [refreshRomCheck] of the caller's. *)
Lemma checkMultipleRoms_stale_render_checks :
  let s1 := final (resetRomsCheck [Sample.discOne] initialState) in
  fileChecks s1 !! rom_id Sample.discOne = Some false /\
  romsFilesToCheck initialState [Sample.discOne] = [Sample.discOne] /\
  checkMultipleRoms Sample.phone Sample.discOneOnly initialState
    [Sample.discOne] (Some Sample.psxFolder) s1
  = (Returned tt, cached s1 7 true,
     [ListFiles SAF (js "content://roms/psx"); SetFileChecks 7 true]) /\
  isRomDownloaded
    (final (checkMultipleRoms Sample.phone Sample.discOneOnly initialState
              [Sample.discOne] (Some Sample.psxFolder) s1))
    Sample.discOne = true.
Proof. repeat split. Qed.

(** C3, evaluated on two files of one ROM: the cache is keyed by [rom_id],
    which both files share, and not by the file's own [id].  The folder
    holds the first disc only; checking the first disc makes
    [isRomDownloaded] answer [true] for the second disc as well, which was
    never checked and is not in the folder. *)
Lemma checkIfRomExists_shared_entry :
  id Sample.discOne <> id Sample.discTwo /\
  rom_id Sample.discOne = rom_id Sample.discTwo /\
  isRomDownloaded initialState Sample.discTwo = false /\
  isRomDownloaded
    (final (checkIfRomExists Sample.phone Sample.discOneOnly
              (Some Sample.discOne) (Some Sample.psxFolder) initialState))
    Sample.discTwo = true /\
  outcome (checkIfRomExists Sample.phone Sample.discOneOnly
             (Some Sample.discTwo) (Some Sample.psxFolder) initialState)
  = Returned false.
Proof. repeat split. discriminate. Qed.

(** ** Choice of the storage back end *)


(** The listing of [checkIfRomExists] goes through the back end the
    capability probe selects. *)
Lemma checkIfRomExists_backend platform listDirectory f pf s e :
  In e (trace (checkIfRomExists platform listDirectory f pf s)) ->
  isListing e = true ->
  exists uri, e = ListFiles (if isSafAvailable platform then SAF else ExpoFS) uri.
Proof.
  destruct (check_cases platform listDirectory f pf s) as [|file uri r _];
    simpl; [intros []|].
  intros [<-|[<-|[]]] H; [eauto | discriminate].
Qed.

(** The deletion handler agrees with the capability probe on every device
    but an Android TV. *)
Lemma handleDeleteFile_backend_agrees (p : Platform) :
  RomDetails.handleDeleteFile_backend p
  = (if isSafAvailable p then SAF else ExpoFS)
  <-> ~ (OS p = android /\ isTV p = true).
Proof.
  unfold RomDetails.handleDeleteFile_backend, isSafAvailable.
  destruct p as [[] []]; simpl; split; try congruence;
    try (intros _ [H1 H2]; discriminate);
    try (intros H; exfalso; apply H; split; reflexivity).
Qed.

(** C6, evaluated on an Android TV: the capability probe answers [false],
    so the existence check and the path lookup list the folder through the
    plain file system; the deletion handler tests the operating system
    alone and both lists and deletes through the scoped back end. *)
Lemma handleDeleteFile_on_android_tv :
  isSafAvailable Sample.androidTV = false /\
  trace (checkIfRomExists Sample.androidTV Sample.discOneOnly
           (Some Sample.discOne) (Some Sample.psxFolder) initialState)
  = [ListFiles ExpoFS (js "content://roms/psx"); SetFileChecks 7 true] /\
  snd (RomDetails.updateExistingFilePath Sample.androidTV Sample.discOneOnly
         Sample.discOne (js "content://roms/psx"))
  = [RomDetails.CallListFiles ExpoFS (js "content://roms/psx")] /\
  RomDetails.handleDeleteFile Sample.androidTV Sample.discOneOnly
    Sample.discOneNames Sample.discOne (js "content://roms/psx")
  = [RomDetails.CallListFiles SAF (js "content://roms/psx");
     RomDetails.CallUnlink SAF (js "content://roms/psx/game (disc 1).bin")].
Proof. repeat split. Qed.

(** ** The concurrent downloads setting *)

(** C7: whatever the store answers, the loaded setting is an integer from
    1 to 5; it is the parsed value when the stored string parses to an
    integer from 1 to 5, and the default 2 when the string does not parse,
    parses to something out of range, is absent, or cannot be read. *)
Theorem loadConcurrentDownloadsSetting_range stored :
  1 <= Settings.loadConcurrentDownloadsSetting stored <= 5 /\
  (forall value n,
     stored = Returned (Some value) -> Settings.parseInt10 value = Some n ->
     1 <= n <= 5 -> Settings.loadConcurrentDownloadsSetting stored = n) /\
  (forall value n,
     stored = Returned (Some value) -> Settings.parseInt10 value = Some n ->
     n < 1 \/ 5 < n -> Settings.loadConcurrentDownloadsSetting stored = 2) /\
  (forall value,
     stored = Returned (Some value) -> Settings.parseInt10 value = None ->
     Settings.loadConcurrentDownloadsSetting stored = 2) /\
  (stored = Returned None ->
   Settings.loadConcurrentDownloadsSetting stored = 2) /\
  (forall e, stored = Threw e ->
             Settings.loadConcurrentDownloadsSetting stored = 2).
Proof.
  unfold Settings.loadConcurrentDownloadsSetting. repeat split.
  - destruct stored as [[value|]|e]; try lia.
    destruct (Settings.parseInt10 value) as [n|]; try lia.
    destruct (1 <=? n) eqn:H1; destruct (n <=? 5) eqn:H5; simpl; lia.
  - destruct stored as [[value|]|e]; try lia.
    destruct (Settings.parseInt10 value) as [n|]; try lia.
    destruct (1 <=? n) eqn:H1; destruct (n <=? 5) eqn:H5; simpl; lia.
  - intros value n -> -> Hn.
    destruct (1 <=? n) eqn:H1; destruct (n <=? 5) eqn:H5; simpl; lia.
  - intros value n -> -> Hn.
    destruct (1 <=? n) eqn:H1; destruct (n <=? 5) eqn:H5; simpl; lia.
  - intros value -> ->. reflexivity.
  - intros ->. reflexivity.
  - intros e ->. reflexivity.
Qed.

Lemma loadConcurrentDownloadsSetting_range_witness :
  Settings.loadConcurrentDownloadsSetting (Returned (Some (js " 4 slots"))) = 4 /\
  Settings.loadConcurrentDownloadsSetting (Returned (Some (js "9"))) = 2 /\
  Settings.loadConcurrentDownloadsSetting (Returned (Some (js "many"))) = 2.
Proof.
  split; [|split].
  - apply (proj1 (proj2 (loadConcurrentDownloadsSetting_range
                           (Returned (Some (js " 4 slots")))))
             (js " 4 slots") 4); [reflexivity | reflexivity | lia].
  - apply (proj1 (proj2 (proj2 (loadConcurrentDownloadsSetting_range
                                  (Returned (Some (js "9"))))))
             (js "9") 9); [reflexivity | reflexivity | lia].
  - apply (proj1 (proj2 (proj2 (proj2 (loadConcurrentDownloadsSetting_range
                                         (Returned (Some (js "many")))))))
             (js "many")); reflexivity.
Defined.

(** ** The remaining-time renderer *)

Section FormatTimeFacts.

Import Downloads.

Variable numberToString : Number -> JSString.

Lemma hours_minutes_not_marker (a b : JSString) :
  a ++ js "h " ++ b ++ js "m" <> js "--".
Proof.
  intros H. apply (f_equal (@length N)) in H.
  rewrite !length_app in H. simpl in H. lia.
Qed.

Lemma minutes_seconds_not_marker (a b : JSString) :
  a ++ js "m " ++ b ++ js "s" <> js "--".
Proof.
  intros H. apply (f_equal (@length N)) in H.
  rewrite !length_app in H. simpl in H. lia.
Qed.

Lemma seconds_not_marker (a : JSString) : a ++ js "s" <> js "--".
Proof.
  destruct a as [|x [|y [|z a]]]; cbv [js]; simpl; intros H;
    try discriminate H.
Qed.

(** The guard of [formatTime], spelled out. *)
Lemma indeterminate_cases (seconds : Number) :
  indeterminate seconds = true <->
  (exists s, seconds = S754_zero s) \/ seconds = S754_nan \/
  (exists s, seconds = S754_infinity s) \/ gt seconds (ofZ 86400) = true.
Proof.
  unfold indeterminate. destruct seconds as [s|s| |s m e].
  - split; [intros _; left; eauto | intros _; destruct s; reflexivity].
  - split; [intros _; right; right; left; eauto|].
    intros _. destruct s; reflexivity.
  - split; [intros _; right; left; reflexivity|].
    intros _. reflexivity.
  - replace (strictEq (S754_finite s m e) zero) with false
      by (destruct s; reflexivity).
    simpl. split.
    + intros H. right; right; right. exact H.
    + intros [[s' H]|[H|[[s' H]|H]]]; try discriminate H. exact H.
Qed.

(** C8: [formatTime] returns the marker "--" exactly when the value is a
    zero, is not finite (NaN or an infinity) or is greater than 86400.  For
    any other value, so for every positive finite one up to 86400, it
    returns hours and minutes when the floor of the value over 3600 is
    positive, else minutes and seconds when the floor of the remainder over
    60 is positive, else the seconds alone. *)
Theorem formatTime_marker (seconds : Number) :
  (formatTime numberToString seconds = js "--" <->
   (exists s, seconds = S754_zero s) \/ seconds = S754_nan \/
   (exists s, seconds = S754_infinity s) \/ gt seconds (ofZ 86400) = true) /\
  (isFinite seconds = true -> gt seconds zero = true ->
   gt seconds (ofZ 86400) = false ->
   formatTime numberToString seconds
   = if gt (floor (div seconds (ofZ 3600))) zero
     then numberToString (floor (div seconds (ofZ 3600))) ++ js "h " ++
          numberToString (floor (div (remainder seconds (ofZ 3600)) (ofZ 60))) ++
          js "m"
     else if gt (floor (div (remainder seconds (ofZ 3600)) (ofZ 60))) zero
     then numberToString (floor (div (remainder seconds (ofZ 3600)) (ofZ 60))) ++
          js "m " ++
          numberToString (floor (remainder seconds (ofZ 60))) ++ js "s"
     else numberToString (floor (remainder seconds (ofZ 60))) ++ js "s").
Proof.
  split.
  - rewrite <- indeterminate_cases. unfold formatTime.
    destruct (indeterminate seconds); [split; reflexivity|].
    split; [|discriminate]. intros H. exfalso. revert H.
    destruct (gt (hoursOf seconds) zero); [apply hours_minutes_not_marker|].
    destruct (gt (minutesOf seconds) zero);
      [apply minutes_seconds_not_marker | apply seconds_not_marker].
  - intros Hfin Hpos Hle. unfold formatTime.
    replace (indeterminate seconds) with false; [reflexivity|].
    symmetry. apply not_true_is_false. rewrite indeterminate_cases.
    intros [[s ->]|[->|[[s ->]|H]]]; try discriminate; congruence.
Qed.

End FormatTimeFacts.

Lemma formatTime_marker_witness :
  Downloads.formatTime Downloads.integralToString (Downloads.ofZ 3725)
  = js "1h 2m".
Proof.
  rewrite (proj2 (formatTime_marker Downloads.integralToString
                    (Downloads.ofZ 3725)));
    reflexivity.
Defined.

Example formatTime_examples :
  let half := Downloads.div (Downloads.ofZ 1) (Downloads.ofZ 2) in
  let render := Downloads.formatTime Downloads.integralToString in
  render (Downloads.ofZ 86400) = js "24h 0m" /\
  render (Downloads.ofZ 86401) = js "--" /\
  render (Downloads.div (Downloads.ofZ 1199) (Downloads.ofZ 10)) = js "1m 59s" /\
  render half = js "0s" /\
  render (S754_zero true) = js "--" /\
  render (Downloads.ofZ (-5)) = js "-5s".
Proof. cbv zeta. repeat split; vm_compute; reflexivity. Qed.

(** ** The download scheduler *)

Section SchedulerFacts.

Import DownloadQueue.

Lemma activeCount_cons it l :
  activeCount (it :: l)
  = ((if isActive (status it) then 1 else 0) + activeCount l)%nat.
Proof. unfold activeCount. simpl. destruct (isActive (status it)); reflexivity. Qed.

Lemma pendingCount_cons it l :
  pendingCount (it :: l)
  = ((if isPending (status it) then 1 else 0) + pendingCount l)%nat.
Proof. unfold pendingCount. simpl. destruct (isPending (status it)); reflexivity. Qed.

Lemma pending_not_active st : isPending st = true -> isActive st = false.
Proof. destruct st; simpl; congruence. Qed.

(** A promotion takes the first PENDING item in arrival order, and that
    one only. *)
Lemma promoteOldestPending_oldest l l' :
  promoteOldestPending l = Some l' ->
  exists older it newer,
    l = older ++ it :: newer /\
    Forall (fun o => isPending (status o) = false) older /\
    status it = PENDING /\
    l' = older ++ withStatus DOWNLOADING it :: newer.
Proof.
  revert l'. induction l as [|it l IH]; intros l' H; [discriminate|].
  simpl in H. destruct (isPending (status it)) eqn:Hp.
  - injection H as <-. exists [], it, l. repeat split; [constructor|].
    destruct (status it); try discriminate. reflexivity.
  - destruct (promoteOldestPending l) as [rest|]; [|discriminate].
    injection H as <-.
    destruct (IH rest eq_refl) as (older & x & newer & -> & Hold & Hx & ->).
    exists (it :: older), x, newer. repeat split; [|exact Hx].
    constructor; assumption.
Qed.

Lemma promoteOldestPending_counts l l' :
  promoteOldestPending l = Some l' ->
  activeCount l' = S (activeCount l) /\
  pendingCount l = S (pendingCount l').
Proof.
  revert l'. induction l as [|it l IH]; intros l' H; [discriminate|].
  simpl in H. destruct (isPending (status it)) eqn:Hp.
  - injection H as <-. rewrite !activeCount_cons, !pendingCount_cons.
    rewrite Hp, (pending_not_active _ Hp). simpl. split; reflexivity.
  - destruct (promoteOldestPending l) as [rest|]; [|discriminate].
    injection H as <-. destruct (IH rest eq_refl) as [Ha Hq].
    rewrite !activeCount_cons, !pendingCount_cons, Hp, Ha, Hq. lia.
Qed.

Lemma promoteOldestPending_none l :
  promoteOldestPending l = None -> pendingCount l = O.
Proof.
  induction l as [|it l IH]; intros H; [reflexivity|].
  simpl in H. rewrite pendingCount_cons.
  destruct (isPending (status it)); [discriminate|].
  destruct (promoteOldestPending l); [discriminate|]. by apply IH.
Qed.

Lemma pendingCount_le_length l : (pendingCount l <= length l)%nat.
Proof. unfold pendingCount. apply filter_length_le. Qed.

Lemma tickLoop_bound fuel cap l :
  Z.of_nat (activeCount (tickLoop fuel cap l))
  <= Z.max (Z.of_nat (activeCount l)) cap.
Proof.
  revert l. induction fuel as [|fuel IH]; intros l; simpl; [lia|].
  destruct (Z.ltb_spec (Z.of_nat (activeCount l)) cap) as [Hlt|Hge]; [|lia].
  destruct (promoteOldestPending l) as [l'|] eqn:Hp; [|lia].
  destruct (promoteOldestPending_counts l l' Hp) as [Ha _].
  specialize (IH l'). lia.
Qed.

Lemma tickLoop_full fuel cap l :
  cap <= Z.of_nat (activeCount l) -> tickLoop fuel cap l = l.
Proof.
  intros H. destruct fuel; simpl; [reflexivity|].
  destruct (Z.ltb_spec (Z.of_nat (activeCount l)) cap); [lia | reflexivity].
Qed.

(** With a round for every PENDING item the loop runs to its end. *)
Lemma tickLoop_complete fuel cap l :
  (pendingCount l <= fuel)%nat ->
  cap <= Z.of_nat (activeCount (tickLoop fuel cap l)) \/
  pendingCount (tickLoop fuel cap l) = O.
Proof.
  revert l. induction fuel as [|fuel IH]; intros l Hfuel; simpl.
  - right. lia.
  - destruct (Z.ltb_spec (Z.of_nat (activeCount l)) cap) as [Hlt|Hge];
      [|left; lia].
    destruct (promoteOldestPending l) as [l'|] eqn:Hp.
    + apply IH. destruct (promoteOldestPending_counts l l' Hp). lia.
    + right. by apply promoteOldestPending_none.
Qed.

(** The loop promotes the PENDING items of a first stretch of the queue,
    that is the oldest ones, and changes nothing else. *)
Lemma promote_not_pending older :
  Forall (fun o => isPending (status o) = false) older ->
  List.map (fun it => if isPending (status it)
                      then withStatus DOWNLOADING it else it) older
  = older.
Proof.
  induction 1 as [|o older Ho _ IH]; [reflexivity|].
  simpl. rewrite Ho. by f_equal.
Qed.

Lemma tickLoop_oldest_first fuel cap l :
  exists older newer,
    l = older ++ newer /\
    tickLoop fuel cap l
    = List.map (fun it => if isPending (status it)
                          then withStatus DOWNLOADING it else it) older
      ++ newer.
Proof.
  revert l. induction fuel as [|fuel IH]; intros l; simpl.
  { exists [], l. by split. }
  destruct (Z.of_nat (activeCount l) <? cap); [|exists [], l; by split].
  destruct (promoteOldestPending l) as [l1|] eqn:Hp; [|exists [], l; by split].
  apply promoteOldestPending_oldest in Hp
    as (quiet & it & rest & -> & Hquiet & Hit & ->).
  destruct (IH (quiet ++ withStatus DOWNLOADING it :: rest))
    as (older & newer & Hsplit & ->).
  apply List.app_eq_app in Hsplit as [tail [[-> Hnewer]|[-> Hrest]]].
  - (* the promoted segment ends inside the items that are not PENDING *)
    exists (older ++ tail ++ [it]), rest.
    split; [by rewrite <- !app_assoc|].
    apply Forall_app in Hquiet as [Ho Ht].
    rewrite Hnewer, !map_app, !promote_not_pending by assumption.
    cbn [List.map]. rewrite Hit. cbn [isPending].
    by rewrite <- !app_assoc.
  - destruct tail as [|x tail].
    + simpl in Hrest. subst newer. rewrite app_nil_r.
      exists (quiet ++ [it]), rest. split; [by rewrite <- app_assoc|].
      rewrite !map_app. cbn [List.map]. rewrite Hit. cbn [isPending].
      by rewrite <- app_assoc.
    + injection Hrest as <- ->.
      exists (quiet ++ it :: tail), newer.
      split; [by rewrite <- app_assoc|].
      rewrite !map_app. cbn [List.map]. rewrite Hit.
      cbn [isPending withStatus status]. by rewrite <- !app_assoc.
Qed.

Lemma transition_activeCount i from f l l' :
  transition i from f l = Some l' ->
  (forall it, from (status it) = true ->
              isActive (status (f it)) = true -> isActive (status it) = true) ->
  (activeCount l' <= activeCount l)%nat.
Proof.
  intros H Hf. revert l' H. induction l as [|it l IH]; intros l' H;
    [discriminate|].
  simpl in H. destruct (Nat.eqb (itemId it) i).
  - destruct (from (status it)) eqn:Hfrom; [|discriminate].
    injection H as <-. rewrite !activeCount_cons.
    specialize (Hf it Hfrom).
    destruct (isActive (status (f it))); [rewrite Hf by reflexivity|]; lia.
  - destruct (transition i from f l) as [rest|]; [|discriminate].
    injection H as <-. rewrite !activeCount_cons.
    specialize (IH rest eq_refl). lia.
Qed.

Lemma filter_activeCount (P : DownloadItem -> bool) l :
  (activeCount (List.filter P l) <= activeCount l)%nat.
Proof.
  induction l as [|it l IH]; simpl; [lia|].
  destruct (P it); rewrite !activeCount_cons; lia.
Qed.

Lemma attempt_activeCount q r :
  (forall l', r = Some l' -> (activeCount l' <= activeCount (items q))%nat) ->
  (activeCount (items (fst (attempt q r))) <= activeCount (items q))%nat.
Proof.
  intros H. destruct r as [l'|]; simpl; [by apply H | lia].
Qed.

(** No event by itself makes an item active: only the scheduler does. *)
Lemma apply_activeCount ev q :
  (activeCount (items (fst (apply ev q))) <= activeCount (items q))%nat.
Proof.
  destruct ev; simpl;
    try (apply attempt_activeCount; intros l' H;
         apply (transition_activeCount _ _ _ _ _ H);
         intros it Hfrom; destruct (status it); simpl in *; congruence);
    try apply filter_activeCount.
  - destruct (alreadyQueued file (items q)); simpl; [lia|].
    unfold activeCount. rewrite List.filter_app, length_app. simpl. lia.
  - destruct ((1 <=? n) && (n <=? 5)); simpl; lia.
Qed.

Lemma apply_cap ev q :
  (forall n, ev <> SetMaxConcurrentDownloads n) ->
  maxConcurrentDownloads (fst (apply ev q)) = maxConcurrentDownloads q.
Proof.
  intros H. destruct ev; simpl;
    try (match goal with
         | |- context [attempt q ?r] => destruct r; reflexivity
         end);
    try reflexivity.
  - destruct (alreadyQueued file (items q)); reflexivity.
  - exfalso. by apply (H n).
Qed.

Lemma exec_bound ev q :
  Z.of_nat (activeCount (items (exec ev q)))
  <= Z.max (Z.of_nat (activeCount (items q)))
           (maxConcurrentDownloads (exec ev q)).
Proof.
  pose proof (apply_activeCount ev q) as Ha.
  assert (Htick :
    Z.of_nat (activeCount (items (schedulerTick (fst (apply ev q)))))
    <= Z.max (Z.of_nat (activeCount (items q)))
             (maxConcurrentDownloads (schedulerTick (fst (apply ev q))))).
  { unfold schedulerTick. simpl.
    pose proof (tickLoop_bound (length (items (fst (apply ev q))))
                  (maxConcurrentDownloads (fst (apply ev q)))
                  (items (fst (apply ev q)))).
    lia. }
  destruct ev; try exact Htick.
  unfold exec. lia.
Qed.

End SchedulerFacts.

Section SchedulerClaims.

Import DownloadQueue.

Lemma exec_cap ev q :
  (forall n, ev <> SetMaxConcurrentDownloads n) ->
  maxConcurrentDownloads (exec ev q) = maxConcurrentDownloads q.
Proof.
  intros H. destruct ev; exact (apply_cap _ q H).
Qed.

Lemma exec_keeps_bound ev q :
  underCap q -> lowersCap ev q = false -> underCap (exec ev q).
Proof.
  unfold underCap. intros Hq Hlow.
  pose proof (exec_bound ev q) as Hb.
  assert (Hcap : maxConcurrentDownloads q <= maxConcurrentDownloads (exec ev q)).
  { destruct ev as [file|i|i|i|i|i| | |i extract|i|i|i message|n];
      try (rewrite exec_cap by discriminate; lia).
    unfold exec. simpl in *.
    destruct ((1 <=? n) && (n <=? 5)); simpl in *; lia. }
  lia.
Qed.

(** C1, as the specification allows it: as long as the configured cap is
    not lowered, the number of items in an ACTIVE status (DOWNLOADING,
    EXTRACTING, MOVING) never exceeds it.  In general an event leaves at
    most as many items active as there were before or as the cap allows: a
    lowered cap aborts nothing.  The scheduler tick changes nothing when
    the active count has reached the cap, runs until the cap is reached or
    no item is PENDING, and what it promotes are the oldest PENDING items:
    the queue splits into an older and a newer part such that the tick
    turns every PENDING item of the older part into a DOWNLOADING one and
    changes nothing else, each promotion of the loop taking the first
    PENDING item in arrival order. *)
Theorem scheduler_respects_cap :
  (forall q, ReachableSteadily q -> underCap q) /\
  (forall ev q,
     Z.of_nat (activeCount (items (exec ev q)))
     <= Z.max (Z.of_nat (activeCount (items q)))
              (maxConcurrentDownloads (exec ev q))) /\
  (forall q,
     maxConcurrentDownloads q <= Z.of_nat (activeCount (items q)) ->
     schedulerTick q = q) /\
  (forall q,
     maxConcurrentDownloads q
       <= Z.of_nat (activeCount (items (schedulerTick q))) \/
     pendingCount (items (schedulerTick q)) = O) /\
  (forall q, exists older newer,
     items q = older ++ newer /\
     items (schedulerTick q)
     = List.map (fun it => if isPending (status it)
                           then withStatus DOWNLOADING it else it) older
       ++ newer) /\
  (forall l l',
     promoteOldestPending l = Some l' ->
     exists older it newer,
       l = older ++ it :: newer /\
       Forall (fun o => isPending (status o) = false) older /\
       status it = PENDING /\
       l' = older ++ withStatus DOWNLOADING it :: newer).
Proof.
  split; [|split; [|split; [|split; [|split]]]].
  - induction 1 as [cap Hcap|ev q _ IH Hlow].
    + unfold underCap, initialQueue, activeCount. simpl. lia.
    + by apply exec_keeps_bound.
  - apply exec_bound.
  - intros q H. unfold schedulerTick. rewrite tickLoop_full by exact H.
    by destruct q.
  - intros q. unfold schedulerTick. simpl.
    apply tickLoop_complete, pendingCount_le_length.
  - intros q. unfold schedulerTick. simpl. apply tickLoop_oldest_first.
  - apply promoteOldestPending_oldest.
Qed.

End SchedulerClaims.

Lemma scheduler_respects_cap_witness :
  DownloadQueue.underCap
    (DownloadQueue.run
       [DownloadQueue.Enqueue 11; DownloadQueue.Enqueue 12;
        DownloadQueue.Enqueue 13; DownloadQueue.SetMaxConcurrentDownloads 3]
       (DownloadQueue.initialQueue 2)).
Proof.
  apply (proj1 scheduler_respects_cap).
  repeat (apply DownloadQueue.steadily_exec; [|reflexivity]).
  apply DownloadQueue.steadily_initial. lia.
Defined.

(** C1, disproved as stated: with a cap of 2, two files are enqueued and
    both start downloading; the cap is then set to 1.  Nothing is aborted,
    so two items are active under a cap of one. *)
Lemma lowered_cap_is_exceeded :
  let q := DownloadQueue.run
             [DownloadQueue.Enqueue 11; DownloadQueue.Enqueue 12;
              DownloadQueue.SetMaxConcurrentDownloads 1]
             (DownloadQueue.initialQueue 2) in
  DownloadQueue.Reachable q /\
  List.map DownloadQueue.status (DownloadQueue.items q)
  = [DownloadQueue.DOWNLOADING; DownloadQueue.DOWNLOADING] /\
  DownloadQueue.maxConcurrentDownloads q = 1 /\
  ~ DownloadQueue.underCap q.
Proof.
  cbv zeta. split; [|split; [|split]].
  - repeat apply DownloadQueue.reach_exec.
    apply DownloadQueue.reach_start. lia.
  - reflexivity.
  - reflexivity.
  - intros H. vm_compute in H. by apply H.
Qed.

(** Of three PENDING items and one free slot, the tick starts the oldest. *)
Example scheduler_starts_oldest :
  let waiting (i : nat) :=
    {| DownloadQueue.itemId := i; DownloadQueue.fileId := Z.of_nat i;
       DownloadQueue.status := DownloadQueue.PENDING;
       DownloadQueue.progress := 0; DownloadQueue.downloadedBytes := 0;
       DownloadQueue.totalBytes := 0; DownloadQueue.error := None |} in
  List.map (fun it => (DownloadQueue.itemId it, DownloadQueue.status it))
    (DownloadQueue.items
       (DownloadQueue.schedulerTick
          {| DownloadQueue.items := [waiting 0%nat; waiting 1%nat; waiting 2%nat];
             DownloadQueue.nextId := 3;
             DownloadQueue.maxConcurrentDownloads := 1 |}))
  = [(0%nat, DownloadQueue.DOWNLOADING); (1%nat, DownloadQueue.PENDING);
     (2%nat, DownloadQueue.PENDING)].
Proof. reflexivity. Qed.

Example scheduler_three_items :
  let q := DownloadQueue.run
             [DownloadQueue.Enqueue 11; DownloadQueue.Enqueue 12;
              DownloadQueue.Enqueue 13]
             (DownloadQueue.initialQueue 2) in
  List.map DownloadQueue.status (DownloadQueue.items q)
  = [DownloadQueue.DOWNLOADING; DownloadQueue.DOWNLOADING;
     DownloadQueue.PENDING] /\
  List.map DownloadQueue.status
    (DownloadQueue.items
       (DownloadQueue.run
          [DownloadQueue.TransferSucceeded 0 false;
           DownloadQueue.PlacementSucceeded 0] q))
  = [DownloadQueue.COMPLETED; DownloadQueue.DOWNLOADING;
     DownloadQueue.DOWNLOADING].
Proof. split; reflexivity. Qed.

(** * Further properties *)

(** ** File names without extension *)

Section ExtensionFacts.

Lemma extChars_no_match (ext : JSString) :
  forallb extChar ext = true -> stripExtension ext = ext.
Proof.
  induction ext as [|c ext IH]; intros H; [reflexivity|].
  simpl in H. apply andb_true_iff in H as [Hc Hext].
  cbn [stripExtension]. unfold matchesExtension.
  replace (N.eqb c dot) with false.
  - simpl. by rewrite IH.
  - symmetry. unfold extChar in Hc. apply negb_true_iff in Hc.
    apply orb_false_iff in Hc as [_ Hc]. exact Hc.
Qed.

(** A name ending in a dot followed by one or more characters other than
    dots and slashes loses exactly that ending; this is so whatever the
    part before it holds, further dots included. *)
Lemma stripExtension_extension (base ext : JSString) :
  ext <> [] -> forallb extChar ext = true ->
  stripExtension (base ++ dot :: ext) = base.
Proof.
  intros Hne Hext. induction base as [|c base IH].
  - cbn [app stripExtension]. unfold matchesExtension.
    rewrite N.eqb_refl, Hext.
    destruct ext; [contradiction | reflexivity].
  - cbn [app stripExtension].
    replace (matchesExtension (c :: base ++ dot :: ext)) with false;
      [by rewrite IH|].
    symmetry. unfold matchesExtension.
    rewrite forallb_app. cbn [forallb].
    replace (extChar dot) with false by reflexivity.
    cbn [andb]. by rewrite !andb_false_r.
Qed.

(** A name is changed only when it ends that way. *)
Lemma stripExtension_changed (s : JSString) :
  stripExtension s <> s ->
  exists ext, s = stripExtension s ++ dot :: ext /\
              ext <> [] /\ forallb extChar ext = true.
Proof.
  induction s as [|c s IH]; intros H; [contradiction|].
  cbn [stripExtension] in *.
  destruct (matchesExtension (c :: s)) eqn:Hm.
  - unfold matchesExtension in Hm.
    apply andb_true_iff in Hm as [Hm Hext].
    apply andb_true_iff in Hm as [Hc Hlen].
    apply N.eqb_eq in Hc. subst c. exists s. split; [reflexivity|].
    split; [|exact Hext]. intros ->. discriminate.
  - destruct IH as (ext & Hs & Hne & Hext); [congruence|].
    exists ext. split; [|by split]. simpl. by rewrite <- Hs.
Qed.

(** X1: [stripExtension] (the replacement of [/\.[^/.]+$/] by the empty
    string) removes the last dot and what follows it exactly when what
    follows is non-empty and holds neither a dot nor a slash; every other
    name is returned unchanged. *)
Theorem stripExtension_characterised (s : JSString) :
  (forall base ext,
     s = base ++ dot :: ext -> ext <> [] -> forallb extChar ext = true ->
     stripExtension s = base) /\
  ((forall base ext,
      s = base ++ dot :: ext -> ext = [] \/ forallb extChar ext = false) ->
   stripExtension s = s).
Proof.
  split.
  - intros base ext -> Hne Hext. by apply stripExtension_extension.
  - intros H. destruct (decide (stripExtension s = s)) as [Heq|Hneq];
      [exact Heq|].
    destruct (stripExtension_changed s Hneq) as (ext & Hs & Hne & Hext).
    destruct (H _ _ Hs) as [->|Hf]; [contradiction | congruence].
Qed.

End ExtensionFacts.

Lemma stripExtension_characterised_witness :
  stripExtension (js "game.tar.gz") = js "game.tar" /\
  stripExtension (js "roms/v1.0/game") = js "roms/v1.0/game".
Proof.
  split.
  - apply (proj1 (stripExtension_characterised (js "game.tar.gz"))
             (js "game.tar") (js "gz")); [reflexivity | discriminate | reflexivity].
  - apply (proj2 (stripExtension_characterised (js "roms/v1.0/game"))).
    intros base ext H. right.
    destruct (decide (forallb extChar ext = false)) as [Hf|Hf]; [exact Hf|].
    apply not_false_is_true in Hf. exfalso.
    pose proof (stripExtension_extension base ext) as Hs.
    destruct ext as [|c ext].
    + apply (f_equal (@rev N)) in H. rewrite rev_app_distr in H.
      discriminate H.
    + specialize (Hs ltac:(discriminate) Hf). rewrite <- H in Hs.
      rewrite <- Hs in H. vm_compute in H.
      apply (f_equal (@length N)) in H. discriminate H.
Defined.

(** ** The existence cache, across operations *)

Section CacheFrames.

Variable platform : Platform.
Variable listDirectory : Backend -> JSString -> Outcome (list JSString).

Abbreviation check := (checkIfRomExists platform listDirectory).
Abbreviation refresh := (refreshRomCheck platform listDirectory).
Abbreviation checkMany := (checkMultipleRoms platform listDirectory).

(** A reset always completes, lists nothing, and what it leaves depends on
    the keys it was given only. *)
Lemma reset_run l s :
  outcome (resetRomsCheck l s) = Returned tt /\
  existsb isListing (trace (resetRomsCheck l s)) = false /\
  (forall k,
     fileChecks (final (resetRomsCheck l s)) !! k
     = (if existsb (fun f => Z.eqb (rom_id f) k) l then Some false
        else fileChecks s !! k)) /\
  (forall k,
     checking (final (resetRomsCheck l s)) !! k
     = (if existsb (fun f => Z.eqb (rom_id f) k) l then Some false
        else checking s !! k)).
Proof.
  revert s. induction l as [|g l IH]; intros s.
  - repeat split.
  - cbn [resetRomsCheck]. unfold bind, setFileChecks, setChecking. simpl.
    match goal with
    | |- context [resetRomsCheck l ?s1] =>
        destruct (IH s1) as (Ho & Ht & Hf & Hc);
        destruct (resetRomsCheck l s1) as [[o s2] t2]
    end.
    run_simpl. split; [exact Ho|]. split; [exact Ht|]. split.
    + intros k. rewrite Hf.
      destruct (existsb (fun f => Z.eqb (rom_id f) k) l);
        [by rewrite orb_true_r|].
      rewrite orb_false_r.
      destruct (Z.eqb_spec (rom_id g) k) as [->|Hne];
        [apply lookup_insert_eq | by apply lookup_insert_ne].
    + intros k. rewrite Hc.
      destruct (existsb (fun f => Z.eqb (rom_id f) k) l);
        [by rewrite orb_true_r|].
      rewrite orb_false_r.
      destruct (Z.eqb_spec (rom_id g) k) as [->|Hne];
        [apply lookup_insert_eq | by apply lookup_insert_ne].
Qed.

(** X2: [resetRomsCheck] writes [false] into the cache entry and into the
    in-flight flag of the [rom_id] of every file it is given, and leaves
    the entries and flags of every other [rom_id] as they were; it lists no
    directory and never fails. *)
Theorem resetRomsCheck_frame romsFiles s k :
  outcome (resetRomsCheck romsFiles s) = Returned tt /\
  existsb isListing (trace (resetRomsCheck romsFiles s)) = false /\
  ((exists f, In f romsFiles /\ rom_id f = k) ->
   fileChecks (final (resetRomsCheck romsFiles s)) !! k = Some false /\
   checking (final (resetRomsCheck romsFiles s)) !! k = Some false) /\
  ((forall f, In f romsFiles -> rom_id f <> k) ->
   fileChecks (final (resetRomsCheck romsFiles s)) !! k = fileChecks s !! k /\
   checking (final (resetRomsCheck romsFiles s)) !! k = checking s !! k).
Proof.
  destruct (reset_run romsFiles s) as (Ho & Ht & Hf & Hc).
  split; [exact Ho|]. split; [exact Ht|]. split.
  - intros (f & Hin & Hk). rewrite Hf, Hc.
    replace (existsb (fun f => Z.eqb (rom_id f) k) romsFiles) with true;
      [by split|].
    symmetry. apply existsb_exists. exists f. split; [exact Hin|].
    by apply Z.eqb_eq.
  - intros Hnone. rewrite Hf, Hc.
    replace (existsb (fun f => Z.eqb (rom_id f) k) romsFiles) with false;
      [by split|].
    symmetry. apply not_true_is_false. intros H.
    apply existsb_exists in H as (f & Hin & Hk).
    apply Z.eqb_eq in Hk. by apply (Hnone f).
Qed.

(** With a folder that has a URI, a check always leaves the entry of its
    file defined, and entries once defined stay defined. *)
Lemma check_defines f pf uri s :
  pf ≫= truthyUri = Some uri ->
  is_Some (fileChecks (final (check (Some f) pf s)) !! rom_id f) /\
  (forall k, is_Some (fileChecks s !! k) ->
             is_Some (fileChecks (final (check (Some f) pf s)) !! k)) /\
  length (List.filter isListing (trace (check (Some f) pf s))) = 1%nat.
Proof.
  intros Huri.
  assert (Hshape : exists r b,
    check (Some f) pf s
    = (Returned r, cached s (rom_id f) r,
       [ListFiles b uri; SetFileChecks (rom_id f) r])).
  { destruct (listDirectory (if isSafAvailable platform then SAF else ExpoFS) uri)
      as [entries|e] eqn:Hl.
    - eexists _, _. by apply check_listed.
    - eexists _, _. by eapply check_listing_failed. }
  destruct Hshape as (r & b & ->). run_simpl. split; [|split].
  - rewrite lookup_insert_eq. by eexists.
  - intros k Hk. destruct (decide (rom_id f = k)) as [->|Hne].
    + rewrite lookup_insert_eq. by eexists.
    + by rewrite lookup_insert_ne.
  - reflexivity.
Qed.

Lemma checkEach_defines roms pf uri s :
  pf ≫= truthyUri = Some uri ->
  (forall g, In g roms ->
     is_Some (fileChecks (final (checkEach platform listDirectory roms pf s))
                !! rom_id g)) /\
  (forall k, is_Some (fileChecks s !! k) ->
     is_Some (fileChecks (final (checkEach platform listDirectory roms pf s))
                !! k)) /\
  length (List.filter isListing
            (trace (checkEach platform listDirectory roms pf s)))
  = length roms.
Proof.
  intros Huri. revert s. induction roms as [|g roms IH]; intros s.
  - split; [intros g []|]. split; [by intros|reflexivity].
  - cbn [checkEach]. unfold bind.
    destruct (check_defines g pf uri s Huri) as (Hg & Hkeep & Hlen).
    destruct (check_cases platform listDirectory (Some g) pf s)
      as [|file u r _].
    + run_simpl. discriminate Hlen.
    + destruct (IH (cached s (rom_id file) r)) as (IHin & IHkeep & IHlen).
      destruct (checkEach platform listDirectory roms pf
                  (cached s (rom_id file) r)) as [[o s2] t2].
      run_simpl. split; [|split].
      * intros g' [<-|Hin]; [by apply IHkeep | by apply IHin].
      * intros k Hk. by apply IHkeep, Hkeep.
      * by rewrite IHlen.
Qed.

Lemma filter_regroup {A} (Q : A -> bool) t :
  List.filter Q (List.filter Q t ++ List.filter (fun e => negb (Q e)) t)
  = List.filter Q t.
Proof.
  rewrite List.filter_app.
  assert (H1 : List.filter Q (List.filter Q t) = List.filter Q t).
  { induction t as [|a t IH]; [reflexivity|]. simpl.
    destruct (Q a) eqn:E; simpl; [rewrite E; by f_equal | exact IH]. }
  assert (H2 : List.filter Q (List.filter (fun e => negb (Q e)) t) = []).
  { clear H1. induction t as [|a t IH]; [reflexivity|]. simpl.
    destruct (Q a) eqn:E; simpl; [exact IH | by rewrite E]. }
  rewrite H1, H2. apply app_nil_r.
Qed.

Lemma checkAll_defines roms pf uri s :
  pf ≫= truthyUri = Some uri ->
  (forall g, In g roms ->
     is_Some (fileChecks (final (checkAll platform listDirectory roms pf s))
                !! rom_id g)) /\
  (forall k, is_Some (fileChecks s !! k) ->
     is_Some (fileChecks (final (checkAll platform listDirectory roms pf s))
                !! k)) /\
  length (List.filter isListing
            (trace (checkAll platform listDirectory roms pf s)))
  = length roms.
Proof.
  intros Huri.
  destruct (checkAll_checkEach platform listDirectory roms pf s)
    as (_ & -> & ->).
  rewrite filter_regroup. by apply (checkEach_defines roms pf uri).
Qed.

Lemma filter_none {A} (p : A -> bool) (l : list A) :
  (forall x, In x l -> p x = false) -> List.filter p l = [].
Proof.
  induction l as [|x l IH]; intros H; [reflexivity|].
  simpl. rewrite (H x) by (by left). apply IH. intros y Hy. apply H. by right.
Qed.

(** X3: with a folder that has a URI, [checkMultipleRoms] lists the folder
    once for every file its filter lets through (files sharing a [rom_id]
    included) and leaves the entry of every such file defined; called again
    from a render of the cells it left, on the same files, it lets none
    through and does nothing. *)
Theorem checkMultipleRoms_once render romsFiles pf uri :
  folderUri pf = Some uri -> uri <> [] ->
  let r := checkMany render romsFiles (Some pf) render in
  length (List.filter isListing (trace r))
  = length (romsFilesToCheck render romsFiles) /\
  romsFilesToCheck (final r) romsFiles = [] /\
  (forall pf', checkMany (final r) romsFiles pf' (final r)
               = (Returned tt, final r, [])).
Proof.
  intros Huri Hne r.
  assert (Ht : Some pf ≫= truthyUri = Some uri)
    by (simpl; by apply truthyUri_Some).
  assert (Hr : r = checkAll platform listDirectory
                     (romsFilesToCheck render romsFiles) (Some pf) render).
  { unfold r, checkMultipleRoms.
    destruct (romsFilesToCheck render romsFiles) as [|g l] eqn:Hl;
      [reflexivity|].
    simpl in Ht. simpl. by rewrite Ht. }
  destruct (checkAll_defines (romsFilesToCheck render romsFiles)
              (Some pf) uri render Ht) as (Hin & Hkeep & Hlen).
  pose proof (checkAll_keeps_checking platform listDirectory
                (romsFilesToCheck render romsFiles) (Some pf) render)
    as Hflags.
  rewrite <- Hr in Hin, Hkeep, Hlen, Hflags.
  assert (Hnil : romsFilesToCheck (final r) romsFiles = []).
  { apply filter_none. intros g Hg. unfold notYetChecked.
    destruct (fileChecks (final r) !! rom_id g) as [b|] eqn:Hfin;
      [reflexivity|].
    rewrite Hflags.
    destruct (fileChecks render !! rom_id g) as [b|] eqn:Hren.
    - destruct (Hkeep (rom_id g)) as [b' Hb']; [by eexists | congruence].
    - destruct (negb (default false (checking render !! rom_id g))) eqn:Hc;
        [|reflexivity].
      destruct (Hin g) as [b' Hb']; [|congruence].
      unfold romsFilesToCheck. apply filter_In. split; [exact Hg|].
      unfold notYetChecked. by rewrite Hren, Hc. }
  split; [exact Hlen|]. split; [exact Hnil|].
  intros pf'. unfold checkMultipleRoms. by rewrite Hnil.
Qed.

End CacheFrames.

Lemma resetRomsCheck_frame_witness :
  fileChecks (final (resetRomsCheck [Sample.patched] Sample.discOnePresent))
    !! 8 = Some false /\
  checking (final (resetRomsCheck [Sample.patched] Sample.discOnePresent))
    !! 8 = Some false /\
  fileChecks (final (resetRomsCheck [Sample.patched] Sample.discOnePresent))
    !! 7 = Some true.
Proof.
  pose proof (resetRomsCheck_frame [Sample.patched] Sample.discOnePresent)
    as H.
  destruct (H 8) as (_ & _ & H8 & _).
  destruct (H 7) as (_ & _ & _ & H7).
  destruct H8 as [Hf Hc]; [exists Sample.patched; split; [by left | reflexivity]|].
  destruct H7 as [Hf7 _]; [intros f [<-|[]]; discriminate|].
  split; [exact Hf|]. split; [exact Hc|]. exact Hf7.
Defined.

Lemma checkMultipleRoms_once_witness :
  let r := checkMultipleRoms Sample.phone Sample.discOneOnly initialState
             [Sample.discOne; Sample.discTwo; Sample.patched]
             (Some Sample.psxFolder) initialState in
  length (List.filter isListing (trace r)) = 3%nat /\
  checkMultipleRoms Sample.phone Sample.discOneOnly (final r)
    [Sample.discOne; Sample.discTwo; Sample.patched]
    (Some Sample.psxFolder) (final r)
  = (Returned tt, final r, []).
Proof.
  pose proof (checkMultipleRoms_once Sample.phone Sample.discOneOnly
                initialState [Sample.discOne; Sample.discTwo; Sample.patched]
                Sample.psxFolder (js "content://roms/psx")
                eq_refl ltac:(discriminate)) as H.
  cbv zeta in H. destruct H as (H1 & _ & H3).
  split; [exact H1 | apply H3].
Defined.

(** ** The ROM cards and the refresh of the home screen *)

Section LibraryFacts.

Variable platform : Platform.
Variable listDirectory : Backend -> JSString -> Outcome (list JSString).
Variable searchPlatformFolder : Api.Rom -> Outcome (option PlatformFolder).

Abbreviation refreshRecent :=
  (Library.refreshRecent platform listDirectory searchPlatformFolder).
Abbreviation loadRecentRoms :=
  (Library.loadRecentRoms platform listDirectory searchPlatformFolder).

(** X4: the cache is keyed by [rom_id], so for a ROM whose files all carry
    one [rom_id] the card counts either none or all of its versions as
    downloaded, never some of them. *)
Theorem getDownloadedVersionsCount_all_or_none render rom k :
  Forall (fun f => rom_id f = k) (Api.files rom) ->
  Library.getDownloadedVersionsCount render rom = O \/
  Library.getDownloadedVersionsCount render rom = length (Api.files rom).
Proof.
  intros Hk. unfold Library.getDownloadedVersionsCount.
  destruct (Nat.eqb (length (Api.files rom)) 0); [by left|].
  destruct (default false (fileChecks render !! k)) eqn:Hd.
  - right. f_equal. apply forallb_filter_id. apply forallb_forall.
    intros f Hf. rewrite Forall_forall in Hk.
    unfold isRomDownloaded. rewrite (Hk f); [exact Hd|].
    by apply list_elem_of_In.
  - left. rewrite filter_none; [reflexivity|].
    intros f Hf. rewrite Forall_forall in Hk.
    unfold isRomDownloaded. rewrite (Hk f); [exact Hd|].
    by apply list_elem_of_In.
Qed.

(** X5: no operation of the hook raises an in-flight flag, so in every
    content the cells can have [isAnyVersionChecking] is [false] for every
    ROM: the cards never show a file as being checked. *)
Theorem isAnyVersionChecking_never render rom :
  ReachableState render -> Library.isAnyVersionChecking render rom = false.
Proof.
  intros Hr. unfold Library.isAnyVersionChecking.
  destruct (Nat.eqb (length (Api.files rom)) 0); [reflexivity|].
  apply not_true_is_false. intros H.
  apply existsb_exists in H as (f & _ & Hf).
  unfold isCheckingRom in Hf.
  rewrite (reachable_flags_false render Hr) in Hf. discriminate.
Qed.

Lemma resetRomsCheckAny_typed l :
  Library.resetRomsCheckAny (List.map Some l) = resetRomsCheck l.
Proof.
  induction l as [|f l IH]; [reflexivity|].
  simpl. by rewrite IH.
Qed.

Lemma firstFiles_typed roms :
  Forall (fun r => Api.files r <> []) roms ->
  exists l, List.map Library.firstFile roms = List.map Some l /\
            forall rom f, In rom roms -> Library.firstFile rom = Some f ->
                          In f l.
Proof.
  induction 1 as [|rom roms Hrom _ (l & Hl & Hin)].
  - exists []. split; [reflexivity | intros rom f []].
  - destruct (Api.files rom) as [|f0 fs] eqn:Hfiles; [contradiction|].
    exists (f0 :: l). cbn [List.map]. split.
    { rewrite Hl. unfold Library.firstFile. by rewrite Hfiles. }
    intros rom' f [<-|Hin'] Hf.
    + left. unfold Library.firstFile in Hf. rewrite Hfiles in Hf.
      simpl in Hf. congruence.
    + right. by eapply Hin.
Qed.

(** Refreshes created by a render leave alone every entry that reads
    [true] in that render. *)
Lemma refreshRecent_cached_key render roms s k :
  fileChecks render !! k = Some true ->
  fileChecks (final (refreshRecent render roms s)) !! k = fileChecks s !! k.
Proof.
  intros Hk. revert s. induction roms as [|rom roms IH]; intros s;
    [reflexivity|].
  cbn [Library.refreshRecent].
  destruct (searchPlatformFolder rom) as [[pf|]|e].
  - assert (Hstep :
      fileChecks (final (refreshRomCheck platform listDirectory render
                           (Library.firstFile rom) (Some pf) s)) !! k
      = fileChecks s !! k).
    { destruct (Library.firstFile rom) as [g|]; [|reflexivity].
      destruct (decide (fileChecks render !! rom_id g = Some true)) as [Hg|Hg].
      - by rewrite refresh_cached.
      - rewrite refresh_uncached by exact Hg.
        apply check_other_key. intros file [= <-] Heq. congruence. }
    specialize (IH (final (refreshRomCheck platform listDirectory render
                             (Library.firstFile rom) (Some pf) s))).
    destruct (refreshRecent render roms _) as [[o2 s2] t2].
    run_simpl. by rewrite IH.
  - specialize (IH s). destruct (refreshRecent render roms s) as [[o2 s2] t2].
    exact IH.
  - specialize (IH s). destruct (refreshRecent render roms s) as [[o2 s2] t2].
    exact IH.
Qed.

Lemma refreshRecent_all_cached render roms s :
  Forall (fun rom => forall g, Library.firstFile rom = Some g ->
                               fileChecks render !! rom_id g = Some true)
         roms ->
  exists o, refreshRecent render roms s = (o, s, []).
Proof.
  induction 1 as [|rom roms Hrom _ [o IH]]; [by eexists|].
  cbn [Library.refreshRecent].
  assert (Hstep : forall pf,
    refreshRomCheck platform listDirectory render
      (Library.firstFile rom) (Some pf) s
    = (match Library.firstFile rom with
       | Some _ => Returned true
       | None => Threw TypeError
       end, s, [])).
  { intros pf. destruct (Library.firstFile rom) as [g|]; [|reflexivity].
    by rewrite refresh_cached by (by apply Hrom). }
  destruct (searchPlatformFolder rom) as [[pf|]|e].
  - rewrite Hstep. unfold final, trace. simpl. rewrite IH. by eexists.
  - rewrite IH. by eexists.
  - rewrite IH. by eexists.
Qed.

(** X6: [loadRecentRoms(true)] resets the first file of every recent ROM
    and then refreshes it through the [refreshRomCheck] of the same render.
    A file that this render shows as downloaded gets its entry reset to
    [false], and the refresh, which still reads [true], returns at once:
    the file ends up reported absent without its folder having been
    listed.  When the render shows every first file as downloaded, the
    whole refresh lists no folder at all. *)
Theorem loadRecentRoms_drops_cached render roms s rom f :
  Forall (fun r => Api.files r <> []) roms ->
  In rom roms -> Library.firstFile rom = Some f ->
  fileChecks render !! rom_id f = Some true ->
  let r := loadRecentRoms render true roms s in
  fileChecks (final r) !! rom_id f = Some false /\
  isRomDownloaded (final r) f = false /\
  (Forall (fun rom' => forall g, Library.firstFile rom' = Some g ->
                                 fileChecks render !! rom_id g = Some true)
          roms ->
   existsb isListing (trace r) = false).
Proof.
  intros Hfiles Hin Hf Hk r.
  destruct (firstFiles_typed roms Hfiles) as (l & Hl & Hmem).
  assert (Hr : r = (Library.resetRomsCheckAny (List.map Library.firstFile roms)
                    ;;; refreshRecent render roms)%hook s).
  { unfold r, Library.loadRecentRoms.
    destruct roms; [destruct Hin | reflexivity]. }
  rewrite Hl, resetRomsCheckAny_typed in Hr. unfold bind in Hr.
  destruct (reset_run l s) as (Ho & Ht & Hfc & _).
  pose proof (reset_sets_false l s f (Hmem rom f Hin Hf)) as Hfalse.
  destruct (resetRomsCheck l s) as [[o s1] t1]. run_simpl. subst o.
  pose proof (refreshRecent_cached_key render roms s1 (rom_id f) Hk) as Hkey.
  pose proof (refreshRecent_all_cached render roms s1) as Hall.
  destruct (refreshRecent render roms s1) as [[o2 s2] t2]. run_simpl.
  rewrite Hr. simpl. unfold isRomDownloaded. simpl. rewrite Hkey, Hfalse.
  split; [reflexivity|]. split; [reflexivity|].
  intros Hcached. destruct (Hall Hcached) as [o Heq].
  injection Heq as _ _ ->. by rewrite app_nil_r.
Qed.

End LibraryFacts.

Lemma getDownloadedVersionsCount_all_or_none_witness :
  Library.getDownloadedVersionsCount Sample.discOnePresent Cases.twoDiscs = O \/
  Library.getDownloadedVersionsCount Sample.discOnePresent Cases.twoDiscs
  = 2%nat.
Proof.
  apply (getDownloadedVersionsCount_all_or_none
           Sample.discOnePresent Cases.twoDiscs 7).
  repeat constructor.
Defined.

Lemma isAnyVersionChecking_never_witness :
  Library.isAnyVersionChecking
    (perform Sample.phone Sample.discOneOnly
       (CallCheckIfRomExists (Some Sample.discOne) (Some Sample.psxFolder))
       initialState)
    Cases.twoDiscs = false.
Proof.
  apply isAnyVersionChecking_never.
  apply reachable_perform. apply reachable_initial.
Defined.

Lemma loadRecentRoms_drops_cached_witness :
  let r := Library.loadRecentRoms Sample.phone Sample.discOneOnly
             Cases.psxFolderFor Sample.discOnePresent true
             [Cases.twoDiscs] Sample.discOnePresent in
  fileChecks (final r) !! 7 = Some false /\
  isRomDownloaded (final r) Sample.discOne = false /\
  existsb isListing (trace r) = false.
Proof.
  pose proof (loadRecentRoms_drops_cached Sample.phone Sample.discOneOnly
                Cases.psxFolderFor Sample.discOnePresent [Cases.twoDiscs]
                Sample.discOnePresent Cases.twoDiscs Sample.discOne) as H.
  cbv zeta in H.
  destruct H as (H1 & H2 & H3).
  - repeat constructor. discriminate.
  - by left.
  - reflexivity.
  - reflexivity.
  - split; [exact H1|]. split; [exact H2|]. apply H3.
    repeat constructor. intros g [= <-]. reflexivity.
Defined.

(** ** Looking a file up, and deleting it *)

Section DetailsFacts.

Variable platform : Platform.
Variable listDirectory : Backend -> JSString -> Outcome (list JSString).



(** X7: [updateExistingFilePath] records a path only if
    [checkIfRomExists], run on the same folder, answers [true]: an entry
    whose name without extension equals the base name of the file contains
    it.  The recorded path is the folder URI, a slash and the base name,
    without any extension. *)
Theorem updateExistingFilePath_found_is_present f pf uri path s :
  folderUri pf = Some uri -> uri <> [] ->
  fst (RomDetails.updateExistingFilePath platform listDirectory f uri)
    = Some path ->
  outcome (checkIfRomExists platform listDirectory (Some f) (Some pf) s)
    = Returned true /\
  path = uri ++ js "/" ++ stripExtension (file_name f).
Proof.
  intros Huri Hne Hpath. unfold RomDetails.updateExistingFilePath,
    RomDetails.updateExistingFilePath_backend in Hpath.
  destruct (listDirectory (if isSafAvailable platform then SAF else ExpoFS) uri)
    as [entries|e] eqn:Hl; [|discriminate Hpath].
  cbn [fst] in Hpath.
  destruct (existsb _ entries) eqn:Hex; [|discriminate Hpath].
  injection Hpath as <-. split; [|reflexivity].
  rewrite (check_listed platform listDirectory f (Some pf) uri entries s);
    [|simpl; by apply truthyUri_Some | exact Hl].
  unfold outcome. cbn [fst]. f_equal.
  apply existsb_exists in Hex as (entry & Hin & Heq).
  apply bool_decide_eq_true in Heq.
  apply existsb_exists. exists entry. split; [exact Hin|].
  apply includes_substring. exists [].
  destruct (stripExtension_prefix entry) as [ext Hext].
  exists ext. simpl. by rewrite <- Heq.
Qed.


End DetailsFacts.

Lemma updateExistingFilePath_found_is_present_witness :
  outcome (checkIfRomExists Sample.phone Sample.discOneOnly
             (Some Sample.discOne) (Some Sample.psxFolder) initialState)
    = Returned true /\
  js "content://roms/psx/game (disc 1)"
  = js "content://roms/psx" ++ js "/" ++
    stripExtension (file_name Sample.discOne).
Proof.
  apply (updateExistingFilePath_found_is_present
           Sample.phone Sample.discOneOnly Sample.discOne Sample.psxFolder
           (js "content://roms/psx") (js "content://roms/psx/game (disc 1)")
           initialState);
    [reflexivity | discriminate | reflexivity].
Defined.


Example handleDeleteFile_leaves_cue :
  RomDetails.handleDeleteFile Sample.phone Cases.binAndCue
    Sample.discOneNames Sample.discOne (js "content://roms/psx")
  = [RomDetails.CallListFiles SAF (js "content://roms/psx");
     RomDetails.CallUnlink SAF (js "content://roms/psx/game (disc 1).bin")].
Proof. reflexivity. Qed.

(** Off Android the deletion lists with [FileSystem.readDirectoryAsync]
    and deletes with [FileSystem.deleteAsync]. *)
Example handleDeleteFile_on_iphone :
  RomDetails.handleDeleteFile Sample.iPhone Sample.denied
    Sample.discOneNames Sample.discOne (js "file:///roms/psx")
  = [RomDetails.CallReadDirectoryAsync (js "file:///roms/psx");
     RomDetails.CallUnlink ExpoFS (js "file:///roms/psx/game (disc 1).bin")].
Proof. reflexivity. Qed.

(** ** The concurrent downloads setting, saved and loaded *)

Section SettingsRoundTrip.

Import Settings.

Abbreviation step := (fun acc d : Z => acc * 10 + d).

Lemma digitValue_digit (d : Z) :
  0 <= d < 10 -> digitValue (Z.to_N (48 + d)) = Some d.
Proof.
  intros Hd. unfold digitValue.
  assert (H : Z.of_N (Z.to_N (48 + d)) = 48 + d) by (apply Z2N.id; lia).
  replace ((48 <=? Z.to_N (48 + d))%N) with true by (symmetry; apply N.leb_le; lia).
  replace ((Z.to_N (48 + d) <=? 57)%N) with true by (symmetry; apply N.leb_le; lia).
  simpl. f_equal. lia.
Qed.

Lemma decimalDigits_step fuel n acc :
  Downloads.decimalDigits (S fuel) n acc
  = if n <? 10 then Z.to_N (48 + n mod 10) :: acc
    else Downloads.decimalDigits fuel (n / 10) (Z.to_N (48 + n mod 10) :: acc).
Proof. reflexivity. Qed.

(** The digits written for [n] are read back as [n], in front of whatever
    follows that is not a digit. *)
Lemma decimalDigits_read fuel n acc :
  0 <= n < 2 ^ Z.of_nat (S fuel) ->
  exists ds scale,
    leadingDigits (Downloads.decimalDigits (S fuel) n acc)
    = ds ++ leadingDigits acc /\
    ds <> [] /\
    forall a0, fold_left step ds a0 = a0 * scale + n.
Proof.
  revert n acc. induction fuel as [|fuel IH]; intros n acc Hn.
  - assert (n < 10) by (change (2 ^ Z.of_nat 1) with 2 in Hn; lia).
    exists [n], 10. rewrite decimalDigits_step.
    replace (n <? 10) with true by (symmetry; apply Z.ltb_lt; lia).
    cbn [leadingDigits]. rewrite Z.mod_small by lia.
    rewrite digitValue_digit by lia.
    split; [reflexivity|]. split; [discriminate|]. intros a0. reflexivity.
  - rewrite decimalDigits_step.
    destruct (Z.ltb_spec n 10) as [Hlt|Hge].
    + exists [n], 10. cbn [leadingDigits]. rewrite Z.mod_small by lia.
      rewrite digitValue_digit by lia.
      split; [reflexivity|]. split; [discriminate|]. intros a0. reflexivity.
    + assert (Hdiv : 0 <= n / 10 < 2 ^ Z.of_nat (S fuel)).
      { split; [apply Z.div_pos; lia|].
        apply Z.div_lt_upper_bound; [lia|].
        rewrite (Nat2Z.inj_succ (S fuel)), Z.pow_succ_r in Hn by lia.
        lia. }
      destruct (IH (n / 10) (Z.to_N (48 + n mod 10) :: acc) Hdiv)
        as (ds & scale & Hread & Hne & Hfold).
      exists (ds ++ [n mod 10]), (scale * 10).
      split; [|split].
      * rewrite Hread. cbn [leadingDigits].
        rewrite digitValue_digit by (apply Z.mod_pos_bound; lia).
        by rewrite <- app_assoc.
      * intros H. by apply app_eq_nil in H as [-> _].
      * intros a0. rewrite fold_left_app, Hfold. simpl.
        pose proof (Z.div_mod n 10 ltac:(lia)). lia.
Qed.

Lemma decimalDigits_head fuel n acc :
  0 <= n ->
  exists c rest, Downloads.decimalDigits (S fuel) n acc = c :: rest /\
                 (48 <= c <= 57)%N.
Proof.
  revert n acc. induction fuel as [|fuel IH]; intros n acc Hn.
  - rewrite decimalDigits_step. cbn [Downloads.decimalDigits].
    pose proof (Z.mod_pos_bound n 10 ltac:(lia)).
    destruct (n <? 10); eexists _, _; (split; [reflexivity | lia]).
  - rewrite decimalDigits_step.
    pose proof (Z.mod_pos_bound n 10 ltac:(lia)).
    destruct (n <? 10); [eexists _, _; (split; [reflexivity | lia])|].
    apply IH. apply Z.div_pos; lia.
Qed.

Lemma log2_fuel n : 0 <= n -> 0 <= n < 2 ^ Z.of_nat (S (Z.to_nat (Z.log2 n))).
Proof.
  intros Hn. split; [exact Hn|].
  rewrite Nat2Z.inj_succ, Z2Nat.id by apply Z.log2_nonneg.
  destruct (Z.eq_dec n 0) as [->|Hz]; [reflexivity|].
  apply Z.log2_spec. lia.
Qed.

Lemma parseInt10_unsigned c rest :
  isStrWhiteSpaceChar c = false -> c <> 45%N -> c <> 43%N ->
  parseInt10 (c :: rest)
  = match leadingDigits (c :: rest) with
    | [] => None
    | d :: ds => Some (1 * mathInt (d :: ds))
    end.
Proof.
  intros Hws H45 H43. unfold parseInt10. cbn [trimStart]. rewrite Hws.
  destruct c as [|p]; [reflexivity|].
  do 6 (try destruct p as [p|p|]); try reflexivity; contradiction.
Qed.

(** Reading back what [toString] wrote gives the integer again. *)
Lemma parseInt10_integerToString (z : Z) :
  parseInt10 (SettingsStore.integerToString z) = Some z.
Proof.
  unfold SettingsStore.integerToString, Downloads.decimalString.
  destruct (Z.ltb_spec z 0) as [Hneg|Hpos].
  - replace (Z.to_nat (Z.log2 (- z)) + 1)%nat
      with (S (Z.to_nat (Z.log2 (- z)))) by lia.
    unfold parseInt10.
    cbn [trimStart]. replace (isStrWhiteSpaceChar 45) with false by reflexivity.
    destruct (decimalDigits_read (Z.to_nat (Z.log2 (- z))) (- z) []
                (log2_fuel (- z) ltac:(lia))) as (ds & scale & Hread & Hne & Hfold).
    cbn [leadingDigits] in Hread.
    destruct ds as [|d ds']; [contradiction|].
    rewrite Hread, app_nil_r. unfold mathInt. rewrite Hfold. f_equal; lia.
  - replace (Z.to_nat (Z.log2 z) + 1)%nat
      with (S (Z.to_nat (Z.log2 z))) by lia.
    destruct (decimalDigits_head (Z.to_nat (Z.log2 z)) z [] Hpos)
      as (c & rest & Hshape & Hc).
    destruct (decimalDigits_read (Z.to_nat (Z.log2 z)) z []
                (log2_fuel z Hpos)) as (ds & scale & Hread & Hne & Hfold).
    rewrite Hshape in *.
    rewrite parseInt10_unsigned; [| |lia|lia].
    + change (leadingDigits []) with (@nil Z) in Hread.
      rewrite Hread, app_nil_r.
      destruct ds as [|d ds']; [contradiction|].
      unfold mathInt. rewrite Hfold. f_equal; lia.
    + apply not_true_is_false. intros Hws.
      apply existsb_exists in Hws as (w & Hw & Heq).
      apply N.eqb_eq in Heq. subst w. simpl in Hw.
      repeat (destruct Hw as [<-|Hw]; [lia|]). destruct Hw.
Qed.

(** X9: saving a value stores its decimal writing and loading parses it
    back: every option of the picker, once saved, is loaded as itself, and
    so is any integer from 1 to 5; any other safe integer that was saved
    is loaded as the default 2, although the screen shows the saved value
    until then.  A save that fails changes neither the store nor the
    screen. *)
Theorem concurrentDownloads_round_trip value stored shown :
  (In value SettingsStore.pickerOptions ->
   loadConcurrentDownloadsSetting
     (Returned (fst (SettingsStore.saveConcurrentDownloadsSetting
                       value true stored shown))) = value) /\
  (1 <= value <= 5 ->
   loadConcurrentDownloadsSetting
     (Returned (fst (SettingsStore.saveConcurrentDownloadsSetting
                       value true stored shown))) = value) /\
  (SettingsStore.isSafeInteger value = true ->
   value < 1 \/ 5 < value ->
   loadConcurrentDownloadsSetting
     (Returned (fst (SettingsStore.saveConcurrentDownloadsSetting
                       value true stored shown))) = 2 /\
   snd (SettingsStore.saveConcurrentDownloadsSetting value true stored shown)
   = value) /\
  SettingsStore.saveConcurrentDownloadsSetting value false stored shown
  = (stored, shown).
Proof.
  assert (Hload : forall v,
    loadConcurrentDownloadsSetting
      (Returned (fst (SettingsStore.saveConcurrentDownloadsSetting
                        v true stored shown)))
    = if (1 <=? v) && (v <=? 5) then v else 2).
  { intros v. unfold SettingsStore.saveConcurrentDownloadsSetting,
      loadConcurrentDownloadsSetting. cbn [fst].
    by rewrite parseInt10_integerToString. }
  split; [|split; [|split]].
  - intros Hin. rewrite Hload.
    simpl in Hin. repeat (destruct Hin as [<-|Hin]; [reflexivity|]).
    destruct Hin.
  - intros Hv. rewrite Hload.
    destruct (Z.leb_spec 1 value), (Z.leb_spec value 5); simpl; lia.
  - intros _ Hv. rewrite Hload. split; [|reflexivity].
    destruct (Z.leb_spec 1 value), (Z.leb_spec value 5); simpl; lia.
  - reflexivity.
Qed.

End SettingsRoundTrip.

Lemma concurrentDownloads_round_trip_witness :
  Settings.loadConcurrentDownloadsSetting
    (Returned (fst (SettingsStore.saveConcurrentDownloadsSetting
                      3 true None 2))) = 3 /\
  Settings.loadConcurrentDownloadsSetting
    (Returned (fst (SettingsStore.saveConcurrentDownloadsSetting
                      12 true None 2))) = 2.
Proof.
  split.
  - apply (proj1 (concurrentDownloads_round_trip 3 None 2)).
    right; right; left; reflexivity.
  - apply (proj1 (proj2 (proj2 (concurrentDownloads_round_trip 12 None 2)))).
    + reflexivity.
    + right; lia.
Defined.

(** ** The grids of ROM cards *)

Section GridFacts.

Import Grid.

Lemma length_emptyItems n : length (emptyItems n) = Z.to_nat n.
Proof. unfold emptyItems. by rewrite length_map, length_seq. Qed.

(** X10: for a positive number of columns, [prepareGridData] returns the
    ROMs in their order followed by fewer than [columns] fillers, as many
    as it takes for the length to be a multiple of [columns] (none when it
    already is one); for zero columns or fewer it adds nothing. *)
Theorem prepareGridData_full_rows columns data :
  (0 < columns ->
   exists fillers,
     prepareGridData columns data
     = List.map RomItem data ++ emptyItems fillers /\
     0 <= fillers < columns /\
     (Z.of_nat (length (prepareGridData columns data))) mod columns = 0 /\
     (fillers = 0 <-> (Z.of_nat (length data)) mod columns = 0)) /\
  (columns <= 0 -> prepareGridData columns data = List.map RomItem data).
Proof.
  split.
  - intros Hc. unfold prepareGridData.
    replace (columns =? 0) with false by (symmetry; apply Z.eqb_neq; lia).
    rewrite Z.rem_mod_nonneg by lia.
    pose proof (Z.mod_pos_bound (Z.of_nat (length data)) columns Hc) as Hr.
    destruct (Z.eqb_spec (Z.of_nat (length data) mod columns) 0) as [Hz|Hnz].
    + exists 0. split; [by rewrite app_nil_r|]. split; [lia|].
      split; [|by split].
      by rewrite length_map.
    + exists (columns - Z.of_nat (length data) mod columns).
      split; [reflexivity|]. split; [lia|]. split; [|split; lia].
      rewrite length_app, length_map, length_emptyItems.
      rewrite Nat2Z.inj_add, Z2Nat.id by lia.
      pose proof (Z.div_mod (Z.of_nat (length data)) columns ltac:(lia)) as Hdm.
      replace (Z.of_nat (length data) +
               (columns - Z.of_nat (length data) mod columns))
        with ((Z.of_nat (length data) / columns + 1) * columns) by lia.
      apply Z.mod_mul. lia.
  - intros Hc. unfold prepareGridData.
    destruct (Z.eqb_spec columns 0) as [_|Hnz]; [reflexivity|].
    destruct (Z.rem (Z.of_nat (length data)) columns =? 0) eqn:Hrem;
      [reflexivity|].
    unfold emptyItems.
    replace (Z.to_nat (columns - Z.rem (Z.of_nat (length data)) columns))
      with O; [by rewrite app_nil_r|].
    pose proof (Z.rem_nonneg (Z.of_nat (length data)) columns ltac:(lia)
                  ltac:(lia)).
    lia.
Qed.

End GridFacts.

Lemma prepareGridData_full_rows_witness :
  exists fillers,
    Grid.prepareGridData 3 [Cases.twoDiscs; Cases.patchedRom;
                            Cases.twoDiscs; Cases.patchedRom]
    = List.map Grid.RomItem [Cases.twoDiscs; Cases.patchedRom;
                             Cases.twoDiscs; Cases.patchedRom]
      ++ Grid.emptyItems fillers /\
    0 <= fillers < 3 /\
    (Z.of_nat (length (Grid.prepareGridData 3
                         [Cases.twoDiscs; Cases.patchedRom;
                          Cases.twoDiscs; Cases.patchedRom]))) mod 3 = 0 /\
    (fillers = 0 <-> (Z.of_nat 4) mod 3 = 0).
Proof.
  apply (proj1 (prepareGridData_full_rows 3
                  [Cases.twoDiscs; Cases.patchedRom;
                   Cases.twoDiscs; Cases.patchedRom])).
  lia.
Defined.

(** ** The selected file and the processed downloads *)

Section SelectedFile.

Import Details.

(** X11: when the ROM has files, [getSelectedFile] returns one of them for
    every index: the file at the index when the index is in range, the
    first file otherwise; without a ROM or without files it returns
    nothing. *)
Theorem getSelectedFile_member rom i :
  Api.files rom <> [] ->
  (exists f, getSelectedFile (Some rom) i = Some f /\ In f (Api.files rom)) /\
  (forall f, 0 <= i -> Api.files rom !! Z.to_nat i = Some f ->
             getSelectedFile (Some rom) i = Some f) /\
  (i < 0 \/ Z.of_nat (length (Api.files rom)) <= i ->
   getSelectedFile (Some rom) i = head (Api.files rom)).
Proof.
  intros Hne. unfold getSelectedFile.
  destruct (Api.files rom) as [|f0 fs] eqn:Hfiles; [contradiction|].
  cbn [length Nat.eqb head].
  split; [|split].
  - destruct (0 <=? i).
    + destruct ((f0 :: fs) !! Z.to_nat i) as [f|] eqn:Hl.
      * exists f. split; [reflexivity|].
        apply list_elem_of_In. by eapply list_elem_of_lookup_2.
      * exists f0. split; [reflexivity | by left].
    + exists f0. split; [reflexivity | by left].
  - intros f Hi Hl.
    replace (0 <=? i) with true by (symmetry; apply Z.leb_le; lia).
    by rewrite Hl.
  - intros [Hneg|Hbig].
    + by replace (0 <=? i) with false by (symmetry; apply Z.leb_gt; lia).
    + destruct (0 <=? i); [|reflexivity].
      rewrite (lookup_ge_None_2 (f0 :: fs) (Z.to_nat i)); [reflexivity|].
      simpl in *. lia.
Qed.

Lemma fold_union_elem (l : list CompletedDownload) (set : gset JSString) x :
  x ∈ fold_left (fun set download => {[ downloadId download ]} ∪ set) l set
  <-> x ∈ set \/ exists d, In d l /\ downloadId d = x.
Proof.
  revert set. induction l as [|d l IH]; intros set; simpl.
  - split; [by left | intros [H|(d & [] & _)]; exact H].
  - rewrite IH. rewrite elem_of_union, elem_of_singleton. split.
    + intros [[->|H]|(d' & Hin & Hd)]; eauto.
    + intros [H|(d' & [<-|Hin] & Hd)]; eauto.
Qed.

(** What the effect takes as new. *)
Lemma processCompleted_fresh rom i completed processed d :
  In d (fst (processCompleted rom i completed processed)) <->
  (In d completed /\ (downloadId d ∉ processed) /\
   exists current,
     getSelectedFile rom i = Some current /\
     rom_id (romFile d) = rom_id current).
Proof.
  unfold processCompleted. destruct rom as [rom|];
    [|simpl; split; [intros [] | intros (_ & _ & c & [=] & _)]].
  destruct (Nat.ltb 0 (length completed)) eqn:Hlen.
  - destruct (getSelectedFile (Some rom) i) as [current|].
    + cbn [fst]. rewrite filter_In, andb_true_iff, Z.eqb_eq, negb_true_iff,
        bool_decide_eq_false.
      split.
      * intros (Hin & Hrom & Hp). eauto.
      * intros (Hin & Hp & c & [= <-] & Hrom). eauto.
    + simpl. split; [intros [] | intros (_ & _ & c & [=] & _)].
  - apply Nat.ltb_ge in Hlen. destruct completed; [|simpl in Hlen; lia].
    simpl. split; [intros [] | intros ([] & _)].
Qed.

Lemma processCompleted_processed rom i completed processed x :
  x ∈ snd (processCompleted rom i completed processed) <->
  x ∈ processed \/
  exists d, In d (fst (processCompleted rom i completed processed)) /\
            downloadId d = x.
Proof.
  unfold processCompleted. destruct rom as [rom|];
    [|simpl; split; [by left | intros [H|(d & [] & _)]; exact H]].
  destruct (Nat.ltb 0 (length completed)).
  - destruct (getSelectedFile (Some rom) i) as [current|].
    + cbn [fst snd]. apply fold_union_elem.
    + simpl. split; [by left | intros [H|(d & [] & _)]; exact H].
  - simpl. split; [by left | intros [H|(d & [] & _)]; exact H].
Qed.

Lemma processCompleted_shape rom i completed processed :
  snd (processCompleted rom i completed processed)
  = fold_left (fun set d => {[ downloadId d ]} ∪ set)
      (fst (processCompleted rom i completed processed)) processed.
Proof.
  unfold processCompleted. destruct rom as [rom|]; [|reflexivity].
  destruct (Nat.ltb 0 (length completed)); [|reflexivity].
  by destruct (getSelectedFile (Some rom) i).
Qed.

(** X12: the effect that listens for completed downloads takes as new
    only completed downloads whose id is not in its set of processed ids,
    and adds the ids it takes to the set, which it never shrinks: run
    again on the same downloads it takes none, and as long as the set
    still holds what the run left, no later run, on whatever ROM, file or
    list, takes one of them again.  The set is emptied whenever the ROM
    id of the route changes, as it is empty when the screen mounts; the
    downloads taken before are then taken again. *)
Theorem processCompleted_once rom i completed processed :
  let fresh := fst (processCompleted rom i completed processed) in
  let processed' := snd (processCompleted rom i completed processed) in
  (forall d, In d fresh -> In d completed /\ downloadId d ∉ processed) /\
  (forall d, In d fresh -> downloadId d ∈ processed') /\
  processed ⊆ processed' /\
  processCompleted rom i completed processed' = ([], processed') /\
  (forall rom2 i2 completed2 later d,
     processed' ⊆ later ->
     In d (fst (processCompleted rom2 i2 completed2 later)) ->
     downloadId d ∉ processed') /\
  (forall c id, onRomChange (Some (c :: id)) processed' = mounted) /\
  (forall d, In d fresh ->
     In d (fst (processCompleted rom i completed mounted))).
Proof.
  intros fresh processed'.
  split; [|split; [|split; [|split; [|split; [|split]]]]].
  - intros d Hd. apply processCompleted_fresh in Hd. tauto.
  - intros d Hd. apply processCompleted_processed. right. eauto.
  - intros x Hx. apply processCompleted_processed. by left.
  - assert (Hnone : fst (processCompleted rom i completed processed') = []).
    { destruct (fst (processCompleted rom i completed processed'))
        as [|d l] eqn:E; [reflexivity|]. exfalso.
      assert (Hd : In d (fst (processCompleted rom i completed processed')))
        by (rewrite E; by left).
      apply processCompleted_fresh in Hd as (Hin & Hnot & Hcur).
      apply Hnot. apply processCompleted_processed.
      destruct (decide (downloadId d ∈ processed)) as [Hp|Hp]; [by left|].
      right. exists d. split; [|reflexivity].
      apply processCompleted_fresh. tauto. }
    pose proof (processCompleted_shape rom i completed processed') as Hsnd.
    rewrite Hnone in Hsnd. simpl in Hsnd.
    destruct (processCompleted rom i completed processed') as [l p].
    simpl in *. by subst.
  - intros rom2 i2 completed2 later d Hsub Hd Hin.
    apply processCompleted_fresh in Hd as (_ & Hnot & _).
    apply Hnot, Hsub, Hin.
  - reflexivity.
  - intros d Hd. apply processCompleted_fresh in Hd as (Hin & _ & Hcur).
    apply processCompleted_fresh. split; [exact Hin|]. split; [|exact Hcur].
    unfold mounted. set_solver.
Qed.

End SelectedFile.

Lemma getSelectedFile_member_witness :
  Details.getSelectedFile (Some Cases.twoDiscs) 1 = Some Sample.discTwo /\
  Details.getSelectedFile (Some Cases.twoDiscs) 5 = Some Sample.discOne.
Proof.
  pose proof (getSelectedFile_member Cases.twoDiscs) as H.
  split.
  - apply (proj1 (proj2 (H 1 ltac:(discriminate)))); [lia | reflexivity].
  - apply (proj2 (proj2 (H 5 ltac:(discriminate)))). right. simpl. lia.
Defined.

(** ** The order of the downloads list *)

Section DownloadOrder.

Import DownloadList.

Variable Item : Type.
Variable status : Item -> DownloadQueue.Status.
Variable startTime : Item -> option Z.

Abbreviation compare := (compareDownloads Item status startTime).
Abbreviation sort := (sortDownloads Item status startTime).
Abbreviation priority := (fun a => statusPriority (status a)).
Abbreviation time := (fun a => default 0 (startTime a)).

Lemma orElse_priority st : orElse (statusPriority st) 6 = statusPriority st.
Proof. by destruct st. Qed.

Lemma orElse_zero x : orElse x 0 = x.
Proof. unfold orElse. destruct (Z.eqb_spec x 0); lia. Qed.

(** The comparator puts [a] no later than [b] exactly when [a] has the
    smaller priority number or, on a tie, a start time that is not
    older. *)
Lemma compare_le a b :
  compare a b <= 0 <->
  priority a < priority b \/ (priority a = priority b /\ time b <= time a).
Proof.
  unfold compareDownloads. rewrite !orElse_priority, !orElse_zero.
  destruct (Z.eqb_spec (statusPriority (status a)) (statusPriority (status b)));
    lia.
Qed.

Lemma insertSorted_perm a l :
  insertSorted Item status startTime a l ≡ₚ a :: l.
Proof.
  induction l as [|b l IH]; [reflexivity|]. simpl.
  destruct (compare a b <=? 0); [reflexivity|].
  rewrite IH. apply Permutation_swap.
Qed.

Lemma insertSorted_sorted a l :
  Sorted (fun x y => compare x y <= 0) l ->
  Sorted (fun x y => compare x y <= 0)
         (insertSorted Item status startTime a l).
Proof.
  induction 1 as [|b l Hl IH Hb]; simpl.
  - by repeat constructor.
  - destruct (Z.leb_spec (compare a b) 0) as [Hab|Hba].
    + constructor; [by constructor|]. by constructor.
    + constructor; [exact IH|].
      assert (Hb_a : compare b a <= 0).
      { apply compare_le. pose proof (proj2 (compare_le a b)) as H. lia. }
      destruct l as [|c l]; simpl; [by constructor|].
      destruct (compare a c <=? 0); constructor; [exact Hb_a|].
      by inversion Hb.
Qed.

(** X13: the comparator of the downloads list is a total preorder: of two
    items one is always placed no later than the other, and "no later
    than" is transitive; it orders by status (DOWNLOADING, EXTRACTING,
    MOVING, PENDING, PAUSED, then FAILED and CANCELLED together, then
    COMPLETED) and, within a status rank, by start time, newest first.
    Sorting with it gives the same items, each next to one it may
    precede. *)
Theorem compareDownloads_order :
  (forall a b, compare a b <= 0 \/ compare b a <= 0) /\
  (forall a b c, compare a b <= 0 -> compare b c <= 0 -> compare a c <= 0) /\
  (forall a b, compare a b = - compare b a) /\
  (forall a b,
     compareDownloads Item status startTime a b <= 0 <->
     statusPriority (status a) < statusPriority (status b) \/
     (statusPriority (status a) = statusPriority (status b) /\
      time b <= time a)) /\
  (forall l,
     sortDownloads Item status startTime l ≡ₚ l /\
     Sorted (fun x y => compare x y <= 0)
       (sortDownloads Item status startTime l)).
Proof.
  split; [|split; [|split; [|split]]].
  - intros a b. rewrite !compare_le. lia.
  - intros a b c. rewrite !compare_le. lia.
  - intros a b. unfold compareDownloads.
    rewrite !orElse_priority, !orElse_zero.
    destruct (Z.eqb_spec (statusPriority (status a))
                         (statusPriority (status b)));
      destruct (Z.eqb_spec (statusPriority (status b))
                           (statusPriority (status a))); lia.
  - apply compare_le.
  - induction l as [|a l [IHp IHs]]; [split; [reflexivity | constructor]|].
    simpl. split.
    + rewrite insertSorted_perm. by constructor.
    + by apply insertSorted_sorted.
Qed.

End DownloadOrder.

(** ** The base URL of the API client *)

Section BaseUrl.

Import ApiUrl.

Lemma dropTrailingSlash_snoc (url : JSString) c :
  dropTrailingSlash (url ++ [c])
  = if N.eqb c slash then url else url ++ [c].
Proof.
  induction url as [|d url IH].
  - simpl. by destruct (N.eqb c slash).
  - cbn [app dropTrailingSlash]. rewrite IH.
    replace (Nat.eqb (length (url ++ [c])) 0) with false
      by (rewrite length_app; simpl; symmetry; apply Nat.eqb_neq; lia).
    rewrite andb_false_r. by destruct (N.eqb c slash).
Qed.

(** X14: [updateBaseUrl] removes one slash from the end of the URL and
    nothing else: a URL that does not end in a slash is kept as it is, and
    the stored base URL still ends in a slash exactly when the URL given
    ended in two. *)
Theorem updateBaseUrl_one_slash (newUrl : JSString) :
  (forall url, newUrl = url ++ [slash] -> updateBaseUrl newUrl = url) /\
  ((forall url, newUrl <> url ++ [slash]) -> updateBaseUrl newUrl = newUrl) /\
  ((exists url, updateBaseUrl newUrl = url ++ [slash]) <->
   (exists url, newUrl = url ++ [slash; slash])).
Proof.
  unfold updateBaseUrl.
  induction newUrl as [|c url _] using rev_ind.
  - split; [intros url H; by destruct url|]. split; [reflexivity|].
    split; intros [url H]; by destruct url.
  - rewrite dropTrailingSlash_snoc.
    destruct (N.eqb_spec c slash) as [->|Hc].
    + split; [intros url' H; by apply app_inj_tail in H as [-> _]|].
      split; [intros H; by destruct (H url)|].
      split; intros [url' H].
      * exists url'. rewrite H. by rewrite <- app_assoc.
      * exists url'. change [slash; slash] with ([slash] ++ [slash]) in H.
        rewrite app_assoc in H. by apply app_inj_tail in H as [-> _].
    + split; [intros url' H; apply app_inj_tail in H as [_ ->]; contradiction|].
      split; [reflexivity|].
      split; intros [url' H].
      * apply app_inj_tail in H as [_ ->]. contradiction.
      * change [slash; slash] with ([slash] ++ [slash]) in H.
        rewrite app_assoc in H. apply app_inj_tail in H as [_ ->].
        contradiction.
Qed.

End BaseUrl.

Lemma updateBaseUrl_one_slash_witness :
  ApiUrl.updateBaseUrl (js "http://romm:8080/") = js "http://romm:8080" /\
  ApiUrl.updateBaseUrl (js "http://romm:8080") = js "http://romm:8080".
Proof.
  split.
  - apply (proj1 (updateBaseUrl_one_slash (js "http://romm:8080/"))).
    reflexivity.
  - apply (proj1 (proj2 (updateBaseUrl_one_slash (js "http://romm:8080")))).
    intros url H. apply (f_equal (@rev N)) in H.
    rewrite rev_app_distr in H. discriminate H.
Defined.

(** ** The API client *)

Section ApiClientFacts.

Import ApiClient.

Lemma js_username_password : js "username" <> js "password".
Proof. discriminate. Qed.

(** X15: on a response whose status is not 2xx, [request] fails; for the
    statuses 400 to 499 (all of them, 404 and 422 as much as 401) it first
    removes the stored credentials and fails with the "Unauthorized"
    error, for the other statuses from 100 to 599 it fails with the HTTP
    error and leaves the client as it is.  When both deletions succeed a
    4xx response leaves the client without credentials, in memory and in
    the secure store.  A request never changes the base URL or the session
    flag. *)
Theorem request_by_status status body deletions c :
  100 <= status <= 599 ->
  (400 <= status <= 499 ->
   request (Response status body) deletions c
   = (Threw unauthorized, removeCredentialsFromStorage deletions c)) /\
  (status < 200 \/ 300 <= status < 400 \/ 500 <= status ->
   request (Response status body) deletions c
   = (Threw (httpError status), c)) /\
  (200 <= status <= 299 ->
   snd (request (Response status body) deletions c) = c) /\
  (400 <= status <= 499 ->
   let c' := snd (request (Response status body) bothSucceed c) in
   credentials c' = None /\
   secureStore c' !! js "username" = None /\
   secureStore c' !! js "password" = None) /\
  baseUrl (snd (request (Response status body) deletions c)) = baseUrl c /\
  isSessionValid (snd (request (Response status body) deletions c))
  = isSessionValid c.
Proof.
  intros Hstatus.
  assert (Hrem : Z.rem status 400 = status mod 400)
    by (apply Z.rem_mod_nonneg; lia).
  assert (Hcases : (400 <= status <= 499 -> status mod 400 = status - 400) /\
                   (status < 400 -> status mod 400 = status) /\
                   (500 <= status -> status mod 400 = status - 400)).
  { repeat split; intros H.
    - symmetry. apply (Z.mod_unique status 400 1); lia.
    - apply Z.mod_small. lia.
    - symmetry. apply (Z.mod_unique status 400 1); lia. }
  destruct Hcases as (H4 & Hlow & Hhigh).
  unfold request, ok. rewrite Hrem.
  split; [|split; [|split; [|split; [|split]]]].
  - intros H. rewrite (H4 H).
    replace (200 <=? status) with true by (symmetry; apply Z.leb_le; lia).
    replace (status <=? 299) with false by (symmetry; apply Z.leb_gt; lia).
    simpl. by replace (status - 400 <? 100) with true
      by (symmetry; apply Z.ltb_lt; lia).
  - intros H.
    assert (Hnot : (200 <=? status) && (status <=? 299) = false).
    { apply andb_false_iff.
      destruct (Z.leb_spec 200 status), (Z.leb_spec status 299); auto; lia. }
    rewrite Hnot. simpl.
    replace (status mod 400 <? 100) with false; [reflexivity|].
    symmetry. apply Z.ltb_ge.
    destruct (Z.lt_ge_cases status 400); [rewrite Hlow by lia | rewrite Hhigh by lia];
      lia.
  - intros H.
    replace (200 <=? status) with true by (symmetry; apply Z.leb_le; lia).
    replace (status <=? 299) with true by (symmetry; apply Z.leb_le; lia).
    simpl. by destruct body.
  - intros H. rewrite (H4 H).
    replace (200 <=? status) with true by (symmetry; apply Z.leb_le; lia).
    replace (status <=? 299) with false by (symmetry; apply Z.leb_gt; lia).
    replace (status - 400 <? 100) with true
      by (symmetry; apply Z.ltb_lt; lia).
    simpl. split; [reflexivity|]. split.
    + rewrite lookup_delete_ne by (intros H'; by apply js_username_password).
      apply lookup_delete_eq.
    + apply lookup_delete_eq.
  - destruct (negb ((200 <=? status) && (status <=? 299)));
      [destruct (status mod 400 <? 100); [|reflexivity];
       unfold removeCredentialsFromStorage;
       destruct (usernameCall deletions && passwordCall deletions);
       reflexivity
      | by destruct body].
  - destruct (negb ((200 <=? status) && (status <=? 299)));
      [destruct (status mod 400 <? 100); [|reflexivity];
       unfold removeCredentialsFromStorage;
       destruct (usernameCall deletions && passwordCall deletions);
       reflexivity
      | by destruct body].
Qed.

(** X16: [logout] drops the credentials but keeps the session flag, so a
    client whose session was validated still answers [isAuthenticated]
    with [true] after it; [clearAuth] resets the flag as well.  Either
    way the credentials stay in memory when a deletion in the secure
    store fails. *)
Theorem logout_keeps_session deletions c :
  isAuthenticated (logout deletions c)
  = (isSessionValid c
     || (isAuthenticated c
         && negb (usernameCall deletions && passwordCall deletions))) /\
  isAuthenticated (clearAuth deletions c)
  = (match credentials c with Some _ => true | None => false end
     && negb (usernameCall deletions && passwordCall deletions)) /\
  (isSessionValid c = true -> isAuthenticated (logout deletions c) = true) /\
  isAuthenticated (clearAuth bothSucceed c) = false.
Proof.
  unfold isAuthenticated, logout, clearAuth, removeCredentialsFromStorage.
  destruct (usernameCall deletions), (passwordCall deletions); simpl;
    destruct (credentials c), (isSessionValid c); simpl; repeat split;
    try reflexivity; intros; congruence.
Qed.

(** X17: [checkSession] never fails; it answers [true] exactly when the
    request for the current user succeeds with a truthy body, and leaves
    the session flag equal to its answer. *)
Theorem checkSession_flag fetched deletions c :
  isSessionValid (snd (checkSession fetched deletions c))
  = fst (checkSession fetched deletions c) /\
  (fst (checkSession fetched deletions c) = true <->
   exists status payload,
     fetched = Response status (Some (value payload)) /\
     200 <= status <= 299).
Proof.
  unfold checkSession, request.
  destruct fetched as [e|status body]; simpl.
  - split; [reflexivity|]. split; [discriminate|].
    intros (st & p & Heq & _). discriminate Heq.
  - unfold ok.
    destruct (Z.leb_spec 200 status) as [Hlo|Hlo],
             (Z.leb_spec status 299) as [Hhi|Hhi]; simpl.
    + destruct body as [[|payload]|]; simpl; (split; [reflexivity|]).
      * split; [discriminate|]. intros (st & p & Heq & _). discriminate Heq.
      * split; [intros _; by eauto | reflexivity].
      * split; [discriminate|]. intros (st & p & Heq & _). discriminate Heq.
    + destruct (Z.rem status 400 <? 100); simpl; (split; [reflexivity|]);
        (split; [discriminate|]); intros (st & p & Heq & Hst);
        injection Heq as -> _; lia.
    + destruct (Z.rem status 400 <? 100); simpl; (split; [reflexivity|]);
        (split; [discriminate|]); intros (st & p & Heq & Hst);
        injection Heq as -> _; lia.
    + lia.
Qed.

(** X18: credentials saved by a login are in the secure store, and the
    next start of the client finds them again exactly when the read of
    the server URL and the two reads of the credentials succeed and the
    user name and the password are both non-empty.  The client is marked
    as loaded exactly when the read of the server URL succeeded: the
    constructor handles no failure of that read, after which the
    credentials are never loaded. *)
Theorem credentials_survive_restart cr c serverUrlRead calls :
  let saved := saveCredentialsToStorage bothSucceed cr c in
  let restarted := started serverUrlRead calls (secureStore saved) in
  credentials saved = Some cr /\
  secureStore saved !! js "username" = Some (username cr) /\
  secureStore saved !! js "password" = Some (password cr) /\
  credentials restarted
  = (if serverUrlRead && (usernameCall calls && passwordCall calls)
        && (truthy (username cr) && truthy (password cr))
     then Some cr else None) /\
  credentialsLoaded restarted = serverUrlRead.
Proof.
  unfold started, saveCredentialsToStorage, onServerUrlRead,
    loadCredentialsFromStorage, constructed. simpl.
  assert (Hu : (<[js "password" := password cr]>
                  (<[js "username" := username cr]> (secureStore c)))
               !! js "username" = Some (username cr)).
  { rewrite lookup_insert_ne by (intros H; by apply js_username_password).
    apply lookup_insert_eq. }
  split; [reflexivity|]. split; [exact Hu|].
  split; [apply lookup_insert_eq|].
  destruct serverUrlRead; [|by split].
  simpl. split; [|reflexivity].
  destruct (usernameCall calls && passwordCall calls); [|reflexivity].
  rewrite Hu, lookup_insert_eq. destruct cr as [u p]. simpl.
  by destruct (truthy u && truthy p).
Qed.

End ApiClientFacts.

Lemma credentials_survive_restart_witness :
  ApiClient.credentials
    (ApiClient.started true ApiClient.bothSucceed
       (ApiClient.secureStore
          (ApiClient.saveCredentialsToStorage ApiClient.bothSucceed
             {| ApiClient.username := js "ash"; ApiClient.password := js "pikachu" |}
             (ApiClient.constructed ∅))))
  = Some {| ApiClient.username := js "ash"; ApiClient.password := js "pikachu" |} /\
  ApiClient.credentialsLoaded
    (ApiClient.started false ApiClient.bothSucceed
       (ApiClient.secureStore
          (ApiClient.saveCredentialsToStorage ApiClient.bothSucceed
             {| ApiClient.username := js "ash"; ApiClient.password := js "pikachu" |}
             (ApiClient.constructed ∅))))
  = false.
Proof.
  split.
  - apply (credentials_survive_restart
             {| ApiClient.username := js "ash"; ApiClient.password := js "pikachu" |}
             (ApiClient.constructed ∅) true ApiClient.bothSucceed).
  - apply (credentials_survive_restart
             {| ApiClient.username := js "ash"; ApiClient.password := js "pikachu" |}
             (ApiClient.constructed ∅) false ApiClient.bothSucceed).
Defined.

Lemma request_by_status_witness :
  ApiClient.request (ApiClient.Response 404 None)
    {| ApiClient.usernameCall := true; ApiClient.passwordCall := true |}
    (ApiClient.constructed ∅)
  = (Threw ApiClient.unauthorized,
     ApiClient.removeCredentialsFromStorage
       {| ApiClient.usernameCall := true; ApiClient.passwordCall := true |}
       (ApiClient.constructed ∅)).
Proof.
  apply (proj1 (request_by_status 404 None
                  {| ApiClient.usernameCall := true;
                     ApiClient.passwordCall := true |}
                  (ApiClient.constructed ∅) ltac:(lia))).
  lia.
Defined.

Lemma logout_keeps_session_witness :
  ApiClient.isAuthenticated
    (ApiClient.logout
       {| ApiClient.usernameCall := true; ApiClient.passwordCall := true |}
       (ApiClient.withSessionValid (ApiClient.constructed ∅) true)) = true.
Proof.
  apply (proj1 (proj2 (proj2 (logout_keeps_session
           {| ApiClient.usernameCall := true; ApiClient.passwordCall := true |}
           (ApiClient.withSessionValid (ApiClient.constructed ∅) true))))).
  reflexivity.
Defined.

(** ** Platform folders in [AsyncStorage] *)

Section FolderKeys.

Import PlatformFolders.

Lemma folderKey_inj a b : folderKey a = folderKey b -> slugText a = slugText b.
Proof.
  unfold folderKey. intros H.
  by apply app_inv_head in H; apply app_inv_head in H.
Qed.

Lemma folderKey_not_index a : folderKey a <> STORAGE_KEY.
Proof.
  unfold folderKey. intros H. apply (f_equal (@length N)) in H.
  rewrite !length_app in H. simpl in H. lia.
Qed.

Lemma folderKey_not_base a : folderKey a <> STORAGE_KEY_BASE.
Proof.
  unfold folderKey. intros H.
  apply (f_equal (fun l => l !! 15%nat)) in H. discriminate H.
Qed.

Lemma index_not_base : STORAGE_KEY <> STORAGE_KEY_BASE.
Proof. discriminate. Qed.

(** X19: the key of a folder is ["platformFolders_"] followed by the slug,
    so two slugs share a key only if they are written the same, no folder
    key is the key of the array of folders or the key of the base folder,
    and a folder saved without a slug lands on the key of the slug
    ["undefined"]. *)
Theorem folderKey_distinct a b :
  (folderKey a = folderKey b <-> slugText a = slugText b) /\
  (forall s t, folderKey (Some s) = folderKey (Some t) -> s = t) /\
  folderKey a <> STORAGE_KEY /\
  folderKey a <> STORAGE_KEY_BASE /\
  STORAGE_KEY <> STORAGE_KEY_BASE /\
  folderKey None = folderKey (Some (js "undefined")).
Proof.
  split; [|split; [|split; [|split; [|split]]]].
  - split; [apply folderKey_inj | unfold folderKey; by intros ->].
  - intros s t H. by apply folderKey_inj in H.
  - apply folderKey_not_index.
  - apply folderKey_not_base.
  - apply index_not_base.
  - reflexivity.
Qed.

End FolderKeys.

Section FolderShape.

Import PlatformFolders.

Lemma nextCall_items d : items (snd (nextCall d)) = items d.
Proof. unfold nextCall. by destruct (faults d). Qed.

Lemma keepsShape_pure {A} (a : A) : keepsShape (pure a).
Proof. by intros d H. Qed.

Lemma keepsShape_raise {A} e : keepsShape (@raise A e).
Proof. by intros d H. Qed.

Lemma keepsShape_andThen {A B} (m : Async A) (k : A -> Async B) :
  keepsShape m -> (forall a, keepsShape (k a)) -> keepsShape (andThen m k).
Proof.
  intros Hm Hk d H. unfold andThen. specialize (Hm d H).
  destruct (m d) as [[a|e] d1]; [by apply Hk | exact Hm].
Qed.

Lemma keepsShape_catch {A} (m : Async A) (h : JSError -> Async A) :
  keepsShape m -> (forall e, keepsShape (h e)) -> keepsShape (catch m h).
Proof.
  intros Hm Hh d H. unfold catch. specialize (Hm d H).
  destruct (m d) as [[a|e] d1]; [exact Hm | by apply Hh].
Qed.

Lemma keepsShape_getItem key : keepsShape (getItem key).
Proof.
  intros d H. unfold getItem.
  pose proof (nextCall_items d) as Hi.
  destruct (nextCall d) as [[] d1]; simpl in *; by rewrite Hi.
Qed.

Lemma wellShaped_insert_folder store s f :
  wellShaped store -> wellShaped (<[folderKey s := FolderJson f]> store).
Proof.
  intros (Hf & Hi & Hb). split; [|split].
  - intros s' v. destruct (decide (folderKey s = folderKey s')) as [Heq|Hne].
    + rewrite Heq, lookup_insert_eq. intros [= <-]. by eexists.
    + rewrite lookup_insert_ne by exact Hne. apply Hf.
  - intros v. rewrite lookup_insert_ne by apply folderKey_not_index. apply Hi.
  - intros v. rewrite lookup_insert_ne by apply folderKey_not_base. apply Hb.
Qed.

Lemma wellShaped_insert_index store l :
  wellShaped store -> wellShaped (<[STORAGE_KEY := FoldersJson l]> store).
Proof.
  intros (Hf & Hi & Hb). split; [|split].
  - intros s v. rewrite lookup_insert_ne
      by (intros H; by apply (folderKey_not_index s)).
    apply Hf.
  - intros v. rewrite lookup_insert_eq. intros [= <-]. by eexists.
  - intros v. rewrite lookup_insert_ne by apply index_not_base. apply Hb.
Qed.

Lemma wellShaped_insert_base store t :
  wellShaped store -> wellShaped (<[STORAGE_KEY_BASE := Text t]> store).
Proof.
  intros (Hf & Hi & Hb). split; [|split].
  - intros s v. rewrite lookup_insert_ne
      by (intros H; by apply (folderKey_not_base s)).
    apply Hf.
  - intros v. rewrite lookup_insert_ne
      by (intros H; by apply index_not_base).
    apply Hi.
  - intros v. rewrite lookup_insert_eq. intros [= <-]. by eexists.
Qed.

Lemma wellShaped_delete store key :
  wellShaped store -> wellShaped (delete key store).
Proof.
  intros (Hf & Hi & Hb). split; [|split].
  - intros s v Hv. apply lookup_delete_Some in Hv as [_ Hv]. by eapply Hf.
  - intros v Hv. apply lookup_delete_Some in Hv as [_ Hv]. by apply Hi.
  - intros v Hv. apply lookup_delete_Some in Hv as [_ Hv]. by apply Hb.
Qed.

Lemma keepsShape_setItem key v :
  (forall store, wellShaped store -> wellShaped (<[key := v]> store)) ->
  keepsShape (setItem key v).
Proof.
  intros Hins d H. unfold setItem.
  pose proof (nextCall_items d) as Hi.
  destruct (nextCall d) as [[] d1]; simpl in *; rewrite Hi;
    [exact H | by apply Hins].
Qed.

Lemma keepsShape_removeItem key : keepsShape (removeItem key).
Proof.
  intros d H. unfold removeItem.
  pose proof (nextCall_items d) as Hi.
  destruct (nextCall d) as [[] d1]; simpl in *; rewrite Hi;
    [exact H | by apply wellShaped_delete].
Qed.

Lemma keepsShape_readFolders : keepsShape readFolders.
Proof.
  apply keepsShape_andThen; [apply keepsShape_getItem|].
  intros v. destruct (present v) as [[]|];
    first [apply keepsShape_pure | apply keepsShape_raise].
Qed.

Lemma keepsShape_getPlatformFolder s : keepsShape (getPlatformFolder s).
Proof.
  apply keepsShape_andThen; [apply keepsShape_getItem|].
  intros v. destruct (present v) as [[]|]; simpl;
    first [apply keepsShape_pure | apply keepsShape_raise
          | apply keepsShape_andThen;
            [apply keepsShape_pure | intros; apply keepsShape_pure]].
Qed.

Lemma keepsShape_storeFolder nf : keepsShape (storeFolder nf).
Proof.
  apply keepsShape_andThen.
  { apply keepsShape_setItem. intros st. apply wellShaped_insert_folder. }
  intros _. apply keepsShape_andThen; [apply keepsShape_readFolders|].
  intros l. apply keepsShape_andThen.
  { apply keepsShape_setItem. intros st. apply wellShaped_insert_index. }
  intros _. apply keepsShape_pure.
Qed.

Lemma keepsShape_save extract s n u :
  keepsShape (savePlatformFolder extract s n u).
Proof.
  apply keepsShape_catch; [|intros; apply keepsShape_pure].
  apply keepsShape_andThen; [apply keepsShape_storeFolder|].
  intros; apply keepsShape_pure.
Qed.

Lemma keepsShape_removeEach l : keepsShape (removeEach l).
Proof.
  induction l as [|f l IH]; [apply keepsShape_pure|].
  apply keepsShape_andThen; [apply keepsShape_removeItem | by intros].
Qed.

(** X20: the operations of the hook keep the storage well shaped, whichever
    calls to [AsyncStorage] fail on the way: under a folder key there is
    the text of one folder, under the array key the text of an array of
    folders and under the base key a raw string, so that what the
    application reads back always parses as what it expects. *)
Theorem operations_keep_shape platform extract listEntries :
  (forall s n u, keepsShape (savePlatformFolder extract s n u)) /\
  (forall s, keepsShape (removePlatformFolder s)) /\
  keepsShape removeAllPlatformFolders /\
  (forall uri, keepsShape (setBaseFolder uri)) /\
  keepsShape removeBaseFolder /\
  (forall p, keepsShape (searchPlatformFolder platform extract listEntries p)).
Proof.
  split; [|split; [|split; [|split; [|split]]]].
  - intros. apply keepsShape_save.
  - intros s. apply keepsShape_andThen; [apply keepsShape_removeItem|].
    intros _. apply keepsShape_andThen; [apply keepsShape_readFolders|].
    intros l. apply keepsShape_setItem. intros st.
    apply wellShaped_insert_index.
  - apply keepsShape_andThen; [apply keepsShape_readFolders|].
    intros l. apply keepsShape_andThen; [apply keepsShape_removeEach|].
    intros _. apply keepsShape_removeItem.
  - intros uri. apply keepsShape_setItem. intros st.
    apply wellShaped_insert_base.
  - apply keepsShape_removeItem.
  - intros p. apply keepsShape_andThen; [apply keepsShape_getPlatformFolder|].
    intros [folder|]; [apply keepsShape_pure|].
    apply keepsShape_andThen; [apply keepsShape_getItem|].
    intros v. destruct (truthyText v) as [base|]; [|apply keepsShape_pure].
    destruct (isSafAvailable platform).
    + destruct (listEntries SAF base) as [files|e]; [|apply keepsShape_raise].
      destruct (findEntry false (slug p) files);
        [apply keepsShape_save | apply keepsShape_pure].
    + destruct (listEntries ExpoFS base) as [files|e]; [|apply keepsShape_pure].
      destruct (findEntry true (slug p) files);
        [apply keepsShape_save | apply keepsShape_pure].
Qed.

End FolderShape.

Section FolderRoundTrip.

Import PlatformFolders.

Local Abbreviation folderOf extract s n u :=
  {| platformSlug := s; platformName := n; folderUri := u;
     folderName := nameOr extract u n |}.

Lemma wellShaped_empty : wellShaped ∅.
Proof. split; [|split]; intros *; by rewrite lookup_empty. Qed.

Lemma getItem_ok d key :
  noFaults d -> getItem key d = (Returned (items d !! key), d).
Proof. unfold noFaults, getItem, nextCall. intros H. by rewrite H. Qed.

Lemma setItem_ok d key v :
  noFaults d ->
  setItem key v d
  = (Returned tt, {| items := <[key := v]> (items d); faults := [] |}).
Proof.
  unfold noFaults, setItem, nextCall. intros H. rewrite H. simpl.
  by rewrite H.
Qed.

Lemma removeItem_ok d key :
  noFaults d ->
  removeItem key d
  = (Returned tt, {| items := delete key (items d); faults := [] |}).
Proof.
  unfold noFaults, removeItem, nextCall. intros H. rewrite H. simpl.
  by rewrite H.
Qed.

Lemma readFolders_ok d :
  noFaults d -> wellShaped (items d) ->
  readFolders d = (Returned (indexOf (items d)), d).
Proof.
  intros Hn (_ & Hi & _). unfold readFolders, andThen, indexOf.
  rewrite getItem_ok by done.
  destruct (items d !! STORAGE_KEY) as [v|] eqn:E; [|done].
  by destruct (Hi v eq_refl) as [l ->].
Qed.

Lemma getPlatformFolder_ok d s :
  noFaults d -> wellShaped (items d) ->
  getPlatformFolder s d = (Returned (folderAt (items d) s), d).
Proof.
  intros Hn (Hf & _ & _). unfold getPlatformFolder, andThen, folderAt.
  rewrite getItem_ok by done.
  destruct (items d !! folderKey s) as [v|] eqn:E; [|done].
  by destruct (Hf s v E) as [l ->].
Qed.

Lemma indexOf_insert_folder store s f :
  indexOf (<[folderKey s := FolderJson f]> store) = indexOf store.
Proof.
  unfold indexOf. by rewrite lookup_insert_ne by apply folderKey_not_index.
Qed.

Lemma indexOf_insert_index store l :
  indexOf (<[STORAGE_KEY := FoldersJson l]> store) = l.
Proof. unfold indexOf. by rewrite lookup_insert_eq. Qed.

Lemma folderAt_insert_index store l s :
  folderAt (<[STORAGE_KEY := FoldersJson l]> store) s = folderAt store s.
Proof.
  unfold folderAt. rewrite lookup_insert_ne; [done|].
  intros H. by apply (folderKey_not_index s).
Qed.

Lemma folderAt_insert_folder store s f s' :
  folderAt (<[folderKey s := FolderJson f]> store) s'
  = if bool_decide (slugText s = slugText s') then Some f
    else folderAt store s'.
Proof.
  unfold folderAt. case_bool_decide as E.
  - assert (folderKey s = folderKey s') as -> by (unfold folderKey; by rewrite E).
    by rewrite lookup_insert_eq.
  - rewrite lookup_insert_ne; [done|]. intros H. by apply folderKey_inj in H.
Qed.

Lemma savePlatformFolder_ok extract s n u d :
  noFaults d -> wellShaped (items d) ->
  savePlatformFolder extract s n u d
  = (Returned (Some (folderOf extract s n u)),
     {| items :=
          <[STORAGE_KEY :=
              FoldersJson (upsert (folderOf extract s n u) (indexOf (items d)))]>
            (<[folderKey s := FolderJson (folderOf extract s n u)]> (items d));
        faults := [] |}).
Proof.
  intros Hn Hw. unfold savePlatformFolder, catch, storeFolder, andThen.
  cbn [platformSlug]. rewrite setItem_ok by done.
  rewrite readFolders_ok; [|done|by apply wellShaped_insert_folder].
  cbn [items]. rewrite indexOf_insert_folder.
  by rewrite setItem_ok.
Qed.

Lemma upsert_In newFolder l : In newFolder (upsert newFolder l).
Proof.
  induction l as [|f l IH]; simpl; [by left|].
  destruct (sameSlug _ f); simpl; auto.
Qed.

Lemma upsert_other newFolder l f :
  platformSlug f <> platformSlug newFolder ->
  In f (upsert newFolder l) <-> In f l.
Proof.
  intros Hne. induction l as [|g l IH]; simpl.
  - split; [intros [<-|[]]; by destruct Hne | intros []].
  - destruct (sameSlug (platformSlug newFolder) g) eqn:E; simpl.
    + apply bool_decide_eq_true in E.
      split; (intros [<-|H]; [by destruct Hne | by right]).
    + rewrite IH. tauto.
Qed.

Lemma upsert_slugs newFolder l :
  map platformSlug (upsert newFolder l)
  = if existsb (sameSlug (platformSlug newFolder)) l
    then map platformSlug l
    else map platformSlug l ++ [platformSlug newFolder].
Proof.
  induction l as [|g l IH]; simpl; [done|].
  destruct (sameSlug (platformSlug newFolder) g) eqn:E; simpl.
  - apply bool_decide_eq_true in E. by rewrite E.
  - rewrite IH. by destruct (existsb _ l).
Qed.

Lemma existsb_sameSlug s l :
  existsb (sameSlug s) l = false -> ~ In s (map platformSlug l).
Proof.
  induction l as [|g l IH]; simpl; [tauto|].
  destruct (sameSlug s g) eqn:E; simpl; [done|].
  apply bool_decide_eq_false in E.
  intros H [Hg|Hin]; [by destruct E | by apply IH].
Qed.

Lemma upsert_NoDup newFolder l :
  List.NoDup (map platformSlug l) ->
  List.NoDup (map platformSlug (upsert newFolder l)).
Proof.
  intros H. rewrite upsert_slugs.
  destruct (existsb _ l) eqn:E; [done|].
  apply existsb_sameSlug in E.
  apply NoDup_ListNoDup, NoDup_app. apply NoDup_ListNoDup in H.
  split; [done|]. split.
  - intros x Hx ->%list_elem_of_singleton. by apply E, list_elem_of_In.
  - apply NoDup_singleton.
Qed.

(** X21: on a device whose calls all succeed, [savePlatformFolder] returns
    the folder it built, [getPlatformFolder] of the same slug then reads
    that folder back, the folders of the slugs written otherwise and the
    base folder are as before, and in the array of folders the new folder
    takes the place of the first one of its slug or goes to the end: the
    folders of the other slugs stay, and an array with one folder a slug
    stays so. *)
Theorem savePlatformFolder_round_trip extract s n u d :
  noFaults d -> wellShaped (items d) ->
  let saved := folderOf extract s n u in
  let d' := snd (savePlatformFolder extract s n u d) in
  fst (savePlatformFolder extract s n u d) = Returned (Some saved) /\
  getPlatformFolder s d' = (Returned (Some saved), d') /\
  (forall s', slugText s' <> slugText s ->
     fst (getPlatformFolder s' d') = fst (getPlatformFolder s' d)) /\
  items d' !! STORAGE_KEY_BASE = items d !! STORAGE_KEY_BASE /\
  indexOf (items d') = upsert saved (indexOf (items d)) /\
  In saved (indexOf (items d')) /\
  (forall f, platformSlug f <> s ->
     In f (indexOf (items d')) <-> In f (indexOf (items d))) /\
  (List.NoDup (map platformSlug (indexOf (items d))) ->
   List.NoDup (map platformSlug (indexOf (items d')))).
Proof.
  intros Hn Hw saved d'. subst d'.
  rewrite savePlatformFolder_ok by done. cbn [fst snd].
  set (d' := {| items := _ |}).
  assert (noFaults d') as Hn' by reflexivity.
  assert (wellShaped (items d')) as Hw'
    by apply wellShaped_insert_index, wellShaped_insert_folder, Hw.
  assert (indexOf (items d') = upsert saved (indexOf (items d))) as Hidx
    by apply indexOf_insert_index.
  split; [done|]. split; [|split; [|split; [|split; [|split; [|split]]]]].
  - rewrite getPlatformFolder_ok by done. f_equal. f_equal.
    subst d'. cbn [items]. rewrite folderAt_insert_index, folderAt_insert_folder.
    by rewrite bool_decide_eq_true_2.
  - intros s' Hs'. rewrite !getPlatformFolder_ok by done. cbn [fst]. f_equal.
    subst d'. cbn [items]. rewrite folderAt_insert_index, folderAt_insert_folder.
    rewrite bool_decide_eq_false_2; [done|]. by intros E; apply Hs'.
  - subst d'. cbn [items].
    rewrite lookup_insert_ne by (intros H; by apply index_not_base).
    by rewrite lookup_insert_ne by apply folderKey_not_base.
  - exact Hidx.
  - rewrite Hidx. apply upsert_In.
  - intros f Hf. rewrite Hidx. by apply upsert_other.
  - intros Hnd. rewrite Hidx. by apply upsert_NoDup.
Qed.

Lemma removePlatformFolder_ok s d :
  noFaults d -> wellShaped (items d) ->
  removePlatformFolder s d
  = (Returned tt,
     {| items :=
          <[STORAGE_KEY :=
              FoldersJson
                (List.filter (fun folder => negb (sameSlug s folder))
                   (indexOf (items d)))]>
            (delete (folderKey s) (items d));
        faults := [] |}).
Proof.
  intros Hn Hw. unfold removePlatformFolder, andThen.
  rewrite removeItem_ok by done.
  rewrite readFolders_ok; [|done|by apply wellShaped_delete].
  rewrite setItem_ok by done. cbn [items]. do 4 f_equal.
  unfold indexOf. by rewrite lookup_delete_ne by apply folderKey_not_index.
Qed.

Lemma folderAt_delete store s s' :
  folderAt (delete (folderKey s) store) s'
  = if bool_decide (slugText s = slugText s') then None
    else folderAt store s'.
Proof.
  unfold folderAt. case_bool_decide as E.
  - assert (folderKey s = folderKey s') as -> by (unfold folderKey; by rewrite E).
    by rewrite lookup_delete_eq.
  - rewrite lookup_delete_ne; [done|]. intros H. by apply folderKey_inj in H.
Qed.

(** X22: on a device whose calls all succeed, after [removePlatformFolder]
    the slug has no folder any more, the folders of the slugs written
    otherwise and the base folder are as before, and the array of folders
    is the old one without the folders of the slug, in the old order. *)
Theorem removePlatformFolder_removes s d :
  noFaults d -> wellShaped (items d) ->
  let d' := snd (removePlatformFolder s d) in
  fst (removePlatformFolder s d) = Returned tt /\
  getPlatformFolder s d' = (Returned None, d') /\
  hasPlatformFolder s d' = (Returned false, d') /\
  (forall s', slugText s' <> slugText s ->
     fst (getPlatformFolder s' d') = fst (getPlatformFolder s' d)) /\
  items d' !! STORAGE_KEY_BASE = items d !! STORAGE_KEY_BASE /\
  indexOf (items d')
  = List.filter (fun folder => negb (sameSlug s folder)) (indexOf (items d)) /\
  (forall f, In f (indexOf (items d')) <->
             In f (indexOf (items d)) /\ platformSlug f <> s).
Proof.
  intros Hn Hw d'. subst d'.
  rewrite removePlatformFolder_ok by done. cbn [fst snd].
  set (d' := {| items := _ |}).
  assert (noFaults d') as Hn' by reflexivity.
  assert (wellShaped (items d')) as Hw'
    by apply wellShaped_insert_index, wellShaped_delete, Hw.
  assert (indexOf (items d')
          = List.filter (fun folder => negb (sameSlug s folder))
              (indexOf (items d))) as Hidx
    by apply indexOf_insert_index.
  assert (getPlatformFolder s d' = (Returned None, d')) as Hget.
  { rewrite getPlatformFolder_ok by done. do 2 f_equal.
    subst d'. cbn [items]. rewrite folderAt_insert_index, folderAt_delete.
    by rewrite bool_decide_eq_true_2. }
  split; [done|]. split; [exact Hget|].
  split; [|split; [|split; [|split]]].
  - unfold hasPlatformFolder, andThen. by rewrite Hget.
  - intros s' Hs'. rewrite !getPlatformFolder_ok by done. cbn [fst]. f_equal.
    subst d'. cbn [items]. rewrite folderAt_insert_index, folderAt_delete.
    rewrite bool_decide_eq_false_2; [done|]. by intros E; apply Hs'.
  - subst d'. cbn [items].
    rewrite lookup_insert_ne by (intros H; by apply index_not_base).
    by rewrite lookup_delete_ne by apply folderKey_not_base.
  - exact Hidx.
  - intros f. rewrite Hidx, filter_In. unfold sameSlug.
    rewrite negb_true_iff, bool_decide_eq_false. split.
    + intros [Hin Hne]. split; [done|]. by intros E; apply Hne.
    + intros [Hin Hne]. split; [done|]. by intros E; apply Hne.
Qed.

Lemma getItem_items {key d} : items (snd (getItem key d)) = items d.
Proof.
  unfold getItem. pose proof (nextCall_items d) as Hi.
  by destruct (nextCall d) as [[] d1].
Qed.

Lemma readFolders_items d : items (snd (readFolders d)) = items d.
Proof.
  unfold readFolders, andThen.
  pose proof (@getItem_items STORAGE_KEY d) as Hi.
  destruct (getItem STORAGE_KEY d) as [[v|e] d1]; [|done].
  by destruct (present v) as [[]|].
Qed.

Lemma setItem_returned key v d :
  fst (setItem key v d) = Returned tt ->
  items (snd (setItem key v d)) = <[key := v]> (items d).
Proof.
  unfold setItem. pose proof (nextCall_items d) as Hi.
  destruct (nextCall d) as [[] d1]; [done|]. intros _. cbn in *. by rewrite Hi.
Qed.

(** X23: [savePlatformFolder] never raises, and it returns the folder only
    when both writes were made: the folder is then under its key and in
    the array.  The two writes are not one step: when the first call
    succeeds and the second fails, the function returns [null], yet the
    folder is under its key, where [getPlatformFolder] reads it, and the
    array does not list it. *)
Theorem savePlatformFolder_partial_write extract s n u d :
  let saved := folderOf extract s n u in
  let result := savePlatformFolder extract s n u d in
  (fst result = Returned None \/ fst result = Returned (Some saved)) /\
  (fst result = Returned (Some saved) ->
   folderAt (items (snd result)) s = Some saved /\
   In saved (indexOf (items (snd result)))) /\
  (faults d = [false; true] ->
   fst result = Returned None /\
   getPlatformFolder s (snd result) = (Returned (Some saved), snd result) /\
   indexOf (items (snd result)) = indexOf (items d)).
Proof.
  intros saved result. subst result.
  unfold savePlatformFolder, catch, storeFolder, andThen.
  fold saved. change (platformSlug saved) with s.
  split; [|split].
  - destruct (setItem (folderKey s) (FolderJson saved) d) as [[[]|e] d1];
      [|left; reflexivity].
    destruct (readFolders d1) as [[l|e] d2]; [|left; reflexivity].
    destruct (setItem STORAGE_KEY _ d2) as [[[]|e] d3];
      [right | left]; reflexivity.
  - pose proof (setItem_returned (folderKey s) (FolderJson saved) d) as H1.
    destruct (setItem (folderKey s) (FolderJson saved) d) as [[[]|e] d1];
      [|discriminate].
    pose proof (readFolders_items d1) as H2.
    destruct (readFolders d1) as [[l|e] d2]; [|discriminate].
    pose proof (setItem_returned STORAGE_KEY
                  (FoldersJson (upsert saved l)) d2) as H3.
    destruct (setItem STORAGE_KEY _ d2) as [[[]|e] d3]; [|discriminate].
    intros _. cbn [fst snd pure] in *.
    rewrite H3, H2, H1 by done. split.
    + rewrite folderAt_insert_index, folderAt_insert_folder.
      by rewrite bool_decide_eq_true_2.
    + rewrite indexOf_insert_index. apply upsert_In.
  - intros Hf.
    unfold setItem, readFolders, andThen, getItem, nextCall.
    rewrite Hf. cbn. split; [done|]. split.
    + unfold getPlatformFolder, andThen, getItem, nextCall. cbn.
      rewrite lookup_insert_eq. done.
    + apply indexOf_insert_folder.
Qed.

Lemma removeEach_ok l : forall d,
  noFaults d ->
  exists d', removeEach l d = (Returned tt, d') /\ noFaults d' /\
    forall key, items d' !! key
      = if bool_decide (key ∈ map (fun f => folderKey (platformSlug f)) l)
        then None else items d !! key.
Proof.
  induction l as [|f l IH]; intros d Hn.
  - exists d. split; [done|]. split; [done|]. intros key.
    rewrite bool_decide_eq_false_2; [done|]. apply not_elem_of_nil.
  - cbn [removeEach]. unfold andThen. rewrite removeItem_ok by done.
    destruct (IH {| items := delete (folderKey (platformSlug f)) (items d);
                    faults := [] |} eq_refl) as (d' & -> & Hn' & Hl).
    exists d'. split; [done|]. split; [done|]. intros key.
    rewrite Hl. cbn [items map].
    destruct (decide (key = folderKey (platformSlug f))) as [->|Hne].
    + rewrite lookup_delete_eq.
      rewrite (bool_decide_eq_true_2 (_ ∈ _ :: _)) by apply list_elem_of_here.
      by case_bool_decide.
    + rewrite lookup_delete_ne by done.
      case_bool_decide as E1; case_bool_decide as E2; try done.
      * destruct E2. by apply list_elem_of_further.
      * apply elem_of_cons in E2 as [E2|E2]; done.
Qed.

(** X24: on a device whose calls all succeed, [removeAllPlatformFolders]
    empties the array and removes the folder of every slug the array
    listed, and nothing else: the base folder stays, and so does a folder
    under a key that no listed slug is written like, as a save whose
    second write failed leaves one. *)
Theorem removeAllPlatformFolders_listed d :
  noFaults d -> wellShaped (items d) ->
  let d' := snd (removeAllPlatformFolders d) in
  fst (removeAllPlatformFolders d) = Returned tt /\
  indexOf (items d') = [] /\
  items d' !! STORAGE_KEY_BASE = items d !! STORAGE_KEY_BASE /\
  (forall f, In f (indexOf (items d)) ->
     getPlatformFolder (platformSlug f) d' = (Returned None, d')) /\
  (forall s,
     (forall f, In f (indexOf (items d)) ->
        slugText (platformSlug f) <> slugText s) ->
     fst (getPlatformFolder s d') = fst (getPlatformFolder s d)).
Proof.
  intros Hn Hw d'. subst d'.
  unfold removeAllPlatformFolders, andThen.
  rewrite readFolders_ok by done.
  destruct (removeEach_ok (indexOf (items d)) d Hn) as (d1 & -> & Hn1 & Hl).
  rewrite removeItem_ok by done. cbn [fst snd].
  set (d' := {| items := _ |}).
  assert (noFaults d') as Hn' by reflexivity.
  assert (forall key, key <> STORAGE_KEY ->
            items d' !! key
            = if bool_decide
                   (key ∈ map (fun f => folderKey (platformSlug f))
                          (indexOf (items d)))
              then None else items d !! key) as Hl'.
  { intros key Hk. subst d'. cbn [items].
    rewrite lookup_delete_ne by done. apply Hl. }
  assert (wellShaped (items d')) as Hw'.
  { destruct Hw as (Hf & Hi & Hb). split; [|split].
    - intros s v. rewrite Hl' by apply folderKey_not_index.
      case_bool_decide; [done | apply Hf].
    - intros v. subst d'. cbn [items]. by rewrite lookup_delete_eq.
    - intros v. rewrite Hl' by (intros H; by apply index_not_base).
      case_bool_decide; [done | apply Hb]. }
  split; [done|]. split; [|split; [|split]].
  - unfold indexOf. subst d'. cbn [items]. by rewrite lookup_delete_eq.
  - rewrite Hl' by (intros H; by apply index_not_base).
    rewrite bool_decide_eq_false_2; [done|].
    intros (f & Hk & _)%list_elem_of_fmap.
    by apply (folderKey_not_base (platformSlug f)).
  - intros f Hin. rewrite getPlatformFolder_ok by done. do 2 f_equal.
    unfold folderAt. rewrite Hl' by apply folderKey_not_index.
    rewrite bool_decide_eq_true_2; [done|].
    apply list_elem_of_fmap. exists f. split; [done|]. by apply list_elem_of_In.
  - intros s Hs. rewrite !getPlatformFolder_ok by done. cbn [fst]. f_equal.
    unfold folderAt. rewrite Hl' by apply folderKey_not_index.
    rewrite bool_decide_eq_false_2; [done|].
    intros (f & Hk & Hin)%list_elem_of_fmap.
    apply folderKey_inj in Hk. apply (Hs f); [by apply list_elem_of_In | done].
Qed.

(** X25: [searchPlatformFolder] looks the platform up under its [slug]
    and, when it finds a directory of that name in the base folder, saves
    it under the platform's [fs_slug]: the folder is returned and listed
    in the array, and the next lookup under the [slug] finds it exactly
    when the [fs_slug] is written like the [slug]; with an [fs_slug] that
    is missing or different the lookup stays empty. *)
Theorem searchPlatformFolder_saves_under_fs_slug
    platform extract listEntries p d base files file :
  noFaults d -> wellShaped (items d) ->
  folderAt (items d) (Some (slug p)) = None ->
  items d !! STORAGE_KEY_BASE = Some (Text base) -> base <> [] ->
  listEntries (if isSafAvailable platform then SAF else ExpoFS) base
  = Returned files ->
  findEntry (negb (isSafAvailable platform)) (slug p) files = Some file ->
  let found := folderOf extract (fs_slug p) (name p) (entryUri file) in
  let d' := snd (searchPlatformFolder platform extract listEntries p d) in
  fst (searchPlatformFolder platform extract listEntries p d)
  = Returned (Some found) /\
  In found (indexOf (items d')) /\
  getPlatformFolder (Some (slug p)) d'
  = (Returned (if bool_decide (slugText (fs_slug p) = slug p)
               then Some found else None), d').
Proof.
  intros Hn Hw Hnone Hbase Hne Hlist Hfind found d'. subst d'.
  unfold searchPlatformFolder, andThen.
  rewrite getPlatformFolder_ok, Hnone by done.
  rewrite getItem_ok, Hbase by done.
  destruct base as [|c base]; [done|]. cbn [truthyText].
  assert (searchPlatformFolder_tail :
    (if isSafAvailable platform
     then match listEntries SAF (c :: base) with
          | Returned files0 =>
              match findEntry false (slug p) files0 with
              | Some file0 =>
                  savePlatformFolder extract (fs_slug p) (name p) (entryUri file0)
              | None => pure None
              end
          | Threw e => raise e
          end
     else match listEntries ExpoFS (c :: base) with
          | Returned files0 =>
              match findEntry true (slug p) files0 with
              | Some file0 =>
                  savePlatformFolder extract (fs_slug p) (name p) (entryUri file0)
              | None => pure None
              end
          | Threw _ => pure None
          end)
    = savePlatformFolder extract (fs_slug p) (name p) (entryUri file)).
  { destruct (isSafAvailable platform); cbn [negb] in Hfind;
      by rewrite Hlist, Hfind. }
  rewrite searchPlatformFolder_tail.
  rewrite savePlatformFolder_ok by done. cbn [fst snd].
  set (d' := {| items := _ |}).
  assert (noFaults d') as Hn' by reflexivity.
  assert (wellShaped (items d')) as Hw'
    by apply wellShaped_insert_index, wellShaped_insert_folder, Hw.
  split; [done|]. split.
  - subst d'. cbn [items]. rewrite indexOf_insert_index. apply upsert_In.
  - rewrite getPlatformFolder_ok by done. do 2 f_equal.
    subst d'. cbn [items]. rewrite folderAt_insert_index, folderAt_insert_folder.
    cbn [slugText default]. by rewrite Hnone.
Qed.

(** X26: where the scoped back end is available, [canAccessBaseFolder]
    does not depend on what reading the directory gives: with a base
    folder set it answers [true] also when the directory cannot be read,
    because the boolean of [checkDirectoryPermissions] is dropped;
    [checkPlatformFolderAccess] returns that boolean. *)
Theorem canAccessBaseFolder_on_saf platform :
  isSafAvailable platform = true ->
  (forall readDirectory readDirectory' getInfo getInfo' d,
     canAccessBaseFolder platform readDirectory getInfo d
     = canAccessBaseFolder platform readDirectory' getInfo' d) /\
  (forall readDirectory getInfo d uri,
     noFaults d -> items d !! STORAGE_KEY_BASE = Some (Text uri) ->
     uri <> [] ->
     fst (canAccessBaseFolder platform readDirectory getInfo d)
     = Returned true) /\
  (forall readDirectory getInfo d s folder,
     noFaults d -> items d !! folderKey s = Some (FolderJson folder) ->
     fst (checkPlatformFolderAccess platform readDirectory getInfo s d)
     = Returned (StorageAccess.checkDirectoryPermissions
                   platform readDirectory (folderUri folder))).
Proof.
  intros Hsaf. split; [|split].
  - intros rd rd' gi gi' d. unfold canAccessBaseFolder, andThen.
    destruct (getBaseFolder d) as [[v|e] d1]; [|done].
    destruct (truthyText v); [|done]. by rewrite Hsaf.
  - intros rd gi d uri Hn Hbase Hne.
    unfold canAccessBaseFolder, andThen, getBaseFolder, catch.
    rewrite getItem_ok, Hbase by done.
    destruct uri as [|c uri]; [done|]. cbn [truthyText]. by rewrite Hsaf.
  - intros rd gi d s folder Hn Hf.
    unfold checkPlatformFolderAccess, getPlatformFolder, andThen.
    rewrite getItem_ok, Hf by done. cbn. by rewrite Hsaf.
Qed.

End FolderRoundTrip.

Section Permissions.

Import StorageAccess.

(** X27: every error [requestDirectoryPermissions] raises has a [type];
    where the scoped back end is available the function returns a URI
    exactly when the picker came back with a non-empty one, and the
    fallback directory plays no part; elsewhere the picker plays no
    part. *)
Theorem requestDirectoryPermissions_typed platform fallback picker denied failed :
  let result :=
    requestDirectoryPermissions platform fallback picker denied failed in
  (forall e, result = Raise e -> hasType e = true) /\
  (forall uri, result = Done uri /\ isSafAvailable platform = true <->
     picker = Done (Some (Some uri)) /\ uri <> [] /\
     isSafAvailable platform = true) /\
  (isSafAvailable platform = false ->
   forall picker',
     result = requestDirectoryPermissions platform fallback picker' denied failed) /\
  (isSafAvailable platform = true ->
   forall fallback',
     result = requestDirectoryPermissions platform fallback' picker denied failed).
Proof.
  intros result. subst result. unfold requestDirectoryPermissions.
  split; [|split; [|split]].
  - intros e.
    destruct (isSafAvailable platform); cbn [negb].
    + destruct picker as [[[[|c uri]|]|]|r]; try discriminate;
        try (cbn; intros [= <-]; reflexivity).
      destruct (hasType r) eqn:E; intros [= <-]; [exact E | reflexivity].
    + destruct fallback as [uri|r]; [discriminate|].
      destruct (hasType r) eqn:E; intros [= <-]; [exact E | reflexivity].
  - intros uri. destruct (isSafAvailable platform); cbn [negb].
    + destruct picker as [[[[|c u]|]|]|r]; cbn;
        try (destruct (hasType r));
        (split; [intros [[=] _]; subst; try done | intros ([=] & Hne & _); subst; try done]).
    + split; [intros [_ [=]] | intros (_ & _ & [=])].
  - intros Hsaf picker'. by rewrite Hsaf.
  - intros Hsaf fallback'. by rewrite Hsaf.
Qed.

End Permissions.

(** ** Instances on sample data *)

Lemma processCompleted_once_witness :
  let completed :=
    [{| Details.downloadId := js "a"; Details.romFile := Sample.discOne |};
     {| Details.downloadId := js "b"; Details.romFile := Sample.patched |}] in
  let processed' :=
    snd (Details.processCompleted (Some Cases.twoDiscs) 0 completed Details.mounted) in
  fst (Details.processCompleted (Some Cases.twoDiscs) 0 completed Details.mounted)
  = [{| Details.downloadId := js "a"; Details.romFile := Sample.discOne |}] /\
  Details.processCompleted (Some Cases.twoDiscs) 0 completed processed'
  = ([], processed') /\
  In {| Details.downloadId := js "a"; Details.romFile := Sample.discOne |}
     (fst (Details.processCompleted (Some Cases.twoDiscs) 0 completed
             (Details.onRomChange (Some (js "7")) processed'))).
Proof.
  intros completed processed'.
  pose proof (processCompleted_once (Some Cases.twoDiscs) 0 completed Details.mounted)
    as H.
  cbv zeta in H. destruct H as (_ & _ & _ & H4 & _ & H6 & H7).
  split; [reflexivity|]. split; [exact H4|].
  assert (E : Details.onRomChange (Some (js "7")) processed' = Details.mounted)
    by exact (H6 55%N []).
  rewrite E. apply H7. by left.
Defined.

Lemma compareDownloads_order_witness :
  DownloadList.compareDownloads _ fst snd
    (DownloadQueue.DOWNLOADING, Some 5) (DownloadQueue.COMPLETED, Some 9) <= 0.
Proof.
  apply (proj1 (proj2 (compareDownloads_order
           (DownloadQueue.Status * option Z) fst snd))
           (DownloadQueue.DOWNLOADING, Some 5) (DownloadQueue.PENDING, None)
           (DownloadQueue.COMPLETED, Some 9));
    vm_compute; discriminate.
Defined.

Lemma checkSession_flag_witness :
  exists status payload,
    ApiClient.Response 200 (Some (ApiClient.value (js "me")))
    = ApiClient.Response status (Some (ApiClient.value payload)) /\
    200 <= status <= 299.
Proof.
  apply (proj1 (proj2 (checkSession_flag
           (ApiClient.Response 200 (Some (ApiClient.value (js "me"))))
           ApiClient.bothSucceed (ApiClient.constructed ∅)))).
  reflexivity.
Defined.

Lemma folderKey_distinct_witness :
  PlatformFolders.folderKey None
  = PlatformFolders.folderKey (Some (js "undefined")).
Proof.
  apply (proj2 (proj1 (folderKey_distinct None (Some (js "undefined"))))).
  reflexivity.
Defined.

Lemma operations_keep_shape_witness :
  PlatformFolders.wellShaped
    (PlatformFolders.items
       (snd (PlatformFolders.savePlatformFolder Stores.noName
               (Some (js "psx")) (js "PlayStation") (js "file:///roms/psx")
               Stores.flaky))).
Proof.
  apply (proj1 (operations_keep_shape Sample.phone Stores.noName
                  Stores.baseListing)).
  apply wellShaped_empty.
Defined.

Lemma savePlatformFolder_round_trip_witness :
  let d' :=
    snd (PlatformFolders.savePlatformFolder Stores.noName (Some (js "psx"))
           (js "PlayStation") (js "file:///roms/psx") Stores.fresh) in
  PlatformFolders.getPlatformFolder (Some (js "psx")) d'
  = (Returned (Some Stores.psxFolder), d').
Proof.
  pose proof (savePlatformFolder_round_trip Stores.noName (Some (js "psx"))
                (js "PlayStation") (js "file:///roms/psx") Stores.fresh
                eq_refl wellShaped_empty) as H.
  cbv zeta in H. apply H.
Defined.

Lemma wellShaped_withFolders : PlatformFolders.wellShaped (PlatformFolders.items Stores.withFolders).
Proof.
  apply wellShaped_insert_index.
  do 3 apply wellShaped_insert_folder.
  apply wellShaped_insert_base, wellShaped_empty.
Qed.

Lemma removePlatformFolder_removes_witness :
  let d' := snd (PlatformFolders.removePlatformFolder (Some (js "psx")) Stores.withFolders) in
  PlatformFolders.hasPlatformFolder (Some (js "psx")) Stores.withFolders
  = (Returned true, Stores.withFolders) /\
  PlatformFolders.hasPlatformFolder (Some (js "psx")) d' = (Returned false, d') /\
  PlatformFolders.indexOf (PlatformFolders.items d') = [Stores.snesFolder] /\
  fst (PlatformFolders.getPlatformFolder (Some (js "snes")) d')
  = Returned (Some Stores.snesFolder).
Proof.
  pose proof (removePlatformFolder_removes (Some (js "psx")) Stores.withFolders
                eq_refl wellShaped_withFolders) as H.
  cbv zeta in H. destruct H as (_ & _ & Hhas & Hother & _ & Hidx & _).
  split; [reflexivity|]. split; [exact Hhas|]. split.
  - rewrite Hidx. reflexivity.
  - rewrite (Hother (Some (js "snes"))) by discriminate. reflexivity.
Defined.

Lemma savePlatformFolder_partial_write_witness :
  let result :=
    PlatformFolders.savePlatformFolder Stores.noName (Some (js "psx"))
      (js "PlayStation") (js "file:///roms/psx") Stores.flaky in
  fst result = Returned None /\
  PlatformFolders.getPlatformFolder (Some (js "psx")) (snd result)
  = (Returned (Some Stores.psxFolder), snd result) /\
  PlatformFolders.indexOf (PlatformFolders.items (snd result)) = [].
Proof.
  pose proof (savePlatformFolder_partial_write Stores.noName (Some (js "psx"))
                (js "PlayStation") (js "file:///roms/psx") Stores.flaky) as H.
  cbv zeta in H. destruct H as (_ & _ & H). apply (H eq_refl).
Defined.

Lemma removeAllPlatformFolders_listed_witness :
  let d' := snd (PlatformFolders.removeAllPlatformFolders Stores.withFolders) in
  PlatformFolders.indexOf (PlatformFolders.items Stores.withFolders) = [Stores.psxFolder; Stores.snesFolder] /\
  PlatformFolders.indexOf (PlatformFolders.items d') = [] /\
  PlatformFolders.getPlatformFolder (Some (js "psx")) d' = (Returned None, d') /\
  PlatformFolders.getPlatformFolder (Some (js "snes")) d' = (Returned None, d') /\
  fst (PlatformFolders.getPlatformFolder (Some (js "gba")) d')
  = Returned (Some Stores.gbaFolder) /\
  PlatformFolders.items d' !! PlatformFolders.STORAGE_KEY_BASE = Some (PlatformFolders.Text (js "file:///roms")).
Proof.
  pose proof (removeAllPlatformFolders_listed Stores.withFolders eq_refl
                wellShaped_withFolders) as H.
  cbv zeta in H. destruct H as (_ & Hidx & Hbase & Hgone & Hkept).
  split; [reflexivity|]. split; [exact Hidx|].
  split; [apply (Hgone Stores.psxFolder); by left|].
  split; [apply (Hgone Stores.snesFolder); right; by left|].
  split.
  - rewrite (Hkept (Some (js "gba"))); [reflexivity|].
    intros f [<-|[<-|[]]]; discriminate.
  - rewrite Hbase. reflexivity.
Defined.

Lemma searchPlatformFolder_saves_under_fs_slug_witness :
  let d' :=
    snd (PlatformFolders.searchPlatformFolder Sample.phone Stores.noName
           Stores.baseListing Stores.psx Stores.withBase) in
  PlatformFolders.getPlatformFolder (Some (js "psx")) d' = (Returned None, d').
Proof.
  pose proof (searchPlatformFolder_saves_under_fs_slug Sample.phone
                Stores.noName Stores.baseListing Stores.psx Stores.withBase
                (js "file:///roms") _ _
                eq_refl (wellShaped_insert_base _ _ wellShaped_empty)
                eq_refl eq_refl ltac:(discriminate) eq_refl eq_refl) as H.
  cbv zeta in H. apply H.
Defined.

Lemma canAccessBaseFolder_on_saf_witness :
  fst (PlatformFolders.canAccessBaseFolder Sample.phone Stores.unreadable
         Stores.noInfo Stores.withBase) = Returned true.
Proof.
  apply (proj1 (proj2 (canAccessBaseFolder_on_saf Sample.phone eq_refl))
           Stores.unreadable Stores.noInfo Stores.withBase (js "file:///roms"));
    [reflexivity | reflexivity | discriminate].
Defined.

Lemma requestDirectoryPermissions_typed_witness :
  StorageAccess.hasType
    {| StorageAccess.errorType := Some (js "permissions_denied");
       StorageAccess.errorMessage := js "not granted" |} = true.
Proof.
  apply (proj1 (requestDirectoryPermissions_typed Sample.phone
                  (StorageAccess.Done (js "file:///cache/roms"))
                  (StorageAccess.Done None) (js "not granted") (js "error"))).
  reflexivity.
Defined.
